(** * Maintenance scripts of multi-agent-machine-client: a shallow embedding

    The repository holds four one-shot Python scripts that rewrite TypeScript
    sources with regular expressions:

    - [refactor_dashboard.py]  writes a constant over [src/dashboard.ts];
    - [scripts/aggressive-cleanup.py]  removes the symbols a lint run reports
      as unused;
    - [scripts/fix-unused-imports.py]  drops [WorkflowStepConfig] from an
      import list;
    - [scripts/fix-workflow-coordinator-imports.py]  drops an unused
      [WorkflowCoordinator] import line.

    Python strings are sequences of Unicode code points, so a character is a
    number and a string is a list of them.  The part of Python's [re] module
    the scripts use (literals, character classes, greedy [*] and [+] on a
    class, groups, [^]) is embedded as a backtracking matcher. *)

From Stdlib Require Import NArith ZArith List Ascii String Bool Lia.
From Stdlib Require Import Sorted Permutation.
From stdpp Require Import base option list gmap.

Local Open Scope N_scope.

(** ** Characters and strings *)

Abbreviation char := N.
Abbreviation str := (list char).

(** The text of an ASCII literal of the source. *)
Definition lit (x : string) : str := map N_of_ascii (list_ascii_of_string x).

Definition NL : char := 10.
Definition DQ : char := 34.
Definition SQ : char := 39.

Definition char_eqb (a b : char) : bool := N.eqb a b.

Fixpoint str_eqb (a b : str) : bool :=
  match a, b with
  | [], [] => true
  | x :: a', y :: b' => char_eqb x y && str_eqb a' b'
  | _, _ => false
  end.

(** [s.startswith(p)] *)
Fixpoint startswith (p s : str) : bool :=
  match p, s with
  | [], _ => true
  | x :: p', y :: s' => char_eqb x y && startswith p' s'
  | _ :: _, [] => false
  end.

(** [needle in s] *)
Fixpoint contains (needle s : str) : bool :=
  startswith needle s ||
  match s with
  | [] => false
  | _ :: s' => contains needle s'
  end.

(** [s.count(needle)] for a non-empty needle: occurrences are counted from
    the left and do not overlap; [skip] is the number of characters still
    covered by the occurrence found last. *)
Fixpoint count_from (skip : nat) (needle s : str) : nat :=
  match s with
  | [] => 0%nat
  | _ :: s' =>
      match skip with
      | S n => count_from n needle s'
      | O => if startswith needle s
             then S (count_from (Nat.pred (length needle)) needle s')
             else count_from 0 needle s'
      end
  end.

Definition count (needle s : str) : nat := count_from 0 needle s.

(** [s.split(sep)] for a one-character separator *)
Fixpoint split (sep : char) (s : str) : list str :=
  match s with
  | [] => [[]]
  | c :: s' =>
      if char_eqb c sep then [] :: split sep s'
      else match split sep s' with
           | l :: ls => (c :: l) :: ls
           | [] => [[c]]
           end
  end.

(** [sep.join(ls)] for a one-character separator *)
Fixpoint join (sep : char) (ls : list str) : str :=
  match ls with
  | [] => []
  | [l] => l
  | l :: ls' => l ++ sep :: join sep ls'
  end.

(** Python's whitespace ([Py_UNICODE_ISSPACE]): what [str.strip()] strips
    and what [\s] matches in a [str] pattern. *)
Definition is_space (c : char) : bool :=
  ((9 <=? c) && (c <=? 13)) || ((28 <=? c) && (c <=? 32))
  || (c =? 133) || (c =? 160) || (c =? 5760)
  || ((8192 <=? c) && (c <=? 8202))
  || (c =? 8232) || (c =? 8233) || (c =? 8239) || (c =? 8287) || (c =? 12288).

Fixpoint lstrip (s : str) : str :=
  match s with
  | c :: s' => if is_space c then lstrip s' else s
  | [] => []
  end.

Definition rstrip (s : str) : str := rev (lstrip (rev s)).

(** [s.strip()] *)
Definition strip (s : str) : str := rstrip (lstrip s).

(** ** The regular expressions of the scripts *)

Module Re.

(** The fragment of [re] syntax that occurs in the four scripts.  A
    quantifier is only ever applied to a character class, so a quantified
    item consumes one character per iteration. *)
Inductive regex : Type :=
  | Lit (s : str)                  (* literal text; also [re.escape(s)] *)
  | Set_ (p : char -> bool)        (* one character of a class *)
  | Star (p : char -> bool)        (* greedy [p*] *)
  | Plus (p : char -> bool)        (* greedy [p+] *)
  | Bol                            (* [^] without MULTILINE *)
  | Group (n : nat) (r : regex)    (* capturing group number [n] *)
  | Seq (r1 r2 : regex).

(** Captured groups, most recent binding first. *)
Abbreviation caps := (list (nat * str)).

Fixpoint group (n : nat) (c : caps) : str :=
  match c with
  | [] => []
  | (m, s) :: c' => if Nat.eqb m n then s else group n c'
  end.

Section Matcher.
Context {A : Type}.

(** A continuation receives the text just matched, the remaining input
    and the captures; [None] makes the matcher backtrack. *)
Definition cont := str -> str -> caps -> option A.

Fixpoint lit_k (l : str) (s : str) : option str :=
  match l, s with
  | [], _ => Some s
  | x :: l', y :: s' => if char_eqb x y then lit_k l' s' else None
  | _ :: _, [] => None
  end.

(** Greedy repetition: take one more character first, give it back when
    the rest of the pattern fails. *)
Fixpoint star_k (p : char -> bool) (s : str) (c : caps) (k : cont) : option A :=
  match s with
  | x :: s' =>
      if p x then
        match star_k p s' c (fun m => k (x :: m)) with
        | Some a => Some a
        | None => k [] s c
        end
      else k [] s c
  | [] => k [] s c
  end.

(** [bol] tells whether the current position is the start of the subject. *)
Fixpoint rmatch (r : regex) (bol : bool) (s : str) (c : caps) (k : cont)
  : option A :=
  match r with
  | Lit l =>
      match lit_k l s with
      | Some s' => k l s' c
      | None => None
      end
  | Set_ p =>
      match s with
      | x :: s' => if p x then k [x] s' c else None
      | [] => None
      end
  | Star p => star_k p s c k
  | Plus p =>
      match s with
      | x :: s' => if p x then star_k p s' c (fun m => k (x :: m)) else None
      | [] => None
      end
  | Bol => if bol then k [] s c else None
  | Group n r1 => rmatch r1 bol s c (fun m s' c' => k m s' ((n, m) :: c'))
  | Seq r1 r2 =>
      rmatch r1 bol s c (fun m1 s1 c1 =>
        rmatch r2 (bol && match m1 with [] => true | _ => false end) s1 c1
          (fun m2 => k (m1 ++ m2)))
  end.
End Matcher.

(** A successful match: the matched text, the rest of the subject and the
    groups. *)
Definition match_here (r : regex) (bol : bool) (s : str)
  : option (str * str * caps) :=
  rmatch r bol s [] (fun m rest c => Some (m, rest, c)).

(** [re.search(r, s)]: the leftmost position at which [r] matches. *)
Fixpoint search_from (r : regex) (bol : bool) (s : str) : option (str * caps) :=
  match match_here r bol s with
  | Some (m, _, c) => Some (m, c)
  | None =>
      match s with
      | [] => None
      | _ :: s' => search_from r false s'
      end
  end.

Definition search (r : regex) (s : str) : option (str * caps) :=
  search_from r true s.

(** Replacement templates: literal text and group references [\n]. *)
Inductive ritem := RText (s : str) | RRef (n : nat).

Fixpoint expand (t : list ritem) (c : caps) : str :=
  match t with
  | [] => []
  | RText s :: t' => s ++ expand t' c
  | RRef n :: t' => group n c ++ expand t' c
  end.

(** [re.sub(r, t, s)]: every non-overlapping match, from the left, is
    replaced.  [skip] counts the characters still covered by the match found
    last.  After an empty match the next character is copied and the scan
    moves on. *)
Fixpoint sub_from (r : regex) (t : list ritem) (skip : nat) (bol : bool)
  (s : str) : str :=
  match skip with
  | S n =>
      match s with
      | [] => []
      | _ :: s' => sub_from r t n false s'
      end
  | O =>
      match match_here r bol s with
      | Some (m, _, c) =>
          expand t c ++
          match s with
          | [] => []
          | x :: s' =>
              match m with
              | [] => x :: sub_from r t 0 false s'
              | _ :: m' => sub_from r t (length m') false s'
              end
          end
      | None =>
          match s with
          | [] => []
          | x :: s' => x :: sub_from r t 0 false s'
          end
      end
  end.

Definition sub (r : regex) (t : list ritem) (s : str) : str :=
  sub_from r t 0 true s.

End Re.

Import Re.

(** Concatenation of the items of a pattern, as written in the source. *)
Fixpoint cat (rs : list regex) : regex :=
  match rs with
  | [] => Lit []
  | [r] => r
  | r :: rs' => Seq r (cat rs')
  end.

Definition ws : char -> bool := is_space.                          (* \s *)
(* a single or a double quote; any character but those; any but a single quote *)
Definition quote (c : char) : bool := char_eqb c SQ || char_eqb c DQ.
Definition not_quote (c : char) : bool := negb (quote c).
Definition not_sq (c : char) : bool := negb (char_eqb c SQ).
Definition not_rbrace (c : char) : bool := negb (char_eqb c 125).  (* [^}] *)
Definition comma_or_rbrace (c : char) : bool :=
  char_eqb c 44 || char_eqb c 125.                                  (* [,}] *)
Definition not_comma_rparen (c : char) : bool :=
  negb (char_eqb c 44 || char_eqb c 41).                            (* [^,)] *)

(** ** Files *)

(** [pathlib]'s view of a POSIX path: the root and the components, empty
    and [.] components dropped.  Two leading slashes are a root of their
    own. *)
Abbreviation path := (str * list str)%type.

Definition root (p : str) : str :=
  match p with
  | 47 :: 47 :: 47 :: _ => lit "/"
  | 47 :: 47 :: _ => lit "//"
  | 47 :: _ => lit "/"
  | _ => []
  end.

Definition keep_part (c : str) : bool :=
  negb (str_eqb c [] || str_eqb c (lit ".")).

Definition parts (p : str) : list str := List.filter keep_part (split 47 p).

Definition Path (p : str) : path := (root p, parts p).

Fixpoint is_prefix (a b : list str) : bool :=
  match a, b with
  | [], _ => true
  | x :: a', y :: b' => str_eqb x y && is_prefix a' b'
  | _ :: _, [] => false
  end.

(** [p.relative_to(q)]: the components of [p] below [q], or [ValueError]
    ([None]) when [q] is not an ancestor of [p]. *)
Definition relative_to (p q : path) : option (list str) :=
  if str_eqb p.1 q.1 && is_prefix q.2 p.2
  then Some (drop (length q.2) p.2)
  else None.

(** The files the scripts see: regular text files, found by the absolute
    path that a path names from the working directory [cwd] (the components
    of [os.getcwd()]).  Directories, links, [..] and I/O failures are outside
    this model. *)
Definition resolve (cwd : list str) (p : path) : path :=
  match p.1 with
  | [] => (lit "/", cwd ++ p.2)
  | _ => p
  end.

Abbreviation files := (gmap path str).

Definition exists_ (cwd : list str) (fs : files) (p : path) : bool :=
  bool_decide (is_Some (fs !! resolve cwd p)).

Definition read_text (cwd : list str) (fs : files) (p : path) : str :=
  default [] (fs !! resolve cwd p).

Definition write_text (cwd : list str) (fs : files) (p : path) (c : str)
  : files := <[resolve cwd p := c]> fs.

(** ** What a run does

    A run is observed through the files it leaves and the sequence of its
    effects: the lines it prints (one constructor of a message type per
    [print] of the source), the files it writes, the commands it starts. *)
Inductive event (msg : Type) : Type :=
  | Print (m : msg)
  | WriteText (p : path) (c : str)
  | RunLint
  | RunTests.
Arguments Print {msg} m.
Arguments WriteText {msg} p c.
Arguments RunLint {msg}.
Arguments RunTests {msg}.


(** ** scripts/aggressive-cleanup.py *)

Module AggressiveCleanup.

(** An unused item: [(line_num, symbol)]. *)
Abbreviation item := (Z * str)%type.

(** The [defaultdict(list)] of the source, in insertion order. *)
Abbreviation unused_map := (list (str * list item)).

(** [unused[k].append(v)] *)
Fixpoint dd_append (k : str) (v : item) (d : unused_map) : unused_map :=
  match d with
  | [] => [(k, [v])]
  | (k', vs) :: d' =>
      if str_eqb k k' then (k', vs ++ [v]) :: d'
      else (k', vs) :: dd_append k v d'
  end.

(** [r"'([^']+)'"] *)
Definition quoted_symbol : regex :=
  cat [Lit (lit "'"); Group 1 (Plus not_sq); Lit (lit "'")].

Section Lint.
(** The Unicode decimal-digit table ([Py_UNICODE_TODECIMAL]): the value of
    a character that [\d] matches, [None] for any other character. *)
Variable to_decimal : char -> option N.

Definition digit (c : char) : bool := bool_decide (is_Some (to_decimal c)).

(** [int(s)] on a run of decimal digits.  Integers are unbounded: the limit
    recent interpreters put on the length of a decimal text given to [int]
    is outside this model. *)
Definition int (s : str) : Z :=
  fold_left (fun acc c => (acc * 10 + Z.of_N (default 0%N (to_decimal c)))%Z)
            s 0%Z.

(** [r'^\s*(\d+):'] *)
Definition line_number : regex :=
  cat [Bol; Star ws; Group 1 (Plus digit); Lit (lit ":")].

(** The truth value of [current_file]: [None] and the empty string are
    false. *)
Definition truthy (f : option str) : bool :=
  match f with
  | Some (_ :: _) => true
  | _ => false
  end.

(** One turn of the loop over the lines of the lint output. *)
Definition scan_line (st : unused_map * option str) (line : str)
  : unused_map * option str :=
  let '(unused, current_file) := st in
  if startswith (lit "/Users") (strip line) then
    (unused, Some (strip line))
  else if contains (lit "'") line
          && contains (lit "is defined but never used") line then
    match search quoted_symbol line with
    | Some (_, c) =>
        if truthy current_file then
          let symbol := group 1 c in
          match search line_number line with
          | Some (_, c') =>
              let line_num := int (group 1 c') in
              (dd_append (default [] current_file) (line_num, symbol) unused,
               current_file)
          | None => st
          end
        else st
    | None => st
    end
  else st.

Definition scan (lines : list str) (st : unused_map * option str)
  : unused_map * option str :=
  fold_left scan_line lines st.

(** [get_unused_items], from the text the lint command prints
    ([result.stdout + result.stderr]). *)
Definition get_unused_items (output : str) : unused_map :=
  (scan (split NL output) ([], None)).1.
End Lint.

(** The four patterns of [remove_from_import], [S] standing for
    [re.escape(symbol)]:
    [\{\s*S\s*\}],  [,\s*S\s*[,}]],  [\{\s*S\s*,]  and the empty import
    [import\s+\{\s*\}\s+from\s+Q[^Q]+Q;\s*\n] with [Q] a single or double
    quote. *)
Definition sym_in_braces (symbol : str) : regex :=
  cat [Lit (lit "{"); Star ws; Lit symbol; Star ws; Lit (lit "}")].
Definition sym_after_comma (symbol : str) : regex :=
  cat [Lit (lit ","); Star ws; Lit symbol; Star ws; Set_ comma_or_rbrace].
Definition sym_after_brace (symbol : str) : regex :=
  cat [Lit (lit "{"); Star ws; Lit symbol; Star ws; Lit (lit ",")].
Definition empty_import : regex :=
  cat [Lit (lit "import"); Plus ws; Lit (lit "{"); Star ws; Lit (lit "}");
       Plus ws; Lit (lit "from"); Plus ws; Set_ quote; Plus not_quote;
       Set_ quote; Lit (lit ";"); Star ws; Lit [NL]].

Definition remove_from_import (content symbol : str) : str :=
  let content := sub (sym_in_braces symbol) [RText (lit "{}")] content in
  let content := sub (sym_after_comma symbol) [RText (lit ",")] content in
  let content := sub (sym_after_brace symbol) [RText (lit "{")] content in
  let content := sub empty_import [] content in
  content.

(** [lines[i]] for a Python index: negative indices count from the end;
    [None] is [IndexError]. *)
Definition py_index (len : nat) (i : Z) : option nat :=
  if (0 <=? i)%Z then
    if (i <? Z.of_nat len)%Z then Some (Z.to_nat i) else None
  else
    if (0 <=? i + Z.of_nat len)%Z then Some (Z.to_nat (i + Z.of_nat len))
    else None.

(** The three patterns of [remove_parameter], [P] standing for
    [re.escape(param)]:  [,\s*P\s*:],  [\(\s*P\s*:]  and  [:\s*[^,)]+,\s*]. *)
Definition param_after_comma (param : str) : regex :=
  cat [Lit (lit ","); Star ws; Lit param; Star ws; Lit (lit ":")].
Definition param_after_paren (param : str) : regex :=
  cat [Lit (lit "("); Star ws; Lit param; Star ws; Lit (lit ":")].
Definition type_annotation : regex :=
  cat [Lit (lit ":"); Star ws; Plus not_comma_rparen; Lit (lit ","); Star ws].

Definition strip_param (param line : str) : str :=
  let line := sub (param_after_comma param) [RText (lit ",")] line in
  let line := sub (param_after_paren param) [RText (lit "(")] line in
  let line := sub type_annotation [RText (lit ": ")] line in
  line.

(** [remove_parameter]; [None] stands for an [IndexError]. *)
Definition remove_parameter (content param : str) (line_num : Z)
  : option str :=
  let lines := split NL content in
  if (line_num <=? Z.of_nat (length lines))%Z then
    match py_index (length lines) (line_num - 1) with
    | Some i =>
        let line := default [] (lines !! i) in
        let line := strip_param param line in
        Some (join NL (<[i := line]> lines))
    | None => None
    end
  else Some content.

Inductive message :=
  | Banner
  | NoUnused
  | FileHeader (rel : list str)
  | Delete (symbol : str) (line_num : Z)
  | Saved
  | Total (n : nat)
  | RunningTests
  | TestsPassing
  | TestsFailed.

Inductive exn := ValueError | IndexError.

(** The state [main] works on; an exception leaves it as it is. *)
Record state := State {
  fs : files;
  out : list (event message);
  total_removed : nat
}.

Definition M (A : Type) : Type := state -> state * (exn + A).

Definition ret {A} (a : A) : M A := fun s => (s, inr a).
Definition bind {A B} (m : M A) (k : A -> M B) : M B :=
  fun s =>
    match m s with
    | (s', inr a) => k a s'
    | (s', inl e) => (s', inl e)
    end.
Definition raise {A} (e : exn) : M A := fun s => (s, inl e).

Notation "x <- m ;; k" := (bind m (fun x => k))
  (at level 100, m at next level, right associativity).
Notation "m ;; k" := (bind m (fun _ => k))
  (at level 100, right associativity).

Definition emit (e : event message) : M unit :=
  fun s => (State (fs s) (out s ++ [e]) (total_removed s), inr tt).
Definition get_fs : M files := fun s => (s, inr (fs s)).
Definition put_fs (f : files) : M unit :=
  fun s => (State f (out s) (total_removed s), inr tt).
Definition count_removed : M unit :=
  fun s => (State (fs s) (out s) (S (total_removed s)), inr tt).
Definition get_total : M nat := fun s => (s, inr (total_removed s)).
Definition lift {A} (e : exn) (o : option A) : M A :=
  match o with
  | Some a => ret a
  | None => raise e
  end.

Fixpoint for_each {A} (l : list A) (body : A -> M unit) : M unit :=
  match l with
  | [] => ret tt
  | x :: l' => body x ;; for_each l' body
  end.

Fixpoint fold_m {A B} (l : list A) (b : B) (body : B -> A -> M B) : M B :=
  match l with
  | [] => ret b
  | x :: l' => b' <- body b x ;; fold_m l' b' body
  end.

(** Order of the tuples [(line_num, symbol)]: by line number, then by
    symbol, code point by code point. *)
Fixpoint str_ltb (a b : str) : bool :=
  match a, b with
  | _, [] => false
  | [], _ :: _ => true
  | x :: a', y :: b' => (x <? y) || ((x =? y) && str_ltb a' b')
  end.

Definition item_ltb (a b : item) : bool :=
  (a.1 <? b.1)%Z || ((a.1 =? b.1)%Z && str_ltb a.2 b.2).

Fixpoint insert_desc (x : item) (l : list item) : list item :=
  match l with
  | [] => [x]
  | y :: l' => if item_ltb y x then x :: l else y :: insert_desc x l'
  end.

(** [sorted(items, reverse=True)] *)
Definition sorted_reverse (items : list item) : list item :=
  fold_left (fun acc x => insert_desc x acc) items [].

Definition keywords : list str := [lit "function"; lit "async"; lit "=>"].

(** The body of the loop over the items of one file. *)
Definition delete_item (content : str) (it : item) : M str :=
  let '(line_num, symbol) := it in
  emit (Print (Delete symbol line_num)) ;;
  let content := remove_from_import content symbol in
  content <-
    (if existsb (fun keyword => contains keyword content) keywords
     then lift IndexError (remove_parameter content symbol line_num)
     else ret content) ;;
  count_removed ;;
  ret content.

(** The body of the loop over the files. *)
Definition clean_file (cwd : list str) (entry : str * list item) : M unit :=
  let '(filepath, items) := entry in
  let path := Path filepath in
  f <- get_fs ;;
  if negb (exists_ cwd f path) then ret tt
  else
    rel <- lift ValueError (relative_to path (lit "/", cwd)) ;;
    emit (Print (FileHeader rel)) ;;
    let content := read_text cwd f path in
    let original := content in
    content <- fold_m (sorted_reverse items) content delete_item ;;
    if negb (str_eqb content original) then
      put_fs (write_text cwd f path content) ;;
      emit (WriteText (resolve cwd path) content) ;;
      emit (Print Saved)
    else ret tt.

Section Main.
Variable to_decimal : char -> option N.
(** The working directory of the process, what the lint command prints
    and whether the test command exits with code 0. *)
Variable cwd : list str.
Variable lint_output : str.
Variable tests_pass : bool.

Definition main : M unit :=
  emit (Print Banner) ;;
  emit RunLint ;;
  let unused := get_unused_items to_decimal lint_output in
  match unused with
  | [] => emit (Print NoUnused)
  | _ :: _ =>
      for_each unused (clean_file cwd) ;;
      n <- get_total ;;
      emit (Print (Total n)) ;;
      emit (Print RunningTests) ;;
      emit RunTests ;;
      emit (Print (if tests_pass then TestsPassing else TestsFailed))
  end.

Definition run (f : files) : state * (exn + unit) := main (State f [] 0).
End Main.
End AggressiveCleanup.

(** ** scripts/fix-unused-imports.py *)

Module FixUnusedImports.

Definition files_to_fix : list str := [
  lit "src/workflows/steps/ContextStep.ts";
  lit "src/workflows/steps/GitOperationStep.ts";
  lit "src/workflows/steps/MilestoneStatusCheckStep.ts";
  lit "src/workflows/steps/PersonaRequestStep.ts";
  lit "src/workflows/steps/PlanEvaluationStep.ts";
  lit "src/workflows/steps/PlanningLoopStep.ts";
  lit "src/workflows/steps/PlanningStep.ts";
  lit "src/workflows/steps/PullTaskStep.ts";
  lit "src/workflows/steps/QAStep.ts";
  lit "src/workflows/steps/ReviewFailureTasksStep.ts";
  lit "src/workflows/steps/SimpleTaskStatusStep.ts";
  lit "src/workflows/steps/TaskUpdateStep.ts";
  lit "src/workflows/steps/VariableResolutionStep.ts"
].

Inductive message :=
  | Skipping (filepath : str)
  | Fixed (filepath : str)
  | NoChange (filepath : str)
  | Done.

(** The pattern of the script: group 1 is the import list up to the
    symbol, group 2 the rest of the statement up to the closing quote of the
    module path [../engine/WorkflowStep.js]. *)
Definition import_pattern : regex :=
  cat [Group 1 (cat [Lit (lit "import"); Plus ws; Lit (lit "{");
                     Star not_rbrace]);
       Lit (lit ", WorkflowStepConfig");
       Group 2 (cat [Star not_rbrace; Lit (lit "}"); Plus ws;
                     Lit (lit "from"); Plus ws; Set_ quote;
                     Lit (lit "../engine/WorkflowStep.js"); Set_ quote])].

(** [re.sub(pattern, r'\1\2', content)] *)
Definition fix_content (content : str) : str :=
  sub import_pattern [RRef 1; RRef 2] content.

(** The body of the loop over [files_to_fix]. *)
Definition fix_file (cwd : list str)
  (st : files * list (event message)) (filepath : str)
  : files * list (event message) :=
  let '(f, out) := st in
  let path := Path filepath in
  if negb (exists_ cwd f path) then (f, out ++ [Print (Skipping filepath)])
  else
    let content := read_text cwd f path in
    let new_content := fix_content content in
    if negb (str_eqb new_content content) then
      (write_text cwd f path new_content,
       out ++ [WriteText (resolve cwd path) new_content;
               Print (Fixed filepath)])
    else (f, out ++ [Print (NoChange filepath)]).

Definition run (cwd : list str) (f : files) : files * list (event message) :=
  let '(f', out) := fold_left (fix_file cwd) files_to_fix (f, []) in
  (f', out ++ [Print Done]).

End FixUnusedImports.

(** ** scripts/fix-workflow-coordinator-imports.py *)

Module FixWorkflowCoordinatorImports.

Definition files_to_check : list str := [
  lit "tests/blockedTaskResolution.test.ts";
  lit "tests/commitAndPush.test.ts";
  lit "tests/handleCoordinator.overrides.test.ts";
  lit "tests/happyPath.test.ts";
  lit "tests/initialPlanningAckAndEval.test.ts";
  lit "tests/processedOnce.test.ts";
  lit "tests/qaFailure.test.ts";
  lit "tests/qaFollowupExecutes.test.ts";
  lit "tests/qaPlanIterationMax.test.ts";
  lit "tests/qaPmGating.test.ts"
].

Inductive message :=
  | Skipping (filepath : str)
  | Fixed (filepath : str)
  | NoChangeNeeded (filepath : str)
  | UsedIn (filepath : str) (count : nat)
  | NotFoundIn (filepath : str)
  | Done.

Definition WorkflowCoordinator : str := lit "WorkflowCoordinator".

(** The import statement on a line of its own, up to and including the
    newline. *)
Definition import_line : regex :=
  cat [Lit (lit "import { WorkflowCoordinator } from "); Set_ quote;
       Plus not_quote; Set_ quote; Lit (lit ";"); Lit [NL]].

(** The three substitutions applied when the name occurs once. *)
Definition remove_import (content : str) : str :=
  let new_content := sub import_line [] content in
  let new_content := sub (Lit (lit ", WorkflowCoordinator")) [] new_content in
  let new_content := sub (Lit (lit "WorkflowCoordinator, ")) [] new_content in
  new_content.

(** The body of the loop over [files_to_check]. *)
Definition check_file (cwd : list str)
  (st : files * list (event message)) (filepath : str)
  : files * list (event message) :=
  let '(f, out) := st in
  let path := Path filepath in
  if negb (exists_ cwd f path) then (f, out ++ [Print (Skipping filepath)])
  else
    let content := read_text cwd f path in
    if contains WorkflowCoordinator content then
      let count := count WorkflowCoordinator content in
      if Nat.eqb count 1
         && contains (lit "import { WorkflowCoordinator }") content then
        let new_content := remove_import content in
        if negb (str_eqb new_content content) then
          (write_text cwd f path new_content,
           out ++ [WriteText (resolve cwd path) new_content;
                   Print (Fixed filepath)])
        else (f, out ++ [Print (NoChangeNeeded filepath)])
      else (f, out ++ [Print (UsedIn filepath count)])
    else (f, out ++ [Print (NotFoundIn filepath)]).

Definition run (cwd : list str) (f : files) : files * list (event message) :=
  let '(f', out) := fold_left (check_file cwd) files_to_check (f, []) in
  (f', out ++ [Print Done]).

End FixWorkflowCoordinatorImports.

(** ** refactor_dashboard.py *)

Module RefactorDashboard.

(** The lines of the literal [new_content]; the literal ends with a
    newline, hence the empty last line. *)
Definition new_content_lines : list str := [
  lit "import { cfg } from " ++ DQ :: lit "./config.js" ++ DQ :: lit ";";
  lit "import { fetch } from " ++ DQ :: lit "undici" ++ DQ :: lit ";";
  lit "import { logger } from " ++ DQ :: lit "./logger.js" ++ DQ :: lit ";";
  lit "import { ProjectAPI } from " ++ DQ :: lit "./dashboard/ProjectAPI.js" ++ DQ :: lit ";";
  lit "import { TaskAPI, CreateTaskInput, CreateTaskResult } from " ++ DQ :: lit "./dashboard/TaskAPI.js" ++ DQ :: lit ";";
  [];
  lit "// Initialize API clients";
  lit "const projectAPI = new ProjectAPI();";
  lit "const taskAPI = new TaskAPI();";
  [];
  lit "// Re-export types for backward compatibility";
  lit "export type { CreateTaskInput, CreateTaskResult };";
  [];
  lit "/**";
  lit " * Fetch context snapshot for a workflow";
  lit " */";
  lit "export async function fetchContext(workflowId: string) {";
  lit "  try {";
  lit "    // Use context-by-workflow endpoint if available in cfg.dashboardContextEndpoint (overrideable)";
  lit "    if (cfg.dashboardContextEndpoint && cfg.dashboardContextEndpoint.startsWith('http')) {";
  lit "      const url = new URL(cfg.dashboardContextEndpoint);";
  lit "      url.searchParams.set('workflow_id', workflowId);";
  lit "      url.searchParams.set('limit', '5');";
  lit "      const r = await fetch(url.toString(), {";
  lit "        headers: { " ++ DQ :: lit "Authorization" ++ DQ :: lit ": `Bearer ${cfg.dashboardApiKey}` }";
  lit "      });";
  lit "      if (!r.ok) throw new Error(`dashboard ${r.status}`);";
  lit "      const data = await r.json();";
  lit "      return data;";
  lit "    }";
  [];
  lit "    const r = await fetch(`${cfg.dashboardBaseUrl.replace(/\/$/, '')}/context/by-workflow?workflow_id=${encodeURIComponent(workflowId)}&limit=5`, {";
  lit "      headers: { " ++ DQ :: lit "Authorization" ++ DQ :: lit ": `Bearer ${cfg.dashboardApiKey}` }";
  lit "    });";
  lit "    if (!r.ok) throw new Error(`dashboard ${r.status}`);";
  lit "    const data = await r.json();";
  lit "    return data;";
  lit "  } catch {";
  lit "    return { projectTree: " ++ DQ :: [] ++ DQ :: lit ", fileHotspots: " ++ DQ :: [] ++ DQ :: lit ", limits: " ++ DQ :: [] ++ DQ :: lit ", personaHints: " ++ DQ :: [] ++ DQ :: lit " };";
  lit "  }";
  lit "}";
  [];
  lit "/**";
  lit " * Record an event to dashboard";
  lit " */";
  lit "export async function recordEvent(ev: any) {";
  lit "  try {";
  lit "    const endpoint = `${cfg.dashboardBaseUrl.replace(/\/$/, '')}/v1/events`;";
  lit "    await fetch(endpoint, {";
  lit "      method: " ++ DQ :: lit "POST" ++ DQ :: lit ",";
  lit "      headers: {";
  lit "        " ++ DQ :: lit "Authorization" ++ DQ :: lit ": `Bearer ${cfg.dashboardApiKey}`,";
  lit "        " ++ DQ :: lit "Content-Type" ++ DQ :: lit ": " ++ DQ :: lit "application/json" ++ DQ :: [];
  lit "      },";
  lit "      body: JSON.stringify(ev)";
  lit "    });";
  lit "  } catch (e) {";
  lit "    logger.warn(" ++ DQ :: lit "dashboard event post failed" ++ DQ :: lit ", { error: e, event: ev });";
  lit "  }";
  lit "}";
  [];
  lit "// Delegate project operations to ProjectAPI";
  lit "export async function fetchProjectStatus(projectId: string | null | undefined) {";
  lit "  return projectAPI.fetchProjectStatus(projectId);";
  lit "}";
  [];
  lit "export async function fetchProjectMilestones(projectId: string | null | undefined) {";
  lit "  return projectAPI.fetchProjectMilestones(projectId);";
  lit "}";
  [];
  lit "export async function fetchProjectStatusDetails(projectId: string | null | undefined) {";
  lit "  return projectAPI.fetchProjectStatusDetails(projectId);";
  lit "}";
  [];
  lit "export async function fetchProjectStatusSummary(projectId: string | null | undefined) {";
  lit "  return projectAPI.fetchProjectStatusSummary(projectId);";
  lit "}";
  [];
  lit "export async function fetchProjectTasks(projectId: string) {";
  lit "  return projectAPI.fetchProjectTasks(projectId);";
  lit "}";
  [];
  lit "// Delegate task operations to TaskAPI";
  lit "export async function createDashboardTask(input: CreateTaskInput): Promise<CreateTaskResult | null> {";
  lit "  return taskAPI.createDashboardTask(input);";
  lit "}";
  [];
  lit "export async function fetchTask(taskId: string): Promise<any | null> {";
  lit "  return taskAPI.fetchTask(taskId);";
  lit "}";
  [];
  lit "export async function updateTaskStatus(";
  lit "  taskId: string,";
  lit "  status: string,";
  lit "  projectId?: string,";
  lit "  lockVersion?: number";
  lit "): Promise<CreateTaskResult> {";
  lit "  return taskAPI.updateTaskStatus(taskId, status, projectId, lockVersion);";
  lit "}";
  []
].

Definition new_content : str := join NL new_content_lines.

Definition target : str :=
  lit "/Users/jamescoghlan/code/multi-agent-machine-client/src/dashboard.ts".

Inductive message :=
  | Refactored
  | NewFileSize (lines : nat).

(** [open(target, 'w')] truncates or creates the file, [f.write] fills it. *)
Definition run (cwd : list str) (f : files) : files * list (event message) :=
  (write_text cwd f (Path target) new_content,
   [WriteText (resolve cwd (Path target)) new_content;
    Print Refactored;
    Print (NewFileSize (length (split NL new_content)))]).

End RefactorDashboard.

(** * Notions the properties are stated with *)

(** A character is not in a given text: by evaluation. *)
Ltac not_in_text H :=
  apply list_elem_of_In in H; vm_compute in H; intuition discriminate.

(** ** Patterns *)

Definition is_nil (m : str) : bool :=
  match m with [] => true | _ => false end.

(** The texts a pattern can match, whatever the order in which the matcher
    tries them. *)
Fixpoint lang (r : regex) (bol : bool) (m : str) : Prop :=
  match r with
  | Lit l => m = l
  | Set_ p => exists x, m = [x] /\ p x = true
  | Star p => forallb p m = true
  | Plus p => m <> [] /\ forallb p m = true
  | Bol => m = [] /\ bol = true
  | Group _ r1 => lang r1 bol m
  | Seq r1 r2 =>
      exists m1 m2, m = m1 ++ m2 /\ lang r1 bol m1 /\
                    lang r2 (bol && is_nil m1) m2
  end.

(** A pattern all of whose matches hold the text [w] leaves a subject
    without [w] as it is. *)
Definition needs (w : str) (r : regex) : Prop :=
  forall bol m, lang r bol m -> contains w m = true.



(** Patterns without groups leave the groups as they are. *)
Fixpoint no_group (r : regex) : Prop :=
  match r with
  | Group _ _ => False
  | Seq r1 r2 => no_group r1 /\ no_group r2
  | _ => True
  end.


(** ** The dead-code remover *)

(** The decimal-digit table on ASCII text: the digits 0 to 9. *)
Definition ascii_decimal (c : char) : option N :=
  if (48 <=? c) && (c <=? 57) then Some (c - 48) else None.

Module CleanupDefs.
Import AggressiveCleanup.

(** A line that names a file. *)
Definition path_line (line : str) : bool :=
  startswith (lit "/Users") (strip line).

(** The files of the result and the current file are named by path lines. *)
Definition named_by (lines : list str) (f : str) : Prop :=
  exists l, l ∈ lines /\ path_line l = true /\ f = strip l.

Definition files_named (lines : list str) (st : unused_map * option str)
  : Prop :=
  (forall f items, (f, items) ∈ st.1 -> named_by lines f) /\
  (forall f, st.2 = Some f -> named_by lines f).

Definition is_ascii (c : char) : Prop := c < 128.

(** A digit table that has the ASCII digits, and no other ASCII character. *)
Definition ascii_digits (to_decimal : char -> option N) : Prop :=
  forall c, is_ascii c -> to_decimal c = ascii_decimal c.

(** The content the loop over the items of a file arrives at: [None] when
    an index is out of range. *)
Definition edit_item (content : str) (it : item) : option str :=
  let content := remove_from_import content it.2 in
  if existsb (fun keyword => contains keyword content) keywords
  then remove_parameter content it.2 it.1
  else Some content.

Fixpoint edit_items (items : list item) (content : str) : option str :=
  match items with
  | [] => Some content
  | it :: items' =>
      match edit_item content it with
      | Some content' => edit_items items' content'
      | None => None
      end
  end.

Definition edited (original : str) (items : list item) : option str :=
  edit_items (sorted_reverse items) original.

(** The events of the loop over the items. *)
Definition delete_events (items : list item) : list (event message) :=
  map (fun it : item => Print (Delete it.2 it.1)) items.

Definition under (cwd : list str) (entry : str * list item) : Prop :=
  is_Some (relative_to (Path entry.1) (lit "/", cwd)).

Definition line_numbers_ok (entry : str * list item) : Prop :=
  Forall (fun it : item => (0 <= it.1)%Z) entry.2.
End CleanupDefs.

Module Examples.
Import AggressiveCleanup.

(** A lint report on one file, in the layout of ESLint's default
    formatter, and a source file for it. *)
Definition report_for (file : string) : str :=
  join NL [lit file;
           lit "  3:10  warning  'foo' is defined but never used  no-unused-vars";
           [];
           lit "1 problem (0 errors, 1 warning)";
           []].

Definition source_lines : list str :=
  [lit "// helpers";
   lit "import { x } from './x.js';";
   lit "import { foo, bar } from './m.js';";
   lit "export const y = (v: number) => bar(x, v);";
   []].

Definition source : str := join NL source_lines.


Definition users_a : str := lit "/Users/dev/a.ts".

(** A file system that holds the source file alone. *)
Definition one_file : files := {[Path users_a := source]}.

(** A warning that comes before any path line, and a function signature. *)
Definition early_warning : str :=
  lit "  1:1  warning  'x' is defined but never used".

Definition signature : str :=
  join NL [lit "// a"; lit "function f(x: number, foo: string) {"; lit "}"].
End Examples.

(** ** The import fixers *)

Module CoordinatorDefs.
Import FixWorkflowCoordinatorImports.




End CoordinatorDefs.

Module FixerDefs.
(** The text whose absence makes [fix-unused-imports.py] a no-op. *)
Definition removed_text : str := lit ", WorkflowStepConfig".
End FixerDefs.

Module ImportDefs.
Definition module_path : str := lit "../engine/WorkflowStep.js".

(** The statement of C4, before and after. *)
Definition import_before : str :=
  lit "import { A, WorkflowStepConfig, B } from " ++ DQ :: module_path ++ [DQ].
Definition import_after : str :=
  lit "import { A, B } from " ++ DQ :: module_path ++ [DQ].

(** The two groups of [import_pattern]. *)
Definition list_head : regex :=
  cat [Lit (lit "import"); Plus ws; Lit (lit "{"); Star not_rbrace].
Definition list_tail : regex :=
  cat [Star not_rbrace; Lit (lit "}"); Plus ws; Lit (lit "from"); Plus ws;
       Set_ quote; Lit module_path; Set_ quote].

(** What follows the closing brace in a match. *)
Definition after_brace (t : str) : Prop :=
  exists w2 w3 qa qb,
    t = w2 ++ lit "from" ++ w3 ++ qa :: module_path ++ [qb] /\
    w2 <> [] /\ forallb ws w2 = true /\
    w3 <> [] /\ forallb ws w3 = true /\
    quote qa = true /\ quote qb = true.

(** The parts of the statement. *)
Definition list_kept : str := lit "import { A".
Definition list_rest : str := lit ", B ".
Definition before_brace : str := lit "import { A, WorkflowStepConfig, B ".
Definition from_clause : str := lit " from " ++ DQ :: module_path ++ [DQ].
End ImportDefs.

Module FixerExamples.






Definition repo : list str := [lit "repo"].

(** One file of each list, in a working directory [/repo]. *)
Definition qa_step : str := lit "src/workflows/steps/QAStep.ts".
End FixerExamples.


(** ** Further notions: the lint report *)

Module LintDefs.
Import AggressiveCleanup.

(** A diagnostic in the layout of the lint report: white space, the digits
    of the line number, a colon, text without apostrophe, the symbol between
    apostrophes, the rest of the line. *)
Definition diagnostic (w ds a symbol b : str) : str :=
  w ++ ds ++ lit ":" ++ a ++ SQ :: symbol ++ SQ :: b.

(** A line that reports [symbol] at line [line_num]: no path line, with the
    phrase of the rule, the symbol between apostrophes, and at its start
    white space, the digits of [line_num] and a colon. *)
Definition reports (to_decimal : char -> option N) (line : str)
  (line_num : Z) (symbol : str) : Prop :=
  CleanupDefs.path_line line = false /\
  contains (lit "is defined but never used") line = true /\
  (exists a b, line = a ++ SQ :: symbol ++ SQ :: b) /\
  symbol <> [] /\ (SQ ∉ symbol) /\
  exists w ds rest,
    line = w ++ ds ++ lit ":" ++ rest /\
    forallb ws w = true /\ ds <> [] /\ forallb (digit to_decimal) ds = true /\
    line_num = int to_decimal ds.

(** The items of a table come from lines that report them. *)
Definition reported (to_decimal : char -> option N) (lines : list str)
  (unused : unused_map) : Prop :=
  forall f items line_num symbol,
    (f, items) ∈ unused -> (line_num, symbol) ∈ items ->
    exists line, line ∈ lines /\ reports to_decimal line line_num symbol.

(** The number of items of the files that exist. *)
Definition items_of_existing (cwd : list str) (f : files) (unused : unused_map)
  : nat :=
  list_sum (map (fun e : str * list item =>
                   if exists_ cwd f (Path e.1) then length e.2 else 0%nat)
                unused).

(** A collected file that exists and does not lie under the working
    directory. *)
Definition outside (cwd : list str) (f : files) (e : str * list item) : Prop :=
  is_Some (f !! resolve cwd (Path e.1)) /\
  relative_to (Path e.1) (lit "/", cwd) = None.
End LintDefs.

(** A condition on given texts and numbers: by evaluation. *)
Ltac evaluated :=
  first [ reflexivity | lia | discriminate
        | let H := fresh in intros H; not_in_text H ].

(** ** Further notions: patterns around a name *)

(** The shape of the patterns that look for a name: an opening character,
    white space, the name, white space, a closing item. *)
Definition bracketed (o : char) (name : str) (cl : regex) : regex :=
  cat [Lit [o]; Star ws; Lit name; Star ws; cl].

(** A closing item: it matches exactly one character, one that [p]
    accepts. *)
Record closer (cl : regex) (p : char -> bool) : Prop := {
  closer_lang : forall bol m, lang cl bol m -> exists c, m = [c] /\ p c = true;
  closer_match : forall (A : Type) bol c s caps (k : @cont A),
      p c = true -> rmatch cl bol (c :: s) caps k = k [c] s caps
}.

(** The text such a pattern matches: [o], white space [w1], the name, white
    space [w2], [c]. *)
Definition site (o c : char) (name w1 w2 : str) : str :=
  o :: w1 ++ name ++ w2 ++ [c].

(** A name as the patterns expect it: not empty, without white space and
    without the characters of [seps]. *)
Definition name_like (seps name : str) : bool :=
  negb (is_nil name) &&
  forallb (fun x => negb (ws x) && negb (existsb (char_eqb x) seps)) name.

(** A pair of braces with nothing but white space between them. *)
Fixpoint empty_braces (s : str) : bool :=
  match s with
  | [] => false
  | x :: s' =>
      (char_eqb x 123 && startswith (lit "}") (lstrip s')) || empty_braces s'
  end.

(** The text starts with white space. *)
Definition starts_blank (s : str) : bool :=
  match s with x :: _ => ws x | [] => false end.

(** An import statement with an empty list, the white space after it and the
    newline that ends it. *)
Definition empty_import_statement (q1 : char) (module : str) (q2 : char)
  (w : str) : str :=
  lit "import {} from " ++ q1 :: module ++ q2 :: lit ";" ++ w ++ [NL].

(** An import statement with one name, on a line of its own. *)
Definition import_of (symbol : str) (q1 : char) (module : str) (q2 : char)
  : str :=
  lit "import { " ++ symbol ++ lit " } from " ++ q1 :: module ++ q2
    :: lit ";" ++ [NL].

(** A type annotation followed by a comma: a colon, white space, the type,
    a comma, white space. *)
Definition annotation (wt ta w3 : str) : str :=
  lit ":" ++ wt ++ ta ++ lit "," ++ w3.

(** [t] is [s] with some occurrences of [w] left out. *)
Inductive deletes (w : str) : str -> str -> Prop :=
  | deletes_nil : deletes w [] []
  | deletes_keep x s t : deletes w s t -> deletes w (x :: s) (x :: t)
  | deletes_drop s t : deletes w s t -> deletes w (w ++ s) t.

Module MoreExamples.
Import AggressiveCleanup.

(** A declaration with a generic type, and two signatures. *)
Definition declaration : str := lit "const m: Map<string, number> = x;".
Definition signature_first : str :=
  join NL [lit "function f(foo: string, b: number) {"; lit "}"].

(** A file whose first line imports a name that is reported unused. *)
Definition arrow_file : str :=
  import_of (lit "foo") SQ (lit "./m.js") SQ
  ++ lit "const f = (a: string, b: number) => 1;" ++ [NL].
End MoreExamples.

(** * Properties *)

(** ** Strings *)

Lemma char_eqb_eq (a b : char) : char_eqb a b = true <-> a = b.
Proof. apply N.eqb_eq. Qed.

Lemma char_eqb_refl (a : char) : char_eqb a a = true.
Proof. apply N.eqb_refl. Qed.

Lemma str_eqb_eq (a b : str) : str_eqb a b = true <-> a = b.
Proof.
  revert b; induction a as [|x a IH]; intros [|y b]; simpl; try easy.
  rewrite andb_true_iff, char_eqb_eq, IH. split.
  - intros [-> ->]; reflexivity.
  - intros [= -> ->]; auto.
Qed.

Lemma str_eqb_refl (a : str) : str_eqb a a = true.
Proof. apply str_eqb_eq; reflexivity. Qed.


Lemma startswith_spec (p s : str) :
  startswith p s = true <-> exists t, s = p ++ t.
Proof.
  revert s; induction p as [|x p IH]; intros s; simpl.
  - split; eauto.
  - destruct s as [|y s].
    + split; [discriminate | intros [t [=]]].
    + rewrite andb_true_iff, char_eqb_eq, IH. split.
      * intros [-> [t ->]]; eauto.
      * intros [t [= -> ->]]; eauto.
Qed.

Lemma startswith_app (p t : str) : startswith p (p ++ t) = true.
Proof. apply startswith_spec; eauto. Qed.

Lemma contains_spec (w s : str) :
  contains w s = true <-> exists a b, s = a ++ w ++ b.
Proof.
  induction s as [|x s IH]; simpl.
  - rewrite orb_false_r, startswith_spec. split.
    + intros [t Ht]. exists [], t. exact Ht.
    + intros (a & b & H). destruct a; simpl in H; [eauto|discriminate].
  - rewrite orb_true_iff, startswith_spec, IH. split.
    + intros [[t Ht] | (a & b & ->)].
      * exists [], t. exact Ht.
      * exists (x :: a), b. reflexivity.
    + intros (a & b & H). destruct a as [|y a]; simpl in H.
      * left; eauto.
      * injection H as -> ->. right; eauto.
Qed.

Lemma contains_false_app_l (w a b : str) :
  contains w (a ++ b) = false -> contains w a = false.
Proof.
  intros H. destruct (contains w a) eqn:E; [|reflexivity].
  apply contains_spec in E as (x & y & ->).
  rewrite <- H. symmetry. apply contains_spec.
  exists x, (y ++ b). rewrite <- !app_assoc. reflexivity.
Qed.

Lemma contains_false_app_r (w a b : str) :
  contains w (a ++ b) = false -> contains w b = false.
Proof.
  intros H. destruct (contains w b) eqn:E; [|reflexivity].
  apply contains_spec in E as (x & y & ->).
  rewrite <- H. symmetry. apply contains_spec.
  exists (a ++ x), y. rewrite <- !app_assoc. reflexivity.
Qed.


(** ** Lines *)

Lemma split_cons (sep : char) (s : str) :
  exists l ls, split sep s = l :: ls.
Proof.
  induction s as [|c s (l & ls & IH)]; simpl; eauto.
  destruct (char_eqb c sep); eauto. rewrite IH; eauto.
Qed.

Lemma split_length (sep : char) (s : str) : (0 < length (split sep s))%nat.
Proof. destruct (split_cons sep s) as (l & ls & ->); simpl; lia. Qed.

Lemma join_split (sep : char) (s : str) : join sep (split sep s) = s.
Proof.
  induction s as [|c s IH]; simpl; [reflexivity|].
  destruct (char_eqb c sep) eqn:E.
  - apply char_eqb_eq in E as ->.
    destruct (split_cons sep s) as (l & ls & Hs). rewrite Hs in *.
    change (sep :: join sep (l :: ls) = sep :: s). rewrite IH. reflexivity.
  - destruct (split_cons sep s) as (l & ls & Hs). rewrite Hs in *.
    destruct ls; simpl in *; rewrite <- IH; reflexivity.
Qed.

Lemma split_no_sep (sep : char) (s : str) :
  Forall (fun l => sep ∉ l) (split sep s).
Proof.
  induction s as [|c s IH]; simpl.
  - repeat constructor. apply not_elem_of_nil.
  - destruct (char_eqb c sep) eqn:E.
    + constructor; [apply not_elem_of_nil | exact IH].
    + destruct (split_cons sep s) as (l & ls & Hs). rewrite Hs in *.
      inversion IH as [|? ? Hl Hls]; subst. constructor; [|exact Hls].
      rewrite not_elem_of_cons. split; [|exact Hl].
      intros ->. rewrite char_eqb_refl in E. discriminate.
Qed.

Lemma split_app_no_sep (sep : char) (l s : str) :
  sep ∉ l ->
  split sep (l ++ s) =
    match split sep s with
    | l' :: ls => (l ++ l') :: ls
    | [] => [l]
    end.
Proof.
  induction l as [|c l IH]; intros Hl; simpl.
  - destruct (split_cons sep s) as (l' & ls & ->). reflexivity.
  - apply not_elem_of_cons in Hl as [Hc Hl].
    destruct (char_eqb c sep) eqn:E.
    { apply char_eqb_eq in E. congruence. }
    rewrite (IH Hl). destruct (split_cons sep s) as (l' & ls & ->).
    reflexivity.
Qed.

Lemma split_sep_cons (sep : char) (s : str) :
  split sep (sep :: s) = [] :: split sep s.
Proof. simpl. rewrite char_eqb_refl. reflexivity. Qed.

Lemma split_join (sep : char) (ls : list str) :
  ls <> [] -> Forall (fun l => sep ∉ l) ls -> split sep (join sep ls) = ls.
Proof.
  induction ls as [|l ls IH]; [congruence|]. intros _ H.
  inversion H as [|? ? Hl Hls]; subst.
  destruct ls as [|l' ls].
  - change (join sep [l]) with l. rewrite <- (app_nil_r l) at 1.
    rewrite split_app_no_sep by assumption. simpl.
    rewrite app_nil_r. reflexivity.
  - change (join sep (l :: l' :: ls)) with (l ++ sep :: join sep (l' :: ls)).
    rewrite split_app_no_sep by assumption.
    rewrite split_sep_cons, IH by (congruence || assumption).
    rewrite app_nil_r. reflexivity.
Qed.

(** ** The matcher *)

Section MatcherFacts.
Context {A : Type}.
Implicit Types (k : @cont A) (s m : str) (c : caps).

Lemma lit_k_spec (l s s' : str) : lit_k l s = Some s' <-> s = l ++ s'.
Proof.
  revert s; induction l as [|x l IH]; intros s; simpl.
  - split; congruence.
  - destruct s as [|y s]; [easy|].
    destruct (char_eqb x y) eqn:E.
    + apply char_eqb_eq in E as ->. rewrite IH. split; congruence.
    + split; [discriminate|]. intros [= -> _].
      rewrite char_eqb_refl in E. discriminate.
Qed.

Lemma lit_k_app (l s : str) : lit_k l (l ++ s) = Some s.
Proof. apply lit_k_spec. reflexivity. Qed.

(** The greedy repetition finds a match whenever some split of the
    subject satisfies the continuation. *)
Lemma star_k_complete p m rest c k :
  forallb p m = true -> is_Some (k m rest c) ->
  is_Some (star_k p (m ++ rest) c k).
Proof.
  revert k; induction m as [|x m IH]; intros k Hm Hk; simpl in *.
  - destruct rest as [|y r]; simpl; [exact Hk|].
    destruct (p y); [|exact Hk].
    destruct (star_k p r c (fun m => k (y :: m))); [eauto|exact Hk].
  - apply andb_true_iff in Hm as [-> Hm].
    destruct (IH (fun m => k (x :: m)) Hm Hk) as [a ->]. eauto.
Qed.

(** What the greedy repetition returns comes from the continuation, run
    on a split of the subject whose first part lies in the class; every
    longer such split was tried before and failed. *)
Lemma star_k_spec p s c k a :
  star_k p s c k = Some a ->
  exists m rest,
    s = m ++ rest /\ forallb p m = true /\ k m rest c = Some a /\
    forall m' rest',
      s = m' ++ rest' -> forallb p m' = true ->
      (length m < length m')%nat -> k m' rest' c = None.
Proof.
  revert k; induction s as [|x s IH]; intros k; simpl.
  - intros H. exists [], []. repeat split; auto.
    intros m' rest' E _ Hlen. destruct m'; simpl in *; [lia|discriminate].
  - destruct (p x) eqn:Px.
    + destruct (star_k p s c (fun m => k (x :: m))) as [a'|] eqn:E.
      * intros [= ->]. apply IH in E as (m & rest & -> & Hm & Hk & Hmax).
        exists (x :: m), rest. simpl. rewrite Px. repeat split; auto.
        intros m' rest' E' Hm' Hlen. destruct m' as [|y m']; simpl in *; [lia|].
        injection E' as <- E'. apply andb_true_iff in Hm' as [_ Hm'].
        apply (Hmax m' rest' E' Hm'). lia.
      * intros H. exists [], (x :: s). repeat split; auto.
        intros m' rest' E' Hm' Hlen. destruct m' as [|y m']; simpl in *; [lia|].
        injection E' as <- E'. apply andb_true_iff in Hm' as [_ Hm'].
        destruct (k (x :: m') rest' c) as [b|] eqn:Hb; [|reflexivity].
        subst s.
        destruct (star_k_complete p m' rest' c (fun m => k (x :: m)) Hm')
          as [b' Hb']; [rewrite Hb; eauto|congruence].
    + intros H. exists [], (x :: s). repeat split; auto.
      intros m' rest' E' Hm' Hlen. destruct m' as [|y m']; simpl in *; [lia|].
      injection E' as <- E'. rewrite Px in Hm'. discriminate.
Qed.

Lemma rmatch_sound r bol s c k a :
  rmatch r bol s c k = Some a ->
  exists m rest c', s = m ++ rest /\ lang r bol m /\ k m rest c' = Some a.
Proof.
  revert bol s c k; induction r as [l|p|p|p| |n r IH|r1 IH1 r2 IH2];
    intros bol s c k; simpl.
  - destruct (lit_k l s) as [s'|] eqn:E; [|discriminate].
    apply lit_k_spec in E as ->. eauto 6.
  - destruct s as [|x s]; [discriminate|].
    destruct (p x) eqn:Px; [|discriminate]. intros H.
    exists [x], s, c. eauto.
  - intros H. apply star_k_spec in H as (m & rest & -> & Hm & Hk & _).
    eauto 6.
  - destruct s as [|x s]; [discriminate|].
    destruct (p x) eqn:Px; [|discriminate]. intros H.
    apply star_k_spec in H as (m & rest & -> & Hm & Hk & _).
    exists (x :: m), rest, c. simpl. rewrite Px. repeat split; auto.
  - destruct bol; [|discriminate]. intros H. exists [], s, c. auto.
  - intros H. apply IH in H as (m & rest & c' & -> & Hl & Hk). eauto 6.
  - intros H. apply IH1 in H as (m1 & s1 & c1 & -> & Hl1 & H).
    apply IH2 in H as (m2 & s2 & c2 & -> & Hl2 & H).
    exists (m1 ++ m2), s2, c2. rewrite <- app_assoc.
    repeat split; auto. exists m1, m2.
    destruct m1; auto.
Qed.

(** Conversely: when a text of the language starts the subject and the
    continuation accepts it whatever the groups, the matcher succeeds
    (on that split or on one it prefers). *)
Lemma rmatch_complete r bol m rest c k :
  lang r bol m -> (forall c', is_Some (k m rest c')) ->
  is_Some (rmatch r bol (m ++ rest) c k).
Proof.
  revert bol m rest c k; induction r as [l|p|p|p| |n r IH|r1 IH1 r2 IH2];
    intros bol m rest c k; simpl.
  - intros -> Hk. rewrite lit_k_app. apply Hk.
  - intros (x & -> & Px) Hk. simpl. rewrite Px. apply Hk.
  - intros Hm Hk. apply star_k_complete; auto.
  - intros [Hne Hm] Hk. destruct m as [|x m]; [congruence|].
    simpl in *. apply andb_true_iff in Hm as [-> Hm].
    apply (star_k_complete p m rest c (fun m => k (x :: m))); auto.
  - intros [-> ->] Hk. apply Hk.
  - intros Hl Hk. apply IH; auto.
  - intros (m1 & m2 & -> & Hl1 & Hl2) Hk. rewrite <- app_assoc.
    apply IH1; [exact Hl1|]. intros c1.
    replace (match m1 with [] => true | _ :: _ => false end)
      with (is_nil m1) by reflexivity.
    apply IH2; [exact Hl2|]. intros c2. apply Hk.
Qed.
End MatcherFacts.

Lemma match_here_sound r bol s m rest c :
  match_here r bol s = Some (m, rest, c) -> s = m ++ rest /\ lang r bol m.
Proof.
  unfold match_here. intros H.
  apply rmatch_sound in H as (m' & rest' & c' & -> & Hl & [= -> -> ->]).
  auto.
Qed.

Lemma match_here_complete r bol m rest :
  lang r bol m -> is_Some (match_here r bol (m ++ rest)).
Proof. intros H. apply rmatch_complete; eauto. Qed.

(** ** Substitution *)

Section SubFacts.
Variables (r : regex) (t : list ritem).

Lemma sub_from_nil skip bol :
  sub_from r t skip bol [] =
    match skip with
    | O => match match_here r bol [] with
           | Some (_, _, c) => expand t c
           | None => []
           end
    | S _ => []
    end.
Proof.
  destruct skip; simpl; [|reflexivity].
  destruct (match_here r bol []) as [[[m rest] c]|]; [|reflexivity].
  apply app_nil_r.
Qed.

(** No match at the current position: the character is copied. *)
Lemma sub_from_miss bol x s :
  match_here r bol (x :: s) = None ->
  sub_from r t 0 bol (x :: s) = x :: sub_from r t 0 false s.
Proof. intros H. simpl. rewrite H. reflexivity. Qed.

(** The characters of a match are passed over. *)
Lemma sub_from_skip m bol s :
  m <> [] ->
  sub_from r t (length m) bol (m ++ s) = sub_from r t 0 false s.
Proof.
  intros Hm. destruct m as [|x m]; [congruence|]. clear Hm. simpl.
  induction m as [|y m IH]; simpl; [reflexivity|exact IH].
Qed.

(** A non-empty match at the current position: its replacement, then the
    substitution of what follows the match. *)
Lemma sub_from_hit bol s m rest c :
  match_here r bol s = Some (m, rest, c) -> m <> [] ->
  sub_from r t 0 bol s = expand t c ++ sub_from r t 0 false rest.
Proof.
  intros H Hm. destruct (match_here_sound _ _ _ _ _ _ H) as [-> _].
  destruct m as [|x m]; [congruence|].
  change ((x :: m) ++ rest) with (x :: m ++ rest) in *.
  simpl sub_from. rewrite H. f_equal.
  destruct m as [|y m]; [reflexivity|].
  apply (sub_from_skip (y :: m)). congruence.
Qed.

(** A subject in which the pattern matches nowhere is left as it is. *)
Lemma sub_from_id bol s :
  (forall b a s', s = a ++ s' -> match_here r b s' = None) ->
  sub_from r t 0 bol s = s.
Proof.
  revert bol; induction s as [|x s IH]; intros bol H.
  - rewrite sub_from_nil, (H bol [] []); reflexivity.
  - rewrite sub_from_miss by (apply (H bol []); reflexivity).
    f_equal. apply IH. intros b a s' ->. apply (H b (x :: a)). reflexivity.
Qed.

(** A prefix in which no match starts is copied. *)
Lemma sub_from_prefix bol a s :
  (forall b a1 a2, a = a1 ++ a2 -> a2 <> [] ->
                   match_here r b (a2 ++ s) = None) ->
  sub_from r t 0 bol (a ++ s) =
    a ++ sub_from r t 0 (bol && is_nil a) s.
Proof.
  revert bol; induction a as [|x a IH]; intros bol H; simpl app.
  - rewrite andb_true_r. reflexivity.
  - rewrite sub_from_miss by (apply (H bol [] (x :: a)); easy).
    rewrite IH.
    + simpl. rewrite andb_false_r. destruct a; reflexivity.
    + intros b a1 a2 -> Ha2. apply (H b (x :: a1)); easy.
Qed.

(** Every character of the result is one of the subject or one of a
    replacement. *)
Lemma sub_from_elem skip bol s x :
  x ∈ sub_from r t skip bol s -> x ∈ s \/ exists c, x ∈ expand t c.
Proof.
  revert skip bol; induction s as [|y s IH]; intros skip bol.
  - rewrite sub_from_nil. destruct skip; [|intros H; inversion H].
    destruct (match_here r bol []) as [[[m rest] c]|]; eauto.
  - destruct skip as [|n]; simpl.
    + destruct (match_here r bol (y :: s)) as [[[m rest] c]|].
      * rewrite elem_of_app. intros [H|H]; [eauto|].
        destruct m as [|z m].
        -- apply elem_of_cons in H as [->|H]; [left; left|].
           apply IH in H as [H|H]; auto. left. right. exact H.
        -- apply IH in H as [H|H]; auto. left. right. exact H.
      * intros H. apply elem_of_cons in H as [->|H]; [left; left|].
        apply IH in H as [H|H]; auto. left. right. exact H.
    + intros H. apply IH in H as [H|H]; auto. left. right. exact H.
Qed.
End SubFacts.

Lemma sub_elem r t s x :
  x ∈ sub r t s -> x ∈ s \/ exists c, x ∈ expand t c.
Proof. apply sub_from_elem. Qed.

Lemma needs_no_match w r b s :
  needs w r -> contains w s = false -> match_here r b s = None.
Proof.
  intros Hn Hs. destruct (match_here r b s) as [[[m rest] c]|] eqn:E;
    [|reflexivity].
  apply match_here_sound in E as [-> Hl]. apply Hn in Hl.
  apply contains_false_app_l in Hs. congruence.
Qed.

Lemma sub_needs w r t s :
  needs w r -> contains w s = false -> sub r t s = s.
Proof.
  intros Hn Hs. apply sub_from_id. intros b a s' ->.
  apply (needs_no_match w); [exact Hn|].
  eapply contains_false_app_r; exact Hs.
Qed.

Section Agreement.
Context {A : Type} (P : char -> Prop).
Implicit Types (k : @cont A) (s m : str) (c : caps).



End Agreement.






(** ** Occurrences across a boundary *)



(** A separator that is not in [w] keeps the occurrences of [w] on one
    side. *)
Lemma contains_sep (w a b : str) (x : char) :
  x ∉ w -> contains w a = false -> contains w b = false ->
  contains w (a ++ x :: b) = false.
Proof.
  intros Hx Ha Hb. destruct (contains w (a ++ x :: b)) eqn:E; [|reflexivity].
  exfalso. apply contains_spec in E as (u & v & E).
  apply app_eq_app in E as [l [[Ea E]|[Eu E]]].
  - apply app_eq_app in E as [l2 [[Ew E]|[El E]]].
    + destruct l2 as [|y l2]; simpl in E.
      * rewrite app_nil_r in Ew. subst l a.
        assert (contains w (u ++ w) = true)
          by (apply contains_spec; exists u, []; rewrite app_nil_r; reflexivity).
        congruence.
      * injection E as <- _. apply Hx. rewrite Ew.
        apply elem_of_app. right. left.
    + subst l a.
      assert (contains w (u ++ w ++ l2) = true)
        by (apply contains_spec; eauto).
      congruence.
  - destruct l as [|y l]; simpl in E.
    + destruct w as [|y w]; simpl in E.
      * destruct a; discriminate.
      * injection E as <- _. apply Hx. left.
    + injection E as _ ->.
      assert (contains w (l ++ w ++ v) = true) by (apply contains_spec; eauto).
      congruence.
Qed.

(** ** Counting *)







(** ** Greedy repetition that succeeds at once *)

Lemma star_k_greedy {A} p (m rest : str) c (k : @cont A) a :
  forallb p m = true ->
  match rest with [] => True | x :: _ => p x = false end ->
  k m rest c = Some a ->
  star_k p (m ++ rest) c k = Some a.
Proof.
  revert k. induction m as [|x m IH]; intros k Hm Hr Hk; simpl in *.
  - destruct rest as [|y r]; simpl; [exact Hk|]. rewrite Hr. exact Hk.
  - apply andb_true_iff in Hm as [-> Hm].
    rewrite (IH (fun m => k (x :: m))); auto.
Qed.

Section CleanupFacts.
Import AggressiveCleanup.

(** ** remove_parameter *)

Lemma strip_param_no_newline (param line : str) :
  NL ∉ line -> NL ∉ strip_param param line.
Proof.
  intros Hl H. unfold strip_param in H.
  apply sub_elem in H as [H|[c H]]; [|not_in_text H].
  apply sub_elem in H as [H|[c H]]; [|not_in_text H].
  apply sub_elem in H as [H|[c H]]; [auto|not_in_text H].
Qed.

Lemma py_index_line (len : nat) (n : Z) :
  (1 <= n <= Z.of_nat len)%Z ->
  py_index len (n - 1) = Some (Z.to_nat (n - 1)).
Proof.
  intros H. unfold py_index.
  destruct (Z.leb_spec 0 (n - 1)); [|lia].
  destruct (Z.ltb_spec (n - 1) (Z.of_nat len)); [reflexivity|lia].
Qed.

(** C8: [remove_parameter] rewrites one line only. *)
Theorem remove_parameter_one_line (content param : str) (line_num : Z) :
  (1 <= line_num <= Z.of_nat (length (split NL content)))%Z ->
  exists content',
    remove_parameter content param line_num = Some content' /\
    length (split NL content') = length (split NL content) /\
    forall j : nat,
      j <> Z.to_nat (line_num - 1) ->
      split NL content' !! j = split NL content !! j.
Proof.
  intros H. unfold remove_parameter. cbv zeta.
  destruct (Z.leb_spec line_num (Z.of_nat (length (split NL content))));
    [|lia].
  rewrite py_index_line by exact H.
  set (i := Z.to_nat (line_num - 1)). set (lines := split NL content).
  assert (Hi : (i < length lines)%nat) by (subst i lines; lia).
  destruct (lines !! i) as [line|] eqn:Hline;
    [|apply lookup_ge_None in Hline; lia].
  simpl default. eexists. split; [reflexivity|].
  assert (Hs : split NL (join NL (<[i:=strip_param param line]> lines))
               = <[i:=strip_param param line]> lines).
  { apply split_join.
    - intros E. apply (f_equal length) in E.
      rewrite length_insert in E. simpl in E. lia.
    - apply Forall_insert; [apply split_no_sep|].
      apply strip_param_no_newline.
      pose proof (split_no_sep NL content) as F.
      rewrite Forall_lookup in F. apply (F i line Hline). }
  rewrite Hs. split; [apply length_insert|].
  intros j Hj. apply list_lookup_insert_ne. congruence.
Qed.

(** C9: beyond the last line nothing is indexed and nothing changes. *)
Theorem remove_parameter_past_end (content param : str) (line_num : Z) :
  (Z.of_nat (length (split NL content)) < line_num)%Z ->
  remove_parameter content param line_num = Some content.
Proof.
  intros H. unfold remove_parameter.
  destruct (Z.leb_spec line_num (Z.of_nat (length (split NL content))));
    [lia|reflexivity].
Qed.
End CleanupFacts.

Section LintFacts.
Import AggressiveCleanup CleanupDefs.
Variable to_decimal : char -> option N.

Lemma dd_append_keys k v d f items :
  (f, items) ∈ dd_append k v d -> f = k \/ exists items', (f, items') ∈ d.
Proof.
  induction d as [|[k' vs] d IH]; simpl.
  - intros H. apply list_elem_of_singleton in H as [= -> _]. auto.
  - destruct (str_eqb k k') eqn:E.
    + apply str_eqb_eq in E as ->. intros H.
      apply elem_of_cons in H as [[= -> _]|H]; [auto|].
      right. exists items. right. exact H.
    + intros H. apply elem_of_cons in H as [[= -> ->]|H].
      * right. exists vs. left.
      * apply IH in H as [->|[items' H]]; [auto|].
        right. exists items'. right. exact H.
Qed.

(** Without a current file a line that names none changes nothing. *)
Lemma scan_line_no_file unused line :
  path_line line = false ->
  scan_line to_decimal (unused, None) line = (unused, None).
Proof.
  unfold scan_line, path_line. intros ->.
  destruct (_ && _); [|reflexivity].
  destruct (search quoted_symbol line) as [[m c]|]; reflexivity.
Qed.

Lemma scan_no_file unused lines :
  Forall (fun l => path_line l = false) lines ->
  scan to_decimal lines (unused, None) = (unused, None).
Proof.
  unfold scan. induction 1 as [|l ls Hl _ IH]; cbn [fold_left];
    [reflexivity|].
  rewrite scan_line_no_file by exact Hl. exact IH.
Qed.

Lemma scan_line_named lines st line :
  line ∈ lines -> files_named lines st ->
  files_named lines (scan_line to_decimal st line).
Proof.
  intros Hin [Hu Hc]. destruct st as [unused current_file].
  unfold scan_line. fold (path_line line).
  destruct (path_line line) eqn:Hp.
  { split; [exact Hu|]. simpl. intros f [= <-]. exists line. auto. }
  destruct (_ && _); [|split; assumption].
  destruct (search quoted_symbol line) as [[m c]|]; [|split; assumption].
  destruct (truthy current_file) eqn:Ht; [|split; assumption].
  destruct (search (line_number to_decimal) line) as [[m' c']|];
    [|split; assumption].
  split; [|exact Hc]. simpl. intros f items H.
  apply dd_append_keys in H as [->|[items' H]]; [|eauto].
  destruct current_file as [g|]; [|discriminate]. simpl. auto.
Qed.

Lemma scan_named lines ls st :
  ls ⊆ lines -> files_named lines st ->
  files_named lines (scan to_decimal ls st).
Proof.
  unfold scan. revert st. induction ls as [|l ls IH]; intros st Hs Hst;
    cbn [fold_left].
  - exact Hst.
  - apply IH; [set_solver|]. apply scan_line_named; [set_solver|exact Hst].
Qed.

(** C10: the lines before the first path line contribute nothing, and every
    file of the result is named by a path line that follows them. *)
Theorem get_unused_items_needs_path_line (output : str) (pre rest : list str) :
  split NL output = pre ++ rest ->
  Forall (fun l => path_line l = false) pre ->
  get_unused_items to_decimal output = (scan to_decimal rest ([], None)).1 /\
  forall f items,
    (f, items) ∈ get_unused_items to_decimal output ->
    exists l, l ∈ rest /\ path_line l = true /\ f = strip l.
Proof.
  intros Hsplit Hpre. unfold get_unused_items. rewrite Hsplit.
  assert (E : scan to_decimal (pre ++ rest) ([], None)
              = scan to_decimal rest ([], None)).
  { unfold scan. rewrite fold_left_app.
    fold (scan to_decimal pre ([], None)). rewrite scan_no_file by exact Hpre.
    reflexivity. }
  rewrite E. split; [reflexivity|].
  apply (scan_named rest rest ([], None)); [set_solver|].
  split; simpl; [intros f items H; inversion H|discriminate].
Qed.
End LintFacts.

Section MainFacts.
Import AggressiveCleanup CleanupDefs.

Lemma remove_parameter_total content param line_num :
  (0 <= line_num)%Z -> is_Some (remove_parameter content param line_num).
Proof.
  intros H. unfold remove_parameter. cbv zeta.
  pose proof (split_length NL content) as Hlen.
  destruct (Z.leb_spec line_num (Z.of_nat (length (split NL content))));
    [|eauto].
  unfold py_index.
  destruct (Z.leb_spec 0 (line_num - 1)).
  - destruct (Z.ltb_spec (line_num - 1) (Z.of_nat (length (split NL content))));
      [eauto|lia].
  - destruct (Z.leb_spec 0 (line_num - 1 + Z.of_nat (length (split NL content))));
      [eauto|lia].
Qed.

Lemma edit_items_total items content :
  Forall (fun it : item => (0 <= it.1)%Z) items ->
  is_Some (edit_items items content).
Proof.
  intros H. revert content. induction H as [|it items Hit _ IH]; intros content;
    simpl; [eauto|].
  unfold edit_item.
  destruct (existsb _ keywords).
  - destruct (remove_parameter_total (remove_from_import content it.2) it.2 it.1 Hit)
      as [c ->]. apply IH.
  - apply IH.
Qed.

Lemma insert_desc_elem x y l : y ∈ insert_desc x l <-> y = x \/ y ∈ l.
Proof.
  induction l as [|z l IH]; simpl.
  - rewrite list_elem_of_singleton, elem_of_nil. tauto.
  - destruct (item_ltb z x); [apply elem_of_cons|].
    rewrite !elem_of_cons, IH. tauto.
Qed.

Lemma sorted_reverse_elem items y : y ∈ sorted_reverse items <-> y ∈ items.
Proof.
  unfold sorted_reverse.
  assert (G : forall acc, y ∈ fold_left (fun acc x => insert_desc x acc) items acc
                          <-> y ∈ items \/ y ∈ acc).
  { induction items as [|x items IH]; intros acc; simpl.
    - rewrite elem_of_nil. tauto.
    - rewrite IH, insert_desc_elem, elem_of_cons. tauto. }
  rewrite G, elem_of_nil. tauto.
Qed.

Lemma edited_total original items :
  Forall (fun it : item => (0 <= it.1)%Z) items ->
  is_Some (edited original items).
Proof.
  intros H. apply edit_items_total. rewrite Forall_forall in *.
  intros it Hit. apply H. apply sorted_reverse_elem. exact Hit.
Qed.

(** One item, with its effects. *)
Lemma delete_item_run content it s :
  delete_item content it s =
    match edit_item content it with
    | Some content' =>
        (State (fs s) (out s ++ [Print (Delete it.2 it.1)])
               (S (total_removed s)), inr content')
    | None =>
        (State (fs s) (out s ++ [Print (Delete it.2 it.1)])
               (total_removed s), inl IndexError)
    end.
Proof.
  destruct it as [line_num symbol]. unfold delete_item, edit_item. simpl.
  unfold bind, emit. simpl.
  destruct (_ || _); [|reflexivity].
  destruct (remove_parameter _ symbol line_num); reflexivity.
Qed.

(** The loop over the items, with its effects. *)
Lemma fold_delete_item items content content' s :
  edit_items items content = Some content' ->
  fold_m items content delete_item s =
    (State (fs s) (out s ++ delete_events items)
           (total_removed s + length items), inr content').
Proof.
  revert content s. induction items as [|it items IH]; intros content s.
  - simpl. intros [= ->]. destruct s. unfold ret. simpl.
    rewrite app_nil_r, Nat.add_0_r. reflexivity.
  - cbn [fold_m edit_items]. unfold bind. rewrite delete_item_run.
    destruct (edit_item content it) as [c|]; [|discriminate].
    intros H. rewrite (IH _ _ H). simpl.
    rewrite <- app_assoc. simpl. do 2 f_equal. lia.
Qed.
End MainFacts.


Section LintTable.
Import AggressiveCleanup CleanupDefs.

Variable to_decimal : char -> option N.

Lemma int_nonneg (s : str) : (0 <= int to_decimal s)%Z.
Proof.
  unfold int.
  assert (G : forall acc, (0 <= acc)%Z ->
    (0 <= fold_left (fun acc c =>
            (acc * 10 + Z.of_N (default 0%N (to_decimal c)))%Z) s acc)%Z).
  { induction s as [|c s IH]; intros acc Hacc; simpl; [exact Hacc|].
    apply IH. lia. }
  apply G. lia.
Qed.

Lemma dd_append_line_numbers k v d :
  (0 <= v.1)%Z -> Forall line_numbers_ok d ->
  Forall line_numbers_ok (dd_append k v d).
Proof.
  intros Hv. induction 1 as [|[k' vs] d Hvs Hd IH]; simpl.
  - repeat constructor. exact Hv.
  - destruct (str_eqb k k'); constructor; auto.
    unfold line_numbers_ok in *. simpl in *.
    apply Forall_app. split; [exact Hvs|]. repeat constructor. exact Hv.
Qed.

Lemma scan_line_line_numbers st line :
  Forall line_numbers_ok st.1 ->
  Forall line_numbers_ok (scan_line to_decimal st line).1.
Proof.
  destruct st as [unused current_file]. intros H. unfold scan_line.
  destruct (startswith _ _); [exact H|].
  destruct (_ && _); [|exact H].
  destruct (search quoted_symbol line) as [[m c]|]; [|exact H].
  destruct (truthy current_file); [|exact H].
  destruct (search (line_number to_decimal) line) as [[m' c']|]; [|exact H].
  simpl. apply dd_append_line_numbers; [apply int_nonneg|exact H].
Qed.

(** The line numbers [get_unused_items] collects are not negative. *)
Lemma get_unused_items_line_numbers output :
  Forall line_numbers_ok (get_unused_items to_decimal output).
Proof.
  unfold get_unused_items, scan.
  assert (G : forall lines st, Forall line_numbers_ok st.1 ->
    Forall line_numbers_ok (fold_left (scan_line to_decimal) lines st).1).
  { induction lines as [|l lines IH]; intros st H; cbn [fold_left]; [exact H|].
    apply IH, scan_line_line_numbers, H. }
  apply G. constructor.
Qed.

Hypothesis table : ascii_digits to_decimal.

Lemma digit_ascii c : is_ascii c -> digit to_decimal c = digit ascii_decimal c.
Proof. intros H. unfold digit. rewrite (table c H). reflexivity. Qed.

Lemma int_ascii s : Forall is_ascii s -> int to_decimal s = int ascii_decimal s.
Proof.
  intros H. unfold int. generalize 0%Z.
  induction H as [|c s Hc Hs IH]; intros acc; simpl; [reflexivity|].
  rewrite (table c Hc). apply IH.
Qed.


End LintTable.

Section MainRun.
Import AggressiveCleanup CleanupDefs.
Variable cwd : list str.

Lemma exists_true (f : files) p c :
  f !! resolve cwd p = Some c -> exists_ cwd f p = true.
Proof. intros H. unfold exists_. rewrite H. apply bool_decide_eq_true. eauto. Qed.

Lemma exists_false (f : files) p :
  f !! resolve cwd p = None -> exists_ cwd f p = false.
Proof.
  intros H. unfold exists_. rewrite H. apply bool_decide_eq_false.
  intros [x Hx]. discriminate.
Qed.

(** A file that does not exist is passed over. *)
Lemma clean_file_missing filepath items s :
  fs s !! resolve cwd (Path filepath) = None ->
  clean_file cwd (filepath, items) s = (s, inr tt).
Proof.
  intros H. unfold clean_file, bind, get_fs.
  rewrite (exists_false _ _ H). reflexivity.
Qed.

(** A file outside the working directory stops the run. *)
Lemma clean_file_outside filepath items s original :
  fs s !! resolve cwd (Path filepath) = Some original ->
  relative_to (Path filepath) (lit "/", cwd) = None ->
  clean_file cwd (filepath, items) s = (s, inl ValueError).
Proof.
  intros H Hr. unfold clean_file, bind, get_fs.
  rewrite (exists_true _ _ _ H). simpl negb. cbv iota.
  rewrite Hr. reflexivity.
Qed.

(** A file under the working directory is edited, and written when the
    edits changed it. *)
Lemma clean_file_run filepath items s original rel content :
  fs s !! resolve cwd (Path filepath) = Some original ->
  relative_to (Path filepath) (lit "/", cwd) = Some rel ->
  edited original items = Some content ->
  clean_file cwd (filepath, items) s =
    (State
       (if str_eqb content original then fs s
        else <[resolve cwd (Path filepath) := content]> (fs s))
       (out s ++ Print (FileHeader rel) :: delete_events (sorted_reverse items)
          ++ (if str_eqb content original then []
              else [WriteText (resolve cwd (Path filepath)) content;
                    Print Saved]))
       (total_removed s + length (sorted_reverse items)),
     inr tt).
Proof.
  intros H Hr He.
  unfold clean_file, bind, get_fs, lift, ret, emit, put_fs, read_text,
    write_text.
  rewrite (exists_true _ _ _ H), Hr, H. cbn [negb default].
  rewrite (fold_delete_item _ _ _ _ He). cbv beta iota zeta.
  change (id original) with original.
  destruct (str_eqb content original); cbn [negb fs out total_removed].
  - rewrite <- app_assoc. simpl. rewrite app_nil_r. reflexivity.
  - rewrite <- !app_assoc. reflexivity.
Qed.

(** With every named file under the working directory the loop over the
    files comes to its end. *)
Lemma for_each_clean_returns (unused : unused_map) s :
  Forall (under cwd) unused -> Forall line_numbers_ok unused ->
  exists s', for_each unused (clean_file cwd) s = (s', inr tt).
Proof.
  intros Hu. revert s. induction Hu as [|[filepath items] unused Hf _ IH];
    intros s Hl; cbn [for_each].
  - unfold ret. eauto.
  - inversion Hl as [|? ? Hit Hl']; subst. unfold bind.
    destruct (fs s !! resolve cwd (Path filepath)) as [original|] eqn:E.
    + destruct Hf as [rel Hrel].
      destruct (edited_total original items Hit) as [content Hc].
      rewrite (clean_file_run _ _ _ _ _ _ E Hrel Hc). apply IH, Hl'.
    + rewrite (clean_file_missing _ _ _ E). apply IH, Hl'.
Qed.
End MainRun.

Section MainTheorems.
Import AggressiveCleanup CleanupDefs Examples.


Lemma ascii_decimal_digits : ascii_digits ascii_decimal.
Proof. intros c _. reflexivity. Qed.






End MainTheorems.

Section CoordinatorFacts.
Import FixWorkflowCoordinatorImports CoordinatorDefs.

Variables (q1 q2 : char) (module : str).
Hypothesis Hq1 : quote q1 = true.
Hypothesis Hq2 : quote q2 = true.
Hypothesis Hmodule : module <> [].
Hypothesis Hpath : forallb not_quote module = true.





Lemma quote_cases q : quote q = true -> q = SQ \/ q = DQ.
Proof.
  unfold quote. intros H. apply orb_true_iff in H as [H|H];
    apply char_eqb_eq in H; auto.
Qed.


Variables (pre post : str).
Hypothesis Hpre : contains WorkflowCoordinator pre = false.
Hypothesis Hmod : contains WorkflowCoordinator module = false.
Hypothesis Hpost : contains WorkflowCoordinator post = false.
Hypothesis Hline : pre = [] \/ exists pre', pre = pre' ++ [NL].














End CoordinatorFacts.

Section FixerRuns.
Import FixerDefs CoordinatorDefs.
Variable cwd : list str.

(** The body of the loop of [fix-unused-imports.py] on a file that exists. *)
Lemma fix_file_run (f : files) out filepath content :
  f !! resolve cwd (Path filepath) = Some content ->
  FixUnusedImports.fix_file cwd (f, out) filepath =
    let new_content := FixUnusedImports.fix_content content in
    if str_eqb new_content content
    then (f, out ++ [Print (FixUnusedImports.NoChange filepath)])
    else (<[resolve cwd (Path filepath) := new_content]> f,
          out ++ [WriteText (resolve cwd (Path filepath)) new_content;
                  Print (FixUnusedImports.Fixed filepath)]).
Proof.
  intros H. unfold FixUnusedImports.fix_file.
  rewrite (exists_true _ _ _ _ H). unfold read_text, write_text. rewrite H.
  cbn [negb default]. change (id content) with content. cbv zeta.
  destruct (str_eqb _ content); reflexivity.
Qed.


Lemma import_pattern_needs : needs removed_text FixUnusedImports.import_pattern.
Proof.
  intros bol m H. simpl in H.
  destruct H as (m1 & m2 & -> & _ & m3 & m4 & -> & -> & _).
  apply contains_spec. eauto.
Qed.


End FixerRuns.

Section FixerTheorems.
Import FixerDefs CoordinatorDefs CleanupDefs FixerExamples.
Import FixWorkflowCoordinatorImports.

(** C2: whatever the files were, the target holds the constant afterwards,
    and the constant is ASCII text (one byte per character). *)
Theorem dashboard_holds_constant (cwd : list str) (f : files) :
  (RefactorDashboard.run cwd f).1
    !! resolve cwd (Path RefactorDashboard.target)
  = Some RefactorDashboard.new_content /\
  (RefactorDashboard.run cwd f).1
  = <[resolve cwd (Path RefactorDashboard.target)
        := RefactorDashboard.new_content]> f /\
  forallb (fun c => c <? 128) RefactorDashboard.new_content = true.
Proof.
  split; [apply lookup_insert_eq|]. split; [reflexivity|].
  vm_compute. reflexivity.
Qed.



End FixerTheorems.

Section FixerTheorems2.
Import FixerDefs CoordinatorDefs CleanupDefs FixerExamples Examples.
Import FixWorkflowCoordinatorImports.






End FixerTheorems2.

Lemma rmatch_sound_no_group {A} r bol s c (k : @cont A) a :
  no_group r -> rmatch r bol s c k = Some a ->
  exists m rest, s = m ++ rest /\ lang r bol m /\ k m rest c = Some a.
Proof.
  revert bol s c k; induction r as [l|p|p|p| |n r IH|r1 IH1 r2 IH2];
    intros bol s c k Hg; simpl in *.
  - destruct (lit_k l s) as [s'|] eqn:E; [|discriminate].
    apply lit_k_spec in E as ->. eauto 6.
  - destruct s as [|x s]; [discriminate|].
    destruct (p x) eqn:Px; [|discriminate]. intros H.
    exists [x], s. eauto.
  - intros H. apply star_k_spec in H as (m & rest & -> & Hm & Hk & _).
    eauto 6.
  - destruct s as [|x s]; [discriminate|].
    destruct (p x) eqn:Px; [|discriminate]. intros H.
    apply star_k_spec in H as (m & rest & -> & Hm & Hk & _).
    exists (x :: m), rest. simpl. rewrite Px. repeat split; auto.
  - destruct bol; [|discriminate]. intros H. exists [], s. auto.
  - contradiction.
  - destruct Hg as [Hg1 Hg2]. intros H.
    apply IH1 in H as (m1 & s1 & -> & Hl1 & H); [|exact Hg1].
    apply IH2 in H as (m2 & s2 & -> & Hl2 & H); [|exact Hg2].
    exists (m1 ++ m2), s2. rewrite <- app_assoc.
    repeat split; auto. exists m1, m2. destruct m1; auto.
Qed.

Section ImportPattern.
Import FixerDefs ImportDefs FixUnusedImports.

Lemma import_pattern_groups :
  import_pattern =
    Seq (Group 1 list_head) (Seq (Lit removed_text) (Group 2 list_tail)).
Proof. reflexivity. Qed.

Lemma forallb_notin (b : char) (s : str) :
  forallb (fun c => negb (char_eqb c b)) s = true <-> (b ∉ s).
Proof.
  induction s as [|x s IH]; simpl.
  - split; [intros _; apply not_elem_of_nil|reflexivity].
  - rewrite andb_true_iff, IH, not_elem_of_cons, negb_true_iff.
    unfold char_eqb. rewrite N.eqb_neq. intuition congruence.
Qed.

Lemma forallb_class_notin (p : char -> bool) (b : char) (s : str) :
  forallb p s = true -> p b = false -> b ∉ s.
Proof.
  intros H Hb Hin. apply list_elem_of_In in Hin.
  rewrite forallb_forall in H. rewrite (H b Hin) in Hb. discriminate.
Qed.

Lemma list_tail_inv b g2 :
  lang list_tail b g2 ->
  exists y t, g2 = y ++ 125 :: t /\ (125 ∉ y) /\ after_brace t.
Proof.
  simpl. intros (y & m2 & -> & Hy & m3 & m4 & -> & -> & w2 & m5 & -> & [Hw2 Fw2]
                 & m6 & m7 & -> & -> & w3 & m8 & -> & [Hw3 Fw3]
                 & m9 & m10 & -> & (qa & -> & Hqa) & m11 & m12 & -> & ->
                 & (qb & -> & Hqb)).
  exists y. eexists. split; [reflexivity|]. split.
  - apply forallb_notin. exact Hy.
  - exists w2, w3, qa, qb. repeat split; auto.
Qed.

Lemma list_tail_lang b :
  lang list_tail b (lit ", B " ++ 125 :: lit " from " ++ DQ :: module_path ++ [DQ]).
Proof.
  simpl. exists (lit ", B "). eexists. split; [reflexivity|].
  split; [reflexivity|]. exists (lit "}"). eexists. split; [reflexivity|].
  split; [reflexivity|]. exists (lit " "). eexists. split; [reflexivity|].
  split; [split; [discriminate|reflexivity]|].
  exists (lit "from"). eexists. split; [reflexivity|].
  split; [reflexivity|]. exists (lit " "). eexists. split; [reflexivity|].
  split; [split; [discriminate|reflexivity]|].
  exists [DQ]. eexists. split; [reflexivity|].
  split; [exists DQ; split; reflexivity|].
  exists module_path. eexists. split; [reflexivity|].
  split; [reflexivity|]. exists DQ. split; reflexivity.
Qed.

(** What a match of [import_pattern] looks like, and which one the matcher
    prefers: the first group is the longest that lets the rest match. *)
Lemma import_pattern_spec bol s m rest c :
  match_here import_pattern bol s = Some (m, rest, c) ->
  exists h x g2,
    (125 ∉ h) /\ (125 ∉ x) /\ (exists b, lang list_tail b g2) /\
    s = h ++ x ++ removed_text ++ g2 ++ rest /\
    m = h ++ x ++ removed_text ++ g2 /\
    c = [(2%nat, g2); (1%nat, h ++ x)] /\
    forall d t,
      d <> [] -> (125 ∉ d) ->
      removed_text ++ g2 ++ rest = d ++ removed_text ++ t ->
      ~ (forall b, exists g2' rest', t = g2' ++ rest' /\ lang list_tail b g2').
Proof.
  unfold match_here. rewrite import_pattern_groups.
  cbn [rmatch]. unfold list_head at 1. cbn [cat rmatch].
  destruct (lit_k (lit "import") s) as [s1|] eqn:E1; [|discriminate].
  apply lit_k_spec in E1 as ->.
  destruct s1 as [|w0 s1]; [discriminate|].
  destruct (ws w0) eqn:Hw0; [|discriminate].
  intros H. apply star_k_spec in H as (w & s2 & -> & Hw & H & _).
  destruct (lit_k (lit "{") s2) as [s3|] eqn:E3; [|discriminate].
  apply lit_k_spec in E3 as ->.
  apply star_k_spec in H as (x & s4 & -> & Hx & H & Hmax).
  destruct (lit_k removed_text s4) as [s5|] eqn:E5; [|discriminate].
  apply lit_k_spec in E5 as ->.
  apply rmatch_sound_no_group in H as (g2 & rest' & -> & Hg2 & H);
    [|repeat split].
  apply (inj Some) in H. apply pair_equal_spec in H as [H <-].
  apply pair_equal_spec in H as [<- <-].
  exists (lit "import" ++ w0 :: w ++ lit "{"), x, g2.
  split; [|split; [|split; [|split; [|split; [|split]]]]].
  - rewrite !not_elem_of_app, not_elem_of_cons, not_elem_of_app.
    repeat split.
    + apply (forallb_class_notin not_rbrace); reflexivity.
    + intros <-. discriminate.
    + apply (forallb_class_notin ws); [exact Hw|reflexivity].
    + apply (forallb_class_notin not_rbrace); reflexivity.
  - apply (forallb_class_notin not_rbrace); [exact Hx|reflexivity].
  - eauto.
  - repeat (rewrite <- app_assoc || rewrite <- app_comm_cons). reflexivity.
  - repeat (rewrite <- app_assoc || rewrite <- app_comm_cons). reflexivity.
  - repeat (rewrite <- app_assoc || rewrite <- app_comm_cons). reflexivity.
  - intros d t Hd Hnd E Hall.
    specialize (Hmax (x ++ d) (removed_text ++ t)).
    rewrite lit_k_app in Hmax.
    match type of Hmax with
    | _ -> _ -> _ -> rmatch _ ?b _ ?c ?k = None =>
        destruct (Hall b) as (g2' & rest'' & -> & Hl);
        destruct (rmatch_complete list_tail b g2' rest'' c k Hl) as [r Hr];
        [intros c'; cbv beta; eauto|]
    end.
    rewrite Hmax in Hr; [discriminate| | |].
    + rewrite E, <- app_assoc. reflexivity.
    + rewrite forallb_app, Hx. apply forallb_notin in Hnd. exact Hnd.
    + rewrite length_app. destruct d; [congruence|]. simpl. lia.
Qed.
End ImportPattern.

(** ** Two views of one text *)

(** The first [x] of a text is where both views put it, or the view
    [u1 ++ x :: v1] has an earlier [x] inside [u1]. *)
Lemma split_at_first (x : char) (u1 v1 u2 v2 : str) :
  x ∉ u2 -> u1 ++ x :: v1 = u2 ++ x :: v2 ->
  (u1 = u2 /\ v1 = v2) \/ exists z, u1 = u2 ++ x :: z /\ v2 = z ++ x :: v1.
Proof.
  intros Hx E. apply app_eq_app in E as [l [[E1 E2]|[E1 E2]]].
  - destruct l as [|y l]; simpl in E2.
    + left. rewrite app_nil_r in E1. split; congruence.
    + right. exists l. split; congruence.
  - destruct l as [|y l]; simpl in E2.
    + left. rewrite app_nil_r in E1. split; congruence.
    + exfalso. apply Hx. rewrite E1. apply elem_of_app. right.
      replace y with x by congruence. left.
Qed.

Lemma prefix_without (x : char) (t r z w : str) :
  x ∉ t -> t ++ r = z ++ x :: w -> exists z', z = t ++ z'.
Proof.
  intros Hx E. apply app_eq_app in E as [l [[E1 E2]|[E1 E2]]]; [|eauto].
  destruct l as [|y l]; simpl in E2.
  - exists []. rewrite app_nil_r in *. congruence.
  - exfalso. apply Hx. rewrite E1. apply elem_of_app. right.
    replace y with x by congruence. left.
Qed.

Lemma cons_eq (x y : char) (l l' : str) :
  x :: l = y :: l' -> x = y /\ l = l'.
Proof. intros [= -> ->]. auto. Qed.

(** A run of whitespace before a character that is none is one space when
    the text has one space there. *)
Lemma ws_run (w t t' : str) (c : char) :
  forallb ws w = true -> w <> [] -> ws c = false ->
  w ++ t = 32 :: c :: t' -> w = [32] /\ t = c :: t'.
Proof.
  intros Hw Hne Hc E. destruct w as [|a w]; [congruence|].
  simpl in E. injection E as -> E. destruct w as [|b w]; simpl in E.
  - auto.
  - injection E as -> _. cbn [forallb] in Hw.
    apply andb_true_iff in Hw as [_ Hw].
    apply andb_true_iff in Hw as [Hw _]. congruence.
Qed.

Section ImportStatement.
Import FixerDefs ImportDefs FixUnusedImports.

Lemma import_before_eq : import_before = before_brace ++ 125 :: from_clause.
Proof. reflexivity. Qed.

Lemma before_brace_eq : before_brace = list_kept ++ removed_text ++ list_rest.
Proof. reflexivity. Qed.

Lemma import_after_eq : import_after = list_kept ++ list_rest ++ 125 :: from_clause.
Proof. reflexivity. Qed.

Lemma after_brace_no_brace t : after_brace t -> 125 ∉ t.
Proof.
  intros (w2 & w3 & qa & qb & -> & _ & Hw2 & _ & Hw3 & Hqa & Hqb).
  rewrite !not_elem_of_app, not_elem_of_cons, not_elem_of_app.
  repeat split.
  - apply (forallb_class_notin ws); [exact Hw2|reflexivity].
  - apply (forallb_class_notin not_rbrace); reflexivity.
  - apply (forallb_class_notin ws); [exact Hw3|reflexivity].
  - intros <-. discriminate.
  - apply (forallb_class_notin not_rbrace); reflexivity.
  - rewrite list_elem_of_singleton. intros <-. discriminate.
Qed.

Lemma after_brace_last t :
  after_brace t -> exists t0 qb, t = t0 ++ [qb] /\ quote qb = true.
Proof.
  intros (w2 & w3 & qa & qb & -> & _ & _ & _ & _ & _ & Hqb).
  exists (w2 ++ lit "from" ++ w3 ++ qa :: module_path), qb.
  split; [|exact Hqb].
  repeat (rewrite <- app_assoc || rewrite <- app_comm_cons). reflexivity.
Qed.

Lemma after_brace_from_clause t rest post :
  after_brace t -> t ++ rest = from_clause ++ post ->
  t = from_clause /\ rest = post.
Proof.
  intros (w2 & w3 & qa & qb & -> & Hn2 & Hw2 & Hn3 & Hw3 & Hqa & Hqb) E.
  unfold from_clause in *.
  repeat (rewrite <- app_assoc in E || rewrite <- app_comm_cons in E).
  change (lit " from " ++ DQ :: module_path ++ [DQ] ++ post)
    with (32 :: 102 :: lit "rom" ++ 32 :: DQ :: module_path ++ DQ :: post) in E.
  apply ws_run in E as [-> E]; [|assumption|assumption|reflexivity].
  change (lit "from" ++ w3 ++ qa :: module_path ++ [qb] ++ rest
          = lit "from" ++ 32 :: DQ :: module_path ++ DQ :: post) in E.
  apply app_inv_head in E.
  apply ws_run in E as [-> E]; [|assumption|assumption|reflexivity].
  apply cons_eq in E as [-> E]. apply app_inv_head in E.
  apply cons_eq in E as [-> ->]. split; reflexivity.
Qed.

(** [, WorkflowStepConfig] occurs once in the import list. *)
Lemma removed_text_once l y :
  before_brace = l ++ removed_text ++ y -> l = list_kept /\ y = list_rest.
Proof.
  intros E.
  assert (Hlen : (length l <= 14)%nat).
  { apply (f_equal length) in E. rewrite !length_app in E.
    change (length before_brace) with 34%nat in E.
    change (length removed_text) with 20%nat in E. lia. }
  assert (S : startswith removed_text (drop (length l) before_brace) = true).
  { rewrite E, drop_app_length. apply startswith_app. }
  assert (K : forallb (fun k => negb (startswith removed_text (drop k before_brace))
                                || Nat.eqb k 10) (seq 0 15) = true)
    by (vm_compute; reflexivity).
  assert (L : length l = 10%nat).
  { assert (Hin : In (length l) (seq 0 15)) by (apply in_seq; lia).
    pose proof (proj1 (forallb_forall _ _) K (length l) Hin) as K'.
    cbv beta in K'. rewrite S in K'. apply Nat.eqb_eq, K'. }
  assert (El : l = take 10 before_brace).
  { rewrite E, <- L, take_app_length. reflexivity. }
  assert (Ey : removed_text ++ y = drop 10 before_brace).
  { rewrite E at 1. rewrite <- L, drop_app_length. reflexivity. }
  split; [exact El|].
  change (drop 10 before_brace) with (removed_text ++ list_rest) in Ey.
  apply app_inv_head in Ey. exact Ey.
Qed.
End ImportStatement.

Section ImportStatement2.
Import FixerDefs ImportDefs FixUnusedImports.

(** A match that reaches into the statement ends with it, and its first
    group ends just before [, WorkflowStepConfig]. *)
Lemma match_covers_statement bol a post m rest c :
  match_here import_pattern bol (a ++ import_before ++ post)
    = Some (m, rest, c) ->
  (length m <= length a)%nat \/
  (m = a ++ import_before /\ rest = post /\
   expand [RRef 1; RRef 2] c = a ++ import_after).
Proof.
  intros H.
  apply import_pattern_spec in H
    as (h & x & g2 & Hh & Hx & [b Hg2] & Es & Em & Ec & Hmax).
  destruct (le_gt_dec (length m) (length a)) as [Hle|Hgt]; [left; exact Hle|].
  right.
  apply list_tail_inv in Hg2 as (y & t & -> & Hy & Ht).
  assert (HU : 125 ∉ (h ++ x ++ removed_text ++ y)).
  { rewrite !not_elem_of_app. repeat split; try assumption.
    apply (forallb_class_notin not_rbrace); reflexivity. }
  assert (Es' : (a ++ before_brace) ++ 125 :: (from_clause ++ post)
                = (h ++ x ++ removed_text ++ y) ++ 125 :: (t ++ rest)).
  { rewrite import_before_eq in Es.
    repeat (rewrite <- app_assoc in Es || rewrite <- app_comm_cons in Es).
    repeat (rewrite <- app_assoc || rewrite <- app_comm_cons). exact Es. }
  apply split_at_first in Es' as [[EU Et]|(z & EU & Et)]; [| |exact HU].
  - (* the closing brace of the match is the one of the statement *)
    symmetry in Et. apply after_brace_from_clause in Et as [-> ->]; [|exact Ht].
    assert (Ep : h ++ x = a ++ list_kept /\ y = list_rest).
    { rewrite (app_assoc h x) in EU.
      apply app_eq_app in EU as [l [[E1 E2]|[E1 E2]]].
      - (* the first group stops before the kept part: a longer one matches *)
        exfalso. destruct (decide (l = [])) as [->|Hl].
        + rewrite app_nil_l in E2. symmetry in E2.
          apply (removed_text_once []) in E2 as [E2 _]. discriminate.
        + apply (Hmax (l ++ list_kept)
                   (list_rest ++ 125 :: from_clause ++ post)).
          * destruct l; [congruence|discriminate].
          * assert (Ha : 125 ∉ (a ++ before_brace)).
            { replace (a ++ before_brace) with (h ++ x ++ removed_text ++ y);
                [exact HU|].
              rewrite E2, E1, <- !app_assoc. reflexivity. }
            rewrite E1 in Ha. rewrite !not_elem_of_app in Ha.
            rewrite not_elem_of_app. split; [tauto|].
            apply (forallb_class_notin not_rbrace); reflexivity.
          * rewrite <- !app_assoc. rewrite (app_assoc removed_text y), E2.
            rewrite before_brace_eq.
            repeat (rewrite <- app_assoc || rewrite <- app_comm_cons).
            reflexivity.
          * intros b'. exists (list_rest ++ 125 :: from_clause), post.
            split; [|apply list_tail_lang].
            repeat (rewrite <- app_assoc || rewrite <- app_comm_cons).
            reflexivity.
      - apply removed_text_once in E2 as [-> ->].
        split; [exact E1|reflexivity]. }
    destruct Ep as [Ep ->].
    split; [|split; [reflexivity|]].
    + rewrite Em, (app_assoc h x), Ep, import_before_eq, before_brace_eq.
      repeat (rewrite <- app_assoc || rewrite <- app_comm_cons). reflexivity.
    + rewrite Ec. cbn [expand group Nat.eqb]. rewrite Ep, import_after_eq.
      repeat (rewrite <- app_assoc || rewrite <- app_comm_cons).
      rewrite app_nil_r. reflexivity.
  - (* the closing brace of the match lies before the statement: the match
       would end on a quote inside the import list *)
    exfalso.
    destruct (prefix_without 125 t rest z _ (after_brace_no_brace t Ht) Et)
      as [z' ->].
    assert (E : a ++ before_brace = m ++ z').
    { rewrite EU, Em.
      repeat (rewrite <- app_assoc || rewrite <- app_comm_cons). reflexivity. }
    apply app_eq_app in E as [l [[E1 E2]|[E1 E2]]].
    + apply (f_equal length) in E1. rewrite length_app in E1. lia.
    + destruct (after_brace_last t Ht) as (t0 & qb & -> & Hqb).
      destruct (decide (l = [])) as [->|Hl].
      { rewrite app_nil_r in E1. rewrite E1 in Hgt. lia. }
      destruct (exists_last Hl) as (l0 & e & ->).
      assert (e = qb).
      { rewrite Em in E1.
        assert (E3 : (h ++ x ++ removed_text ++ y ++ 125 :: t0) ++ [qb]
                     = (a ++ l0) ++ [e]).
        { rewrite <- (app_assoc a l0), <- E1.
          repeat (rewrite <- app_assoc || rewrite <- app_comm_cons).
          reflexivity. }
        apply app_inj_tail in E3 as [_ E3]. congruence. }
      subst e.
      assert (Hin : qb ∈ before_brace).
      { rewrite E2. apply elem_of_app. left. apply elem_of_app. right. left. }
      apply list_elem_of_In in Hin.
      assert (K : forallb not_quote before_brace = true) by reflexivity.
      rewrite forallb_forall in K. specialize (K qb Hin).
      unfold not_quote in K. rewrite Hqb in K. discriminate.
Qed.

Lemma contains_app_r (w u s : str) :
  contains w s = true -> contains w (u ++ s) = true.
Proof.
  rewrite !contains_spec. intros (a & b & ->). exists (u ++ a), b.
  rewrite <- app_assoc. reflexivity.
Qed.

Lemma contains_app_l (w s v : str) :
  contains w s = true -> contains w (s ++ v) = true.
Proof.
  rewrite !contains_spec. intros (a & b & ->). exists a, (b ++ v).
  rewrite <- !app_assoc. reflexivity.
Qed.

Lemma sub_from_cons r t bol x s :
  sub_from r t 0 bol (x :: s) =
    match match_here r bol (x :: s) with
    | Some (m, _, c) =>
        expand t c ++
        match m with
        | [] => x :: sub_from r t 0 false s
        | _ :: m' => sub_from r t (length m') false s
        end
    | None => x :: sub_from r t 0 false s
    end.
Proof. reflexivity. Qed.

Lemma import_pattern_nonempty bol s m rest c :
  match_here import_pattern bol s = Some (m, rest, c) -> m <> [].
Proof.
  intros M ->. apply match_here_sound in M as [_ L].
  apply import_pattern_needs in L. discriminate.
Qed.

Lemma import_before_lang bol : lang import_pattern bol import_before.
Proof.
  rewrite import_pattern_groups. simpl.
  exists list_kept, (removed_text ++ list_rest ++ 125 :: from_clause).
  split; [reflexivity|]. split.
  - exists (lit "import"). eexists. split; [reflexivity|].
    split; [reflexivity|]. exists (lit " "). eexists.
    split; [reflexivity|]. split; [split; [discriminate|reflexivity]|].
    exists (lit "{"). eexists. split; [reflexivity|].
    split; reflexivity.
  - exists removed_text. eexists. split; [reflexivity|].
    split; [reflexivity|]. apply (list_tail_lang true).
Qed.

(** Wherever the scan stands before the statement, the statement comes out
    without [, WorkflowStepConfig], and the scan goes on after it. *)
Lemma sub_from_statement a skip bol post :
  (skip <= length a)%nat ->
  exists u,
    sub_from import_pattern [RRef 1; RRef 2] skip bol
      (a ++ import_before ++ post)
    = u ++ import_after
        ++ sub_from import_pattern [RRef 1; RRef 2] 0 false post.
Proof.
  revert skip bol. induction a as [|x a IH]; intros skip bol Hskip.
  - destruct skip; [|simpl in Hskip; lia]. rewrite app_nil_l.
    destruct (match_here import_pattern bol (import_before ++ post))
      as [[[m rest] c]|] eqn:M.
    + pose proof (import_pattern_nonempty _ _ _ _ _ M) as Hm.
      destruct (match_covers_statement bol [] post m rest c M)
        as [Hl|(-> & -> & E)].
      * destruct m; [congruence|simpl in Hl; lia].
      * rewrite (sub_from_hit _ _ _ _ _ _ _ M Hm), E. exists []. reflexivity.
    + destruct (match_here_complete import_pattern bol import_before post
                  (import_before_lang bol)) as [r Hr].
      congruence.
  - destruct skip as [|n].
    + change ((x :: a) ++ import_before ++ post)
        with (x :: (a ++ import_before ++ post)).
      rewrite sub_from_cons.
      destruct (match_here import_pattern bol (x :: a ++ import_before ++ post))
        as [[[m rest] c]|] eqn:M.
      * pose proof (import_pattern_nonempty _ _ _ _ _ M) as Hm.
        destruct (match_covers_statement bol (x :: a) post m rest c M)
          as [Hl|(Em & -> & E)].
        -- destruct m as [|y m]; [congruence|].
           destruct (IH (length m) false) as [u ->]; [simpl in Hl; lia|].
           exists (expand [RRef 1; RRef 2] c ++ u).
           rewrite <- app_assoc. reflexivity.
        -- rewrite Em, E. exists (x :: a).
           change ((x :: a) ++ import_before) with (x :: (a ++ import_before)).
           cbv iota. rewrite (app_assoc a import_before post).
           rewrite sub_from_skip.
           ++ rewrite <- app_assoc. reflexivity.
           ++ intros E'. apply (f_equal length) in E'.
              rewrite length_app in E'. simpl in E'. lia.
      * destruct (IH 0%nat false) as [u ->]; [lia|]. exists (x :: u).
        reflexivity.
    + apply IH. simpl in Hskip. lia.
Qed.

Lemma fix_content_statement (pre post : str) :
  exists u,
    fix_content (pre ++ import_before ++ post)
    = u ++ import_after
        ++ sub_from import_pattern [RRef 1; RRef 2] 0 false post.
Proof. apply sub_from_statement. lia. Qed.
End ImportStatement2.

Section Witnesses.
Import FixerDefs ImportDefs CleanupDefs Examples FixerExamples.
Import AggressiveCleanup.

(** C4: a file that holds the statement with [WorkflowStepConfig] between
    [A] and [B] holds, after the run, the statement with [A, B] in its
    place: no comma is left behind. *)
Theorem import_list_fixed
  (cwd : list str) (f : files) (out : list (event FixUnusedImports.message))
  (filepath pre post : str) :
  f !! resolve cwd (Path filepath) = Some (pre ++ import_before ++ post) ->
  exists u,
    (FixUnusedImports.fix_file cwd (f, out) filepath).1
      !! resolve cwd (Path filepath)
    = Some (u ++ import_after
              ++ sub_from FixUnusedImports.import_pattern [RRef 1; RRef 2]
                   0 false post).
Proof.
  intros Hf. destruct (fix_content_statement pre post) as [u Hu].
  exists u. rewrite (fix_file_run _ _ _ _ _ Hf). cbv zeta.
  destruct (str_eqb _ _) eqn:E; cbn [fst].
  - apply str_eqb_eq in E. rewrite <- Hu, E. exact Hf.
  - rewrite lookup_insert_eq, Hu. reflexivity.
Qed.

Lemma import_list_fixed_witness :
  exists u,
    (FixUnusedImports.fix_file repo
       ({[resolve repo (Path qa_step)
            := lit "// step" ++ [NL] ++ import_before ++ lit ";" ++ [NL]]}, [])
       qa_step).1
      !! resolve repo (Path qa_step)
    = Some (u ++ import_after
              ++ sub_from FixUnusedImports.import_pattern [RRef 1; RRef 2]
                   0 false (lit ";" ++ [NL])).
Proof.
  apply (import_list_fixed repo _ [] qa_step
           (lit "// step" ++ [NL]) (lit ";" ++ [NL])).
  apply lookup_singleton_eq.
Defined.

Lemma remove_parameter_one_line_witness :
  exists content',
    remove_parameter signature (lit "foo") 2 = Some content' /\
    length (split NL content') = length (split NL signature) /\
    forall j : nat,
      j <> Z.to_nat (2 - 1) ->
      split NL content' !! j = split NL signature !! j.
Proof.
  apply (remove_parameter_one_line signature (lit "foo") 2).
  vm_compute. split; discriminate.
Defined.

Lemma remove_parameter_past_end_witness :
  remove_parameter signature (lit "foo") 7 = Some signature.
Proof.
  apply (remove_parameter_past_end signature (lit "foo") 7).
  vm_compute. reflexivity.
Defined.

Lemma get_unused_items_needs_path_line_witness :
  get_unused_items ascii_decimal
    (early_warning ++ NL :: report_for "/Users/dev/a.ts")
  = (scan ascii_decimal (split NL (report_for "/Users/dev/a.ts")) ([], None)).1
  /\
  forall f items,
    (f, items) ∈ get_unused_items ascii_decimal
                   (early_warning ++ NL :: report_for "/Users/dev/a.ts") ->
    exists l, l ∈ split NL (report_for "/Users/dev/a.ts")
              /\ path_line l = true /\ f = strip l.
Proof.
  apply (get_unused_items_needs_path_line ascii_decimal
           (early_warning ++ NL :: report_for "/Users/dev/a.ts")
           [early_warning] (split NL (report_for "/Users/dev/a.ts"))).
  - vm_compute. reflexivity.
  - repeat constructor.
Defined.
End Witnesses.


(** * Further properties *)

(** ** The order in which the items of a file are taken *)

Section Order.
Import AggressiveCleanup.

Lemma str_ltb_irrefl a : str_ltb a a = false.
Proof.
  induction a as [|x a IH]; simpl; [reflexivity|].
  rewrite N.ltb_irrefl, N.eqb_refl, IH. reflexivity.
Qed.

Lemma str_ltb_trans a b c :
  str_ltb a b = true -> str_ltb b c = true -> str_ltb a c = true.
Proof.
  revert b c. induction a as [|x a IH]; intros [|y b] [|z c]; simpl;
    try discriminate; auto.
  intros H1 H2.
  apply orb_true_iff in H1 as [H1|H1]; apply orb_true_iff in H2 as [H2|H2];
    apply orb_true_iff.
  - left. apply N.ltb_lt in H1, H2. apply N.ltb_lt. lia.
  - apply andb_true_iff in H2 as [H2 _]. apply N.eqb_eq in H2 as <-. auto.
  - apply andb_true_iff in H1 as [H1 _]. apply N.eqb_eq in H1 as ->. auto.
  - apply andb_true_iff in H1 as [H1 H1']. apply andb_true_iff in H2 as [H2 H2'].
    right. apply N.eqb_eq in H1 as ->. rewrite H2. simpl. eauto.
Qed.

Lemma str_ltb_total a b :
  str_ltb a b = false -> str_ltb b a = false -> a = b.
Proof.
  revert b. induction a as [|x a IH]; intros [|y b]; simpl; try discriminate;
    auto.
  intros H1 H2.
  apply orb_false_iff in H1 as [H1 H1']. apply orb_false_iff in H2 as [H2 H2'].
  apply N.ltb_ge in H1, H2. assert (x = y) as -> by lia.
  rewrite N.eqb_refl in *. simpl in *. f_equal. auto.
Qed.

Lemma item_ltb_irrefl a : item_ltb a a = false.
Proof.
  unfold item_ltb. rewrite Z.ltb_irrefl, Z.eqb_refl, str_ltb_irrefl.
  reflexivity.
Qed.

Lemma item_ltb_trans a b c :
  item_ltb a b = true -> item_ltb b c = true -> item_ltb a c = true.
Proof.
  unfold item_ltb. intros H1 H2.
  apply orb_true_iff in H1 as [H1|H1]; apply orb_true_iff in H2 as [H2|H2];
    apply orb_true_iff.
  - left. apply Z.ltb_lt in H1, H2. apply Z.ltb_lt. lia.
  - apply andb_true_iff in H2 as [H2 _]. apply Z.eqb_eq in H2. rewrite <- H2.
    auto.
  - apply andb_true_iff in H1 as [H1 _]. apply Z.eqb_eq in H1. rewrite H1. auto.
  - apply andb_true_iff in H1 as [H1 H1']. apply andb_true_iff in H2 as [H2 H2'].
    right. apply Z.eqb_eq in H1. rewrite H1, H2. simpl.
    eapply str_ltb_trans; eassumption.
Qed.

Lemma item_ltb_total a b :
  item_ltb a b = false -> item_ltb b a = false -> a = b.
Proof.
  unfold item_ltb. destruct a as [n s], b as [n' s']. simpl. intros H1 H2.
  apply orb_false_iff in H1 as [H1 H1']. apply orb_false_iff in H2 as [H2 H2'].
  apply Z.ltb_ge in H1, H2. assert (n = n') as -> by lia.
  rewrite Z.eqb_refl in *. simpl in *. f_equal.
  apply str_ltb_total; assumption.
Qed.

(** "Not less than" is transitive. *)
Lemma item_not_ltb_trans a b c :
  item_ltb a b = false -> item_ltb b c = false -> item_ltb a c = false.
Proof.
  intros H1 H2. destruct (item_ltb a c) eqn:H3; [|reflexivity].
  destruct (item_ltb b a) eqn:H4.
  - rewrite (item_ltb_trans _ _ _ H4 H3) in H2. discriminate.
  - rewrite (item_ltb_total _ _ H1 H4) in H3. congruence.
Qed.

Lemma insert_desc_perm x l : Permutation (insert_desc x l) (x :: l).
Proof.
  induction l as [|y l IH]; simpl; [reflexivity|].
  destruct (item_ltb y x); [reflexivity|].
  rewrite IH. apply Permutation_swap.
Qed.

Lemma insert_desc_sorted x l :
  StronglySorted (fun a b => item_ltb a b = false) l ->
  StronglySorted (fun a b => item_ltb a b = false) (insert_desc x l).
Proof.
  induction 1 as [|y l Hl IH Hy]; simpl.
  - repeat constructor.
  - destruct (item_ltb y x) eqn:E.
    + constructor; [constructor; assumption|].
      assert (Hxy : item_ltb x y = false).
      { destruct (item_ltb x y) eqn:E'; [|reflexivity].
        pose proof (item_ltb_trans _ _ _ E' E) as T.
        rewrite item_ltb_irrefl in T. discriminate. }
      constructor; [exact Hxy|].
      eapply Forall_impl; [exact Hy|]. intros z Hz.
      eapply item_not_ltb_trans; eassumption.
    + constructor; [exact IH|].
      rewrite insert_desc_perm. constructor; assumption.
Qed.

Lemma StronglySorted_weaken {A} (R R' : A -> A -> Prop) (l : list A) :
  (forall a b, R a b -> R' a b) -> StronglySorted R l -> StronglySorted R' l.
Proof.
  intros H. induction 1 as [|x l _ IH Hx]; constructor; [exact IH|].
  eapply Forall_impl; [exact Hx|]. intros y. apply H.
Qed.

(** X1: [sorted(items, reverse=True)] holds the items it was given, no
    item before a greater one, so that the line numbers never go up. *)
Theorem sorted_reverse_descending (items : list item) :
  Permutation (sorted_reverse items) items /\
  StronglySorted (fun a b => item_ltb a b = false) (sorted_reverse items) /\
  StronglySorted (fun a b : item => (b.1 <= a.1)%Z) (sorted_reverse items).
Proof.
  assert (G : forall acc,
    StronglySorted (fun a b => item_ltb a b = false) acc ->
    Permutation (fold_left (fun acc x => insert_desc x acc) items acc)
                (items ++ acc) /\
    StronglySorted (fun a b => item_ltb a b = false)
      (fold_left (fun acc x => insert_desc x acc) items acc)).
  { induction items as [|x items IH]; intros acc Hacc; simpl; [auto|].
    destruct (IH (insert_desc x acc) (insert_desc_sorted x acc Hacc)) as [P S].
    split; [|exact S]. rewrite P, insert_desc_perm.
    symmetry. apply Permutation_middle. }
  destruct (G [] (SSorted_nil _)) as [P S]. fold (sorted_reverse items) in P, S.
  rewrite app_nil_r in P. split; [exact P|]. split; [exact S|].
  eapply StronglySorted_weaken; [|exact S].
  intros a b H. unfold item_ltb in H.
  apply orb_false_iff in H as [H _]. apply Z.ltb_ge in H. exact H.
Qed.
End Order.

(** ** The loop of [main] over the files *)

Section MainLoop.
Import AggressiveCleanup CleanupDefs LintDefs.
Variable cwd : list str.

Lemma exists_dom (f f' : files) p :
  dom f' = dom f -> exists_ cwd f' p = exists_ cwd f p.
Proof.
  intros H. unfold exists_. apply bool_decide_ext.
  rewrite <- !elem_of_dom, H. reflexivity.
Qed.

Lemma items_of_existing_dom (f f' : files) unused :
  dom f' = dom f ->
  items_of_existing cwd f' unused = items_of_existing cwd f unused.
Proof.
  intros H. unfold items_of_existing. f_equal. apply map_ext. intros e.
  rewrite (exists_dom _ _ _ H). reflexivity.
Qed.

Lemma sorted_reverse_length items :
  length (sorted_reverse items) = length items.
Proof.
  unfold sorted_reverse.
  assert (G : forall acc,
    length (fold_left (fun acc x => insert_desc x acc) items acc)
    = (length items + length acc)%nat).
  { induction items as [|x items IH]; intros acc; simpl; [reflexivity|].
    rewrite IH. clear IH.
    assert (L : length (insert_desc x acc) = S (length acc)).
    { induction acc as [|y acc IH]; simpl; [reflexivity|].
      destruct (item_ltb y x); simpl; [reflexivity|]. rewrite IH. reflexivity. }
    rewrite L. lia. }
  rewrite G. simpl. lia.
Qed.

(** What the loop over the files does to the state: it keeps the set of
    files, touches the named ones only, counts the items of the files that
    exist, and stops at a file outside the working directory. *)
Lemma for_each_clean_spec (unused : unused_map) s s' r :
  Forall line_numbers_ok unused ->
  for_each unused (clean_file cwd) s = (s', r) ->
  dom (fs s') = dom (fs s) /\
  (forall p, fs s' !! p <> fs s !! p ->
             exists e, e ∈ unused /\ p = resolve cwd (Path e.1)) /\
  (r = inr tt ->
   total_removed s'
   = (total_removed s + items_of_existing cwd (fs s) unused)%nat
   /\ forall e, e ∈ unused -> ~ outside cwd (fs s) e) /\
  (r <> inr tt ->
   r = inl ValueError /\ exists e, e ∈ unused /\ outside cwd (fs s) e).
Proof.
  intros Hl. revert s. induction Hl as [|[filepath items] unused Hit Hl IH];
    intros s; cbn [for_each].
  - unfold ret. intros [= <- <-]. split; [reflexivity|].
    split; [congruence|]. split; [|congruence].
    intros _. split; [|intros e He; inversion He].
    unfold items_of_existing. simpl. symmetry. apply Nat.add_0_r.
  - unfold bind.
    destruct (fs s !! resolve cwd (Path filepath)) as [original|] eqn:E.
    + destruct (relative_to (Path filepath) (lit "/", cwd)) as [rel|] eqn:Hrel.
      * destruct (edited_total original items Hit) as [content Hc].
        rewrite (clean_file_run _ _ _ _ _ _ _ E Hrel Hc).
        set (s1 := State _ _ _). intros H. apply IH in H as (D & F & T & X).
        assert (D1 : dom (fs s1) = dom (fs s)).
        { subst s1. cbn [fs]. destruct (str_eqb content original); [reflexivity|].
          apply dom_insert_lookup_L. eauto. }
        split; [congruence|]. split; [|split].
        -- intros p Hp.
           destruct (decide (p = resolve cwd (Path filepath))) as [->|Hne].
           { exists (filepath, items). split; [left|reflexivity]. }
           destruct (F p) as (e & He & ->).
           { intros Q. apply Hp. rewrite Q. subst s1. cbn [fs].
             destruct (str_eqb content original); [reflexivity|].
             apply lookup_insert_ne. congruence. }
           exists e. split; [right; exact He|reflexivity].
        -- intros Hr. destruct (T Hr) as [T1 T2]. split.
           ++ rewrite T1. subst s1. cbn [total_removed].
              rewrite (items_of_existing_dom _ _ _ D1).
              unfold items_of_existing. cbn [map list_sum fst snd].
              rewrite (exists_true _ _ _ _ E), sorted_reverse_length.
              unfold list_sum. cbn [fold_right]. lia.
           ++ intros e He [Hs Ho]. apply elem_of_cons in He as [->|He].
              ** simpl in Ho. congruence.
              ** apply (T2 e He). split; [|exact Ho].
                 apply elem_of_dom. rewrite D1. apply elem_of_dom. exact Hs.
        -- intros Hr. destruct (X Hr) as (-> & e & He & [Hs Ho]).
           split; [reflexivity|]. exists e. split; [right; exact He|].
           split; [|exact Ho].
           apply elem_of_dom. rewrite <- D1. apply elem_of_dom. exact Hs.
      * rewrite (clean_file_outside _ _ _ _ _ E Hrel). intros [= <- <-].
        split; [reflexivity|]. split; [congruence|]. split; [discriminate|].
        intros _. split; [reflexivity|]. exists (filepath, items).
        split; [left|]. split; [simpl; eauto|exact Hrel].
    + rewrite (clean_file_missing _ _ _ _ E). intros H.
      apply IH in H as (D & F & T & X). split; [exact D|]. split; [|split].
      * intros p Hp. destruct (F p Hp) as (e & He & ->).
        exists e. split; [right; exact He|reflexivity].
      * intros Hr. destruct (T Hr) as [T1 T2]. split.
        -- rewrite T1. unfold items_of_existing.
           cbn [map list_sum fst snd]. rewrite (exists_false _ _ _ E).
           unfold list_sum. cbn [fold_right]. lia.
        -- intros e He [Hs Ho]. apply elem_of_cons in He as [->|He].
           ++ simpl in Hs. rewrite E in Hs. destruct Hs; discriminate.
           ++ apply (T2 e He). split; assumption.
      * intros Hr. destruct (X Hr) as (-> & e & He & Ho).
        split; [reflexivity|]. exists e. split; [right; exact He|exact Ho].
Qed.

Variables (to_decimal : char -> option N) (lint_output : str)
  (tests_pass : bool).

(** [main] in terms of its loop. *)
Lemma run_loop (f : files) :
  run to_decimal cwd lint_output tests_pass f =
    match get_unused_items to_decimal lint_output with
    | [] => (State f [Print Banner; RunLint; Print NoUnused] 0, inr tt)
    | unused =>
        match for_each unused (clean_file cwd)
                (State f [Print Banner; RunLint] 0) with
        | (s', inr _) =>
            (State (fs s')
               (out s' ++ [Print (Total (total_removed s'));
                           Print RunningTests; RunTests;
                           Print (if tests_pass then TestsPassing
                                  else TestsFailed)])
               (total_removed s'), inr tt)
        | (s', inl e) => (s', inl e)
        end
    end.
Proof.
  unfold run, main.
  destruct (get_unused_items to_decimal lint_output) as [|e unused];
    [reflexivity|].
  unfold bind at 1, emit at 1. unfold bind at 1, emit at 1. unfold bind at 1.
  cbn [fs out total_removed app].
  destruct (for_each (e :: unused) (clean_file cwd) _) as [s' [x|[]]];
    [reflexivity|].
  unfold bind, get_total, emit. cbn [fs out total_removed].
  rewrite <- !app_assoc. reflexivity.
Qed.

Lemma run_returns (f : files) :
  Forall (under cwd) (get_unused_items to_decimal lint_output) ->
  (run to_decimal cwd lint_output tests_pass f).2 = inr tt.
Proof.
  intros Hu. rewrite run_loop.
  pose proof (get_unused_items_line_numbers to_decimal lint_output) as Hl.
  destruct (get_unused_items to_decimal lint_output) as [|e unused];
    [reflexivity|].
  destruct (for_each_clean_returns cwd (e :: unused)
              (State f [Print Banner; RunLint] 0) Hu Hl) as [s' ->].
  reflexivity.
Qed.

(** X2: whatever the outcome of [main], no file is created or deleted, and
    a file whose content differs afterwards is named by a path line of the
    lint output. *)
Theorem main_keeps_other_files (f : files) :
  let s := (run to_decimal cwd lint_output tests_pass f).1 in
  dom (fs s) = dom f /\
  forall p, fs s !! p <> f !! p ->
    exists l, l ∈ split NL lint_output /\ path_line l = true /\
              p = resolve cwd (Path (strip l)).
Proof.
  cbv zeta. rewrite run_loop.
  pose proof (get_unused_items_line_numbers to_decimal lint_output) as Hl.
  assert (Hn : forall e, e ∈ get_unused_items to_decimal lint_output ->
                         named_by (split NL lint_output) e.1).
  { intros [g items] He.
    apply (scan_named to_decimal (split NL lint_output) (split NL lint_output)
             ([], None)) in He; [exact He|set_solver|].
    split; simpl; [intros g' items' Hg; inversion Hg|discriminate]. }
  destruct (get_unused_items to_decimal lint_output) as [|e unused];
    [simpl; split; [reflexivity|congruence]|].
  destruct (for_each (e :: unused) (clean_file cwd) _) as [s' r] eqn:E.
  apply for_each_clean_spec in E as (D & F & _); [|exact Hl].
  cbn [fs] in D, F.
  assert (G : forall p, fs s' !! p <> f !! p ->
    exists l, l ∈ split NL lint_output /\ path_line l = true /\
              p = resolve cwd (Path (strip l))).
  { intros p Hp. destruct (F p Hp) as (e' & He' & ->).
    destruct (Hn e' He') as (l & Hl1 & Hl2 & ->). eauto. }
  destruct r as [x|[]]; simpl; auto.
Qed.


(** X4: when [main] returns, the total it prints is the number of items
    collected for the files that exist, whether or not an edit changed
    anything. *)
Theorem main_total_counts_items (f : files) :
  let r := run to_decimal cwd lint_output tests_pass f in
  let n := items_of_existing cwd f (get_unused_items to_decimal lint_output) in
  r.2 = inr tt ->
  total_removed r.1 = n /\
  (get_unused_items to_decimal lint_output <> [] ->
   exists evs,
     out r.1 = evs ++ [Print (Total n); Print RunningTests; RunTests;
                       Print (if tests_pass then TestsPassing
                              else TestsFailed)]).
Proof.
  cbv zeta. rewrite run_loop.
  pose proof (get_unused_items_line_numbers to_decimal lint_output) as Hl.
  destruct (get_unused_items to_decimal lint_output) as [|e unused];
    [intros _; split; [reflexivity|congruence]|].
  destruct (for_each (e :: unused) (clean_file cwd) _) as [s' r] eqn:E.
  apply for_each_clean_spec in E as (_ & _ & T & _); [|exact Hl].
  cbn [fs total_removed] in T. destruct r as [x|[]]; [discriminate|].
  intros _. destruct (T eq_refl) as [T1 _]. simpl in T1.
  cbn [fst snd total_removed out].
  split; [exact T1|]. intros _. exists (out s'). rewrite T1. reflexivity.
Qed.
End MainLoop.

Lemma main_total_counts_items_witness :
  AggressiveCleanup.total_removed
    (AggressiveCleanup.run ascii_decimal [lit "Users"]
       (Examples.report_for "/Users/dev/a.ts") false Examples.one_file).1
  = LintDefs.items_of_existing [lit "Users"] Examples.one_file
      (AggressiveCleanup.get_unused_items ascii_decimal
         (Examples.report_for "/Users/dev/a.ts")) /\
  (AggressiveCleanup.get_unused_items ascii_decimal
     (Examples.report_for "/Users/dev/a.ts") <> [] ->
   exists evs,
     AggressiveCleanup.out
       (AggressiveCleanup.run ascii_decimal [lit "Users"]
          (Examples.report_for "/Users/dev/a.ts") false Examples.one_file).1
     = evs ++ [Print (AggressiveCleanup.Total
                        (LintDefs.items_of_existing [lit "Users"]
                           Examples.one_file
                           (AggressiveCleanup.get_unused_items ascii_decimal
                              (Examples.report_for "/Users/dev/a.ts"))));
               Print AggressiveCleanup.RunningTests; RunTests;
               Print AggressiveCleanup.TestsFailed]).
Proof.
  apply (main_total_counts_items [lit "Users"] ascii_decimal
           (Examples.report_for "/Users/dev/a.ts") false Examples.one_file).
  apply run_returns. vm_compute. repeat constructor. eexists. reflexivity.
Defined.

(** ** What [get_unused_items] collects *)

Section LintShape.
Import AggressiveCleanup CleanupDefs LintDefs.
Variable to_decimal : char -> option N.

Lemma quoted_symbol_match bol s m rest c :
  match_here quoted_symbol bol s = Some (m, rest, c) ->
  exists sym,
    sym <> [] /\ forallb not_sq sym = true /\
    s = SQ :: sym ++ SQ :: rest /\ m = SQ :: sym ++ [SQ] /\ c = [(1%nat, sym)].
Proof.
  unfold match_here, quoted_symbol. cbn [cat rmatch].
  destruct (lit_k (lit "'") s) as [s1|] eqn:E1; [|discriminate].
  apply lit_k_spec in E1 as ->.
  destruct s1 as [|x s1]; [discriminate|].
  destruct (not_sq x) eqn:Hx; [|discriminate].
  intros H. apply star_k_spec in H as (m0 & rest0 & -> & Hm0 & H & _).
  cbv beta in H.
  destruct (lit_k (lit "'") rest0) as [s2|] eqn:E2; [|discriminate].
  apply lit_k_spec in E2 as ->. injection H as <- <- <-.
  exists (x :: m0). split; [discriminate|]. split; [simpl; rewrite Hx; exact Hm0|].
  split; [|split]; reflexivity.
Qed.

Lemma search_from_found r bol s m c :
  search_from r bol s = Some (m, c) ->
  exists a rest b, s = a ++ m ++ rest /\
                   match_here r b (m ++ rest) = Some (m, rest, c).
Proof.
  revert bol. induction s as [|x s IH]; intros bol; simpl.
  - destruct (match_here r bol []) as [[[m' rest'] c']|] eqn:E; [|discriminate].
    intros [= <- <-]. destruct (match_here_sound _ _ _ _ _ _ E) as [E' _].
    exists [], rest', bol. rewrite <- E'. auto.
  - destruct (match_here r bol (x :: s)) as [[[m' rest'] c']|] eqn:E.
    + intros [= <- <-]. destruct (match_here_sound _ _ _ _ _ _ E) as [E' _].
      exists [], rest', bol. rewrite <- E'. auto.
    + intros H. apply IH in H as (a & rest & b & -> & H).
      exists (x :: a), rest, b. auto.
Qed.

Lemma line_number_match bol s m rest c :
  match_here (line_number to_decimal) bol s = Some (m, rest, c) ->
  bol = true /\
  exists w ds,
    s = w ++ ds ++ lit ":" ++ rest /\ forallb ws w = true /\
    ds <> [] /\ forallb (digit to_decimal) ds = true /\ group 1 c = ds.
Proof.
  unfold match_here, line_number. cbn [cat rmatch].
  destruct bol; [|discriminate]. intros H. split; [reflexivity|].
  apply star_k_spec in H as (w & s1 & -> & Hw & H & _). cbv beta in H.
  destruct s1 as [|x s1]; [discriminate|].
  destruct (digit to_decimal x) eqn:Hx; [|discriminate].
  apply star_k_spec in H as (d & s2 & -> & Hd & H & _). cbv beta in H.
  destruct (lit_k (lit ":") s2) as [s3|] eqn:E; [|discriminate].
  apply lit_k_spec in E as ->. injection H as <- <- <-.
  exists w, (x :: d). split; [reflexivity|].
  split; [exact Hw|]. split; [discriminate|].
  split; [simpl; rewrite Hx; exact Hd|reflexivity].
Qed.

Lemma line_number_not_later s : search_from (line_number to_decimal) false s = None.
Proof. induction s as [|x s IH]; simpl; [reflexivity|exact IH]. Qed.

Lemma line_number_found s m c :
  search (line_number to_decimal) s = Some (m, c) ->
  exists w ds rest,
    s = w ++ ds ++ lit ":" ++ rest /\ forallb ws w = true /\
    ds <> [] /\ forallb (digit to_decimal) ds = true /\ group 1 c = ds.
Proof.
  unfold search. intros H.
  assert (G : exists rest, match_here (line_number to_decimal) true s
                           = Some (m, rest, c)).
  { revert H. destruct s as [|x s]; simpl.
    - discriminate.
    - destruct (match_here _ true (x :: s)) as [[[m' r'] c']|].
      + intros [= <- <-]. eauto.
      + rewrite line_number_not_later. discriminate. }
  destruct G as [rest G]. apply line_number_match in G as (_ & w & ds & G).
  exists w, ds, rest. exact G.
Qed.

Lemma dd_append_items k v d f items x :
  (f, items) ∈ dd_append k v d -> x ∈ items ->
  x = v \/ exists items', (f, items') ∈ d /\ x ∈ items'.
Proof.
  induction d as [|[k' vs] d IH]; simpl.
  - intros H Hx. apply list_elem_of_singleton in H as [= -> ->].
    apply list_elem_of_singleton in Hx. auto.
  - destruct (str_eqb k k') eqn:E.
    + intros H Hx. apply elem_of_cons in H as [[= -> ->]|H].
      * apply elem_of_app in Hx as [Hx|Hx].
        -- right. exists vs. split; [left|exact Hx].
        -- apply list_elem_of_singleton in Hx. auto.
      * right. exists items. split; [right; exact H|exact Hx].
    + intros H Hx. apply elem_of_cons in H as [[= -> ->]|H].
      * right. exists vs. split; [left|exact Hx].
      * destruct (IH H Hx) as [->|(items' & H1 & H2)]; [auto|].
        right. exists items'. split; [right; exact H1|exact H2].
Qed.

Lemma scan_line_reported lines st line :
  line ∈ lines -> reported to_decimal lines st.1 ->
  reported to_decimal lines (scan_line to_decimal st line).1.
Proof.
  intros Hin Hst. destruct st as [unused current_file]. unfold scan_line.
  fold (path_line line). destruct (path_line line) eqn:Hp; [exact Hst|].
  destruct (contains (lit "'") line
            && contains (lit "is defined but never used") line) eqn:Hc;
    [|exact Hst].
  apply andb_true_iff in Hc as [_ Hc].
  destruct (search quoted_symbol line) as [[m c]|] eqn:Hq; [|exact Hst].
  destruct (truthy current_file); [|exact Hst].
  destruct (search (line_number to_decimal) line) as [[m' c']|] eqn:Hn;
    [|exact Hst].
  cbn [fst]. intros f items n sym Hf Hi.
  destruct (dd_append_items _ _ _ _ _ _ Hf Hi) as [[= -> ->]|(items' & H1 & H2)];
    [|exact (Hst f items' n sym H1 H2)].
  exists line. split; [exact Hin|].
  apply search_from_found in Hq as (a & rest & b & Ea & Hq).
  apply quoted_symbol_match in Hq as (sym & Hs1 & Hs2 & Hs3 & -> & ->).
  apply line_number_found in Hn as (w & ds & rest' & El & Hw & Hd1 & Hd2 & ->).
  cbn [group Nat.eqb].
  split; [exact Hp|]. split; [exact Hc|].
  split; [exists a, rest; rewrite Ea; simpl; rewrite <- app_assoc; reflexivity|].
  split; [exact Hs1|]. split.
  - eapply forallb_class_notin; [exact Hs2|]. reflexivity.
  - exists w, ds, rest'. auto.
Qed.

(** X5: every item of the result comes from a line of the lint output that
    is no path line, holds the phrase of the rule and the symbol between
    apostrophes, and starts with the digits of the line number and a
    colon. *)
Theorem get_unused_items_reported
  (output f : str) (items : list item) (line_num : Z) (symbol : str) :
  (f, items) ∈ get_unused_items to_decimal output ->
  (line_num, symbol) ∈ items ->
  exists line,
    line ∈ split NL output /\ reports to_decimal line line_num symbol.
Proof.
  revert f items line_num symbol.
  change (reported to_decimal (split NL output)
            (get_unused_items to_decimal output)).
  unfold get_unused_items, scan.
  assert (G : forall ls st, ls ⊆ split NL output ->
    reported to_decimal (split NL output) st.1 ->
    reported to_decimal (split NL output)
      (fold_left (scan_line to_decimal) ls st).1).
  { induction ls as [|l ls IH]; intros st Hs Hst; cbn [fold_left];
      [exact Hst|].
    apply IH; [set_solver|]. apply scan_line_reported; [set_solver|exact Hst]. }
  apply G; [set_solver|]. intros f items n sym H. inversion H.
Qed.
End LintShape.

Lemma get_unused_items_reported_witness :
  exists line,
    line ∈ split NL (Examples.report_for "/Users/dev/a.ts") /\
    LintDefs.reports ascii_decimal line 3 (lit "foo").
Proof.
  apply (get_unused_items_reported ascii_decimal
           (Examples.report_for "/Users/dev/a.ts") Examples.users_a
           [(3%Z, lit "foo")]).
  - replace (AggressiveCleanup.get_unused_items ascii_decimal
               (Examples.report_for "/Users/dev/a.ts"))
      with [(Examples.users_a, [(3%Z, lit "foo")])]
      by (vm_compute; reflexivity).
    left.
  - left.
Defined.

Lemma search_from_skip r bol a s :
  (forall b a1 a2, a = a1 ++ a2 -> a2 <> [] -> match_here r b (a2 ++ s) = None) ->
  search_from r bol (a ++ s) = search_from r (bol && is_nil a) s.
Proof.
  revert bol. induction a as [|x a IH]; intros bol H.
  - simpl. rewrite andb_true_r. reflexivity.
  - cbn [app search_from].
    assert (H0 : match_here r bol (x :: a ++ s) = None)
      by (apply (H bol [] (x :: a)); [reflexivity|discriminate]).
    rewrite H0, IH.
    + simpl. rewrite andb_false_r. reflexivity.
    + intros b a1 a2 -> Ha2. apply (H b (x :: a1) a2); [reflexivity|exact Ha2].
Qed.

Lemma search_from_here r bol s m rest c :
  match_here r bol s = Some (m, rest, c) -> search_from r bol s = Some (m, c).
Proof. intros H. destruct s; simpl; rewrite H; reflexivity. Qed.

Lemma lstrip_ws (w s : str) :
  forallb ws w = true -> lstrip (w ++ s) = lstrip s.
Proof.
  induction w as [|x w IH]; simpl; [reflexivity|].
  intros H. apply andb_true_iff in H as [Hx Hw]. unfold ws in Hx.
  rewrite Hx. auto.
Qed.

Lemma lstrip_keeps_last (u : str) (d : char) :
  is_space d = false -> exists u', lstrip (u ++ [d]) = u' ++ [d].
Proof.
  intros Hd. induction u as [|x u IH]; simpl.
  - rewrite Hd. exists []. reflexivity.
  - destruct (is_space x); [exact IH|]. exists (x :: u). reflexivity.
Qed.

Lemma strip_head (w s : str) (d : char) :
  forallb ws w = true -> is_space d = false ->
  exists t, strip (w ++ d :: s) = d :: t.
Proof.
  intros Hw Hd. unfold strip. rewrite lstrip_ws by exact Hw.
  simpl. rewrite Hd. unfold rstrip.
  change (rev (d :: s)) with (rev s ++ [d]).
  destruct (lstrip_keeps_last (rev s) d Hd) as [u' ->].
  rewrite rev_app_distr. simpl. eauto.
Qed.

Section LintComplete.
Import AggressiveCleanup CleanupDefs LintDefs.
Variable to_decimal : char -> option N.
Hypothesis table : ascii_digits to_decimal.

Variables (w ds a sym b : str).
Hypothesis Hw : forallb ws w = true.
Hypothesis Hds : ds <> [].
Hypothesis Hdigits : forallb (digit ascii_decimal) ds = true.
Hypothesis Ha : SQ ∉ a.
Hypothesis Hsym : sym <> [].
Hypothesis Hsq : SQ ∉ sym.

Lemma ascii_digit_range c :
  digit ascii_decimal c = true -> 48 <= c <= 57.
Proof.
  unfold digit, ascii_decimal. intros H. apply bool_decide_eq_true in H.
  destruct ((48 <=? c) && (c <=? 57)) eqn:E; [|destruct H; discriminate].
  apply andb_true_iff in E as [E1 E2]. apply N.leb_le in E1, E2. lia.
Qed.

Lemma ascii_digit_table c :
  digit ascii_decimal c = true -> digit to_decimal c = true.
Proof.
  intros H. rewrite (digit_ascii to_decimal table); [exact H|].
  apply ascii_digit_range in H. unfold is_ascii. lia.
Qed.

Lemma ascii_digit_plain c :
  digit ascii_decimal c = true -> is_space c = false /\ c <> SQ /\ c <> 47.
Proof.
  intros H. apply ascii_digit_range in H. unfold SQ. split; [|lia].
  unfold is_space.
  repeat match goal with
  | |- context [?x <=? ?y] => destruct (N.leb_spec x y); try lia
  | |- context [?x =? ?y] => destruct (N.eqb_spec x y); try lia
  end; reflexivity.
Qed.

Lemma ws_not_sq x : ws x = true -> x <> SQ.
Proof. intros H ->. discriminate. Qed.

Lemma line_not_path : path_line (diagnostic w ds a sym b) = false.
Proof.
  unfold path_line, diagnostic. destruct ds as [|d ds']; [congruence|].
  simpl in Hdigits. apply andb_true_iff in Hdigits as [Hd _].
  destruct (ascii_digit_plain d Hd) as (Hs & _ & Hn).
  destruct (strip_head w (ds' ++ lit ":" ++ a ++ SQ :: sym ++ SQ :: b) d Hw Hs)
    as [t E].
  change ((d :: ds') ++ lit ":" ++ a ++ SQ :: sym ++ SQ :: b)
    with (d :: ds' ++ lit ":" ++ a ++ SQ :: sym ++ SQ :: b).
  rewrite E. change (lit "/Users") with (47 :: lit "Users"). cbn [startswith].
  replace (char_eqb 47 d) with false; [reflexivity|].
  symmetry. apply N.eqb_neq. congruence.
Qed.

Lemma line_quoted :
  search quoted_symbol (diagnostic w ds a sym b)
  = Some (SQ :: sym ++ [SQ], [(1%nat, sym)]).
Proof.
  unfold search, diagnostic.
  assert (Hpre : SQ ∉ w ++ ds ++ lit ":" ++ a).
  { rewrite !elem_of_app. intros [H|[H|[H|H]]].
    - rewrite forallb_forall in Hw. apply list_elem_of_In, Hw in H. discriminate.
    - rewrite forallb_forall in Hdigits. apply list_elem_of_In, Hdigits in H.
      apply ascii_digit_plain in H. unfold SQ in H. tauto.
    - not_in_text H.
    - auto. }
  replace (w ++ ds ++ lit ":" ++ a ++ SQ :: sym ++ SQ :: b)
    with ((w ++ ds ++ lit ":" ++ a) ++ SQ :: sym ++ SQ :: b)
    by (rewrite <- !app_assoc; reflexivity).
  rewrite search_from_skip.
  - apply search_from_here with (rest := b).
    unfold match_here, quoted_symbol. cbn [cat rmatch].
    change (lit_k (lit "'") (SQ :: sym ++ SQ :: b)) with (Some (sym ++ SQ :: b)).
    apply forallb_notin in Hsq.
    destruct sym as [|x sym']; [congruence|]. cbn [app].
    simpl in Hsq. apply andb_true_iff in Hsq as [Hx Hs'].
    unfold not_sq at 1. rewrite Hx.
    erewrite star_k_greedy; [reflexivity|exact Hs'|reflexivity|].
    cbv beta. change (lit_k (lit "'") (SQ :: b)) with (Some b). reflexivity.
  - intros bol a1 a2 E Ha2. destruct a2 as [|x a2]; [congruence|].
    assert (Hx : x <> SQ).
    { intros ->. apply Hpre. rewrite E. apply elem_of_app. right. left. }
    unfold match_here, quoted_symbol. cbn [cat rmatch app lit_k].
    change (lit "'") with [SQ]. cbn [lit_k]. unfold char_eqb.
    destruct (N.eqb_spec SQ x); [congruence|reflexivity].
Qed.

Lemma line_numbered :
  exists m, search (line_number to_decimal) (diagnostic w ds a sym b)
            = Some (m, [(1%nat, ds)]).
Proof.
  unfold search, diagnostic. exists (w ++ ds ++ lit ":").
  apply search_from_here with (rest := a ++ SQ :: sym ++ SQ :: b).
  unfold match_here, line_number. cbn [cat rmatch andb].
  destruct ds as [|d ds']; [congruence|].
  simpl in Hdigits. apply andb_true_iff in Hdigits as [Hd Hds'].
  erewrite star_k_greedy; [reflexivity|exact Hw| |].
  { cbn [app]. apply (ascii_digit_plain d Hd). }
  cbv beta. cbn [app]. rewrite (ascii_digit_table d Hd).
  erewrite star_k_greedy; [reflexivity| | |].
  - rewrite forallb_forall in *. intros c Hc. apply ascii_digit_table, Hds', Hc.
  - change (lit ":" ++ a ++ SQ :: sym ++ SQ :: b)
      with (58 :: a ++ SQ :: sym ++ SQ :: b).
    cbv beta iota. rewrite (digit_ascii to_decimal table);
      [reflexivity|unfold is_ascii; lia].
  - cbv beta.
    change (lit_k (lit ":") (lit ":" ++ a ++ SQ :: sym ++ SQ :: b))
      with (Some (a ++ SQ :: sym ++ SQ :: b)).
    cbv iota. reflexivity.
Qed.

(** A diagnostic that follows a path line adds its item to the file. *)
Lemma scan_line_reports unused f :
  f <> [] ->
  contains (lit "is defined but never used") (diagnostic w ds a sym b) = true ->
  scan_line to_decimal (unused, Some f) (diagnostic w ds a sym b)
  = (dd_append f (int ascii_decimal ds, sym) unused, Some f).
Proof.
  intros Hf Hphrase. unfold scan_line.
  fold (path_line (diagnostic w ds a sym b)).
  rewrite line_not_path, Hphrase.
  assert (Hq : contains (lit "'") (diagnostic w ds a sym b) = true).
  { apply contains_spec. exists (w ++ ds ++ lit ":" ++ a), (sym ++ SQ :: b).
    unfold diagnostic. rewrite <- !app_assoc. reflexivity. }
  rewrite Hq, line_quoted. cbn [andb].
  destruct f as [|c f']; [congruence|]. cbn [truthy].
  destruct line_numbered as [m ->]. cbn [group Nat.eqb default].
  rewrite (int_ascii to_decimal table); [reflexivity|].
  rewrite Forall_forall. intros x Hx. rewrite forallb_forall in Hdigits.
  apply list_elem_of_In, Hdigits, ascii_digit_range in Hx. unfold is_ascii. lia.
Qed.
End LintComplete.

Lemma split_app_sep (sep : char) (a b : str) :
  split sep (a ++ sep :: b) = split sep a ++ split sep b.
Proof.
  induction a as [|c a IH]; cbn [app split].
  - rewrite char_eqb_refl. reflexivity.
  - rewrite IH. destruct (char_eqb c sep); [reflexivity|].
    destruct (split_cons sep a) as (l & ls & ->). reflexivity.
Qed.

Lemma split_one (sep : char) (l : str) : sep ∉ l -> split sep l = [l].
Proof.
  intros H. rewrite <- (app_nil_r l) at 1.
  rewrite split_app_no_sep by exact H. simpl. rewrite app_nil_r. reflexivity.
Qed.

Section LintTheorems.
Import AggressiveCleanup CleanupDefs LintDefs.

Lemma dd_append_keys_iff k v d g :
  g ∈ map fst (dd_append k v d) <-> g = k \/ g ∈ map fst d.
Proof.
  induction d as [|[k' vs] d IH]; simpl.
  - rewrite list_elem_of_singleton, elem_of_nil. tauto.
  - destruct (str_eqb k k') eqn:E; simpl.
    + apply str_eqb_eq in E as ->. rewrite elem_of_cons. tauto.
    + rewrite !elem_of_cons, IH. tauto.
Qed.

Lemma dd_append_NoDup k v d :
  NoDup (map fst d) -> NoDup (map fst (dd_append k v d)).
Proof.
  induction d as [|[k' vs] d IH]; simpl.
  - intros _. apply NoDup_singleton.
  - intros H. apply NoDup_cons in H as [H1 H2].
    destruct (str_eqb k k') eqn:E; simpl.
    + apply NoDup_cons. auto.
    + apply NoDup_cons. split; [|auto].
      rewrite dd_append_keys_iff. intros [->|H]; [|auto].
      rewrite str_eqb_refl in E. discriminate.
Qed.

Lemma dd_append_nonempty k v d :
  Forall (fun e : str * list item => e.2 <> []) d ->
  Forall (fun e : str * list item => e.2 <> []) (dd_append k v d).
Proof.
  induction 1 as [|[k' vs] d Hvs Hd IH]; simpl.
  - repeat constructor. discriminate.
  - destruct (str_eqb k k'); constructor; auto.
    simpl. intros E. apply app_eq_nil in E as [_ E]. discriminate.
Qed.

Lemma scan_line_table_ok to_decimal st line :
  NoDup (map fst st.1) /\
  Forall (fun e : str * list item => e.2 <> []) st.1 ->
  NoDup (map fst (scan_line to_decimal st line).1) /\
  Forall (fun e : str * list item => e.2 <> [])
         (scan_line to_decimal st line).1.
Proof.
  destruct st as [unused current_file]. intros H. unfold scan_line.
  destruct (startswith _ _); [exact H|].
  destruct (_ && _); [|exact H].
  destruct (search quoted_symbol line) as [[m c]|]; [|exact H].
  destruct (truthy current_file); [|exact H].
  destruct (search (line_number to_decimal) line) as [[m' c']|]; [|exact H].
  destruct H as [H1 H2]. split; simpl.
  - apply dd_append_NoDup, H1.
  - apply dd_append_nonempty, H2.
Qed.

(** X6: the result holds each file once, however often its path line
    occurs, and no file without an item. *)
Theorem get_unused_items_one_entry_per_file to_decimal (output : str) :
  NoDup (map fst (get_unused_items to_decimal output)) /\
  Forall (fun e : str * list item => e.2 <> [])
         (get_unused_items to_decimal output).
Proof.
  unfold get_unused_items, scan.
  assert (G : forall lines st,
    NoDup (map fst st.1) /\
    Forall (fun e : str * list item => e.2 <> []) st.1 ->
    NoDup (map fst (fold_left (scan_line to_decimal) lines st).1) /\
    Forall (fun e : str * list item => e.2 <> [])
           (fold_left (scan_line to_decimal) lines st).1).
  { induction lines as [|l lines IH]; intros st H; cbn [fold_left]; [exact H|].
    apply IH, scan_line_table_ok, H. }
  apply (G _ ([], None)). split; constructor.
Qed.

Lemma scan_line_path to_decimal unused current_file p :
  path_line p = true ->
  scan_line to_decimal (unused, current_file) p = (unused, Some (strip p)).
Proof. unfold scan_line, path_line. intros ->. reflexivity. Qed.

(** X7: a path line followed by a diagnostic adds one item to what the
    output before them gives: the file is the stripped path line, the
    line number the value of the digits at the start of the diagnostic, the
    symbol the first text between apostrophes. *)
Theorem report_collected
  (to_decimal : char -> option N) (before p w ds a sym b : str) :
  ascii_digits to_decimal ->
  path_line p = true -> (NL ∉ p) ->
  forallb ws w = true ->
  ds <> [] -> forallb (digit ascii_decimal) ds = true ->
  (SQ ∉ a) -> sym <> [] -> (SQ ∉ sym) ->
  (NL ∉ diagnostic w ds a sym b) ->
  contains (lit "is defined but never used") (diagnostic w ds a sym b) = true ->
  get_unused_items to_decimal
    (before ++ NL :: p ++ NL :: diagnostic w ds a sym b)
  = dd_append (strip p) (int ascii_decimal ds, sym)
      (get_unused_items to_decimal before).
Proof.
  intros Ht Hp Hnl Hw Hds Hdig Ha Hsym Hsq Hline Hphrase.
  unfold get_unused_items, scan.
  rewrite split_app_sep, fold_left_app, split_app_sep, fold_left_app.
  rewrite (split_one NL p Hnl), (split_one NL _ Hline). cbn [fold_left].
  destruct (fold_left (scan_line to_decimal) (split NL before) ([], None))
    as [unused current_file].
  rewrite (scan_line_path _ _ _ _ Hp).
  assert (Hf : strip p <> []).
  { unfold path_line in Hp. intros E. rewrite E in Hp. discriminate. }
  rewrite (scan_line_reports to_decimal Ht w ds a sym b Hw Hds Hdig Ha Hsym Hsq
             unused (strip p) Hf Hphrase).
  reflexivity.
Qed.
End LintTheorems.

Lemma report_collected_witness :
  AggressiveCleanup.get_unused_items ascii_decimal
    ([] ++ NL :: lit "/Users/dev/a.ts" ++ NL
        :: LintDefs.diagnostic (lit "  ") (lit "3") (lit "10  warning  ")
             (lit "foo") (lit " is defined but never used  no-unused-vars"))
  = AggressiveCleanup.dd_append (strip (lit "/Users/dev/a.ts"))
      (AggressiveCleanup.int ascii_decimal (lit "3"), lit "foo")
      (AggressiveCleanup.get_unused_items ascii_decimal []).
Proof.
  apply (report_collected ascii_decimal [] (lit "/Users/dev/a.ts") (lit "  ")
           (lit "3") (lit "10  warning  ") (lit "foo")
           (lit " is defined but never used  no-unused-vars")).
  - exact ascii_decimal_digits.
  - vm_compute. reflexivity.
  - intros H. not_in_text H.
  - reflexivity.
  - discriminate.
  - reflexivity.
  - intros H. not_in_text H.
  - discriminate.
  - intros H. not_in_text H.
  - intros H. not_in_text H.
  - vm_compute. reflexivity.
Defined.

(** ** Patterns around a name *)

Lemma closer_lit (c0 : char) : closer (Lit [c0]) (char_eqb c0).
Proof.
  split.
  - intros bol m ->. exists c0. split; [reflexivity|apply char_eqb_refl].
  - intros A bol c s caps k H. apply char_eqb_eq in H as <-.
    cbn [rmatch lit_k]. rewrite char_eqb_refl. reflexivity.
Qed.

Lemma closer_set (p : char -> bool) : closer (Set_ p) p.
Proof.
  split.
  - intros bol m (x & -> & H). eauto.
  - intros A bol c s caps k H. cbn [rmatch]. rewrite H. reflexivity.
Qed.

Lemma bracketed_lang o name cl p bol m :
  closer cl p -> lang (bracketed o name cl) bol m ->
  exists u v c, m = o :: u ++ name ++ v ++ [c] /\
                forallb ws u = true /\ forallb ws v = true /\ p c = true.
Proof.
  intros Hcl. unfold bracketed. cbn [cat lang].
  intros (m1 & m2 & -> & -> & u & m3 & -> & Hu & n & m4 & -> & -> & v & m5 & ->
          & Hv & H).
  apply (closer_lang _ _ Hcl) in H as (c & -> & Hc).
  exists u, v, c. auto.
Qed.

Lemma bracketed_needs o name cl p :
  closer cl p -> needs name (bracketed o name cl).
Proof.
  intros Hcl bol m H.
  destruct (bracketed_lang _ _ _ _ _ _ Hcl H) as (u & v & c & -> & _).
  apply contains_spec. exists (o :: u), (v ++ [c]). reflexivity.
Qed.

(** Two runs of white space before characters that are none end at the same
    place. *)
Lemma ws_run_eq (u u' t t' : str) (x x' : char) :
  forallb ws u = true -> forallb ws u' = true ->
  ws x = false -> ws x' = false ->
  u ++ x :: t = u' ++ x' :: t' -> u = u' /\ x = x' /\ t = t'.
Proof.
  revert u'. induction u as [|y u IH]; intros [|y' u'] Hu Hu' Hx Hx'; simpl.
  - intros [= -> ->]. auto.
  - intros [= -> _]. simpl in Hu'. apply andb_true_iff in Hu' as [Hy _].
    congruence.
  - intros [= -> _]. simpl in Hu. apply andb_true_iff in Hu as [Hy _].
    congruence.
  - intros [= -> E]. simpl in Hu, Hu'.
    apply andb_true_iff in Hu as [_ Hu]. apply andb_true_iff in Hu' as [_ Hu'].
    destruct (IH u' Hu Hu' Hx Hx' E) as (-> & -> & ->). auto.
Qed.

(** The same, read from the right: a character that is no white space,
    then white space up to the end. *)
Lemma ws_tail_eq (a a' u u' : str) (x x' : char) :
  forallb ws u = true -> forallb ws u' = true ->
  ws x = false -> ws x' = false ->
  a ++ x :: u = a' ++ x' :: u' -> a = a' /\ x = x' /\ u = u'.
Proof.
  intros Hu Hu' Hx Hx' E. apply (f_equal (@rev char)) in E.
  rewrite !rev_app_distr in E. simpl in E. rewrite <- !app_assoc in E.
  simpl in E.
  apply ws_run_eq in E as (E1 & -> & E2); try assumption.
  - apply (f_equal (@rev char)) in E1, E2. rewrite !rev_involutive in E1, E2.
    auto.
  - rewrite forallb_forall in *. intros y Hy. apply Hu, in_rev, Hy.
  - rewrite forallb_forall in *. intros y Hy. apply Hu', in_rev, Hy.
Qed.

Section Bracketed.
Variables (o c : char) (name pre w1 w2 post : str).
Hypothesis Hname : name <> [].
Hypothesis Hplain : Forall (fun x => ws x = false) name.
Hypothesis Ho_name : o ∉ name.
Hypothesis Hc_name : c ∉ name.
Hypothesis Ho : ws o = false.
Hypothesis Hc : ws c = false.
Hypothesis Hw1 : forallb ws w1 = true.
Hypothesis Hw2 : forallb ws w2 = true.
Hypothesis Hpre : contains name pre = false.
Hypothesis Hpost : contains name post = false.

Lemma name_head : exists x t, name = x :: t /\ ws x = false /\ x <> o /\ x <> c.
Proof.
  destruct name as [|x t]; [congruence|]. exists x, t.
  inversion Hplain; subst. repeat split; auto.
  - intros ->. apply Ho_name. left.
  - intros ->. apply Hc_name. left.
Qed.

(** A character of the name is no white space, and neither [o] nor [c]. *)
Lemma not_in_name x : x ∈ name -> ws x = false /\ x <> o /\ x <> c.
Proof.
  intros H. rewrite Forall_forall in Hplain. repeat split; [auto| |];
    intros ->; auto.
Qed.

Lemma ws_not_in_name w x : forallb ws w = true -> x ∈ w -> x ∉ name.
Proof.
  intros Hw Hx Hn. rewrite forallb_forall in Hw.
  apply list_elem_of_In, Hw in Hx. apply not_in_name in Hn as [Hn _]. congruence.
Qed.

(** No occurrence of the name starts before the one of the site. *)
Lemma occ_before (x z y : str) :
  z <> [] -> pre ++ o :: w1 = x ++ z -> startswith name (z ++ name ++ y) = false.
Proof.
  intros Hz E. destruct (startswith name (z ++ name ++ y)) eqn:Hs; [|reflexivity].
  exfalso. apply startswith_spec in Hs as [t Hs].
  assert (Hhead : forall h z', z = h :: z' -> h ∈ name).
  { intros h z' ->. destruct name as [|n0 n']; [congruence|].
    injection Hs as -> _. left. }
  apply app_eq_app in E as [l [[E1 E2]|[E1 E2]]].
  - (* z reaches into [pre] *)
    destruct l as [|l0 l].
    + rewrite app_nil_r in E1. subst x. simpl in E2. subst z.
      exact (Ho_name (Hhead o w1 eq_refl)).
    + (* pre = x ++ l, z = l ++ o :: w1 *)
      rewrite E2 in Hs. rewrite <- !app_assoc in Hs.
      apply app_eq_app in Hs as [l' [[H1 H2]|[H1 H2]]].
      * (* l0 :: l = name ++ l' *)
        assert (contains name pre = true); [|congruence].
        apply contains_spec. exists x, l'. rewrite E1, H1. reflexivity.
      * (* name = (l0 :: l) ++ l', o :: ... = l' ++ t *)
        destruct l' as [|h l'].
        -- rewrite app_nil_r in H1.
           assert (contains name pre = true); [|congruence].
           apply contains_spec. exists x, []. rewrite E1, H1, app_nil_r.
           reflexivity.
        -- simpl in H2. injection H2 as <- _. apply Ho_name. rewrite H1.
           apply elem_of_app. right. left.
  - (* z is a part of [o :: w1] *)
    destruct z as [|h z']; [congruence|].
    assert (Hh : h ∈ o :: w1).
    { rewrite E2. apply elem_of_app. right. left. }
    pose proof (Hhead h z' eq_refl) as Hn.
    apply elem_of_cons in Hh as [->|Hh]; [auto|].
    exact (ws_not_in_name w1 h Hw1 Hh Hn).
Qed.

Lemma name_not_in_ws w : forallb ws w = true -> contains name w = false.
Proof.
  intros Hw. destruct (contains name w) eqn:E; [|reflexivity]. exfalso.
  apply contains_spec in E as (a & b & ->).
  destruct name_head as (x & t & -> & Hx & _).
  rewrite forallb_forall in Hw.
  assert (H : ws x = true); [|congruence].
  apply Hw. apply in_or_app. right. left. reflexivity.
Qed.

Lemma name_not_after : contains name (w2 ++ c :: post) = false.
Proof. apply contains_sep; [exact Hc_name|apply name_not_in_ws, Hw2|exact Hpost]. Qed.

(** No occurrence of the name starts after the one of the site. *)
Lemma occ_after (l y : str) :
  l <> [] -> name ++ w2 ++ c :: post = l ++ name ++ y -> False.
Proof.
  intros Hl E. apply app_eq_app in E as [l2 [[E1 E2]|[E1 E2]]].
  - (* name = l ++ l2 *)
    assert (Hlen : (length l2 < length name)%nat).
    { rewrite E1, length_app. destruct l; [congruence|]. simpl. lia. }
    apply app_eq_app in E2 as [l3 [[H1 H2]|[H1 H2]]].
    + (* name = l2 ++ l3, w2 ++ c :: post = l3 ++ y *)
      destruct l3 as [|h l3].
      * rewrite app_nil_r in H1. rewrite H1 in Hlen. lia.
      * assert (Hn : h ∈ name) by (rewrite H1; apply elem_of_app; right; left).
        assert (Hh : h ∈ w2 ++ [c]).
        { destruct w2 as [|h' w2']; simpl in H2.
          - injection H2 as -> _. left.
          - injection H2 as -> _. left. }
        apply elem_of_app in Hh as [Hh|Hh].
        -- exact (ws_not_in_name w2 h Hw2 Hh Hn).
        -- apply list_elem_of_singleton in Hh as ->. auto.
    + (* l2 = name ++ l3 *)
      rewrite H1, length_app in Hlen. lia.
  - (* l = name ++ l2 *)
    pose proof name_not_after as H.
    assert (contains name (w2 ++ c :: post) = true); [|congruence].
    apply contains_spec. exists l2, y. exact E2.
Qed.

(** The name occurs at the site and nowhere else. *)
Lemma occ_unique (x y : str) :
  pre ++ site o c name w1 w2 ++ post = x ++ name ++ y ->
  x = pre ++ o :: w1 /\ y = w2 ++ c :: post.
Proof.
  unfold site. intros E.
  replace (pre ++ (o :: w1 ++ name ++ w2 ++ [c]) ++ post)
    with ((pre ++ o :: w1) ++ name ++ w2 ++ c :: post) in E
    by (cbn [app]; rewrite <- !app_assoc; reflexivity).
  apply app_eq_app in E as [l [[E1 E2]|[E1 E2]]].
  - (* pre ++ o :: w1 = x ++ l *)
    destruct l as [|l0 l].
    + rewrite app_nil_r in E1. simpl in E2. apply app_inv_head in E2. auto.
    + exfalso.
      pose proof (occ_before x (l0 :: l) (w2 ++ c :: post)
                    ltac:(discriminate) E1) as H.
      assert (startswith name ((l0 :: l) ++ name ++ w2 ++ c :: post) = true);
        [|congruence].
      apply startswith_spec. eexists. symmetry. exact E2.
  - (* x = (pre ++ o :: w1) ++ l *)
    destruct l as [|l0 l].
    + rewrite app_nil_r in E1. simpl in E2. apply app_inv_head in E2. auto.
    + exfalso. eapply (occ_after (l0 :: l)); [discriminate|exact E2].
Qed.

Section Match.
Variables (o' : char) (cl : regex) (p : char -> bool).
Hypothesis Hcl : closer cl p.
Hypothesis Hp : forall x, p x = true -> ws x = false.
Hypothesis Ho' : ws o' = false.

(** A match of the pattern in the text is the site. *)
Lemma match_at_site (a s : str) bol m rest caps :
  pre ++ site o c name w1 w2 ++ post = a ++ s ->
  match_here (bracketed o' name cl) bol s = Some (m, rest, caps) ->
  a = pre /\ o' = o /\ p c = true /\ m = site o c name w1 w2 /\ rest = post.
Proof.
  intros E H. apply match_here_sound in H as [-> H].
  destruct (bracketed_lang _ _ _ _ _ _ Hcl H) as (u & v & c' & -> & Hu & Hv & Hc').
  assert (E' : pre ++ site o c name w1 w2 ++ post
               = (a ++ o' :: u) ++ name ++ v ++ c' :: rest).
  { rewrite E. cbn [app]. rewrite <- !app_assoc. reflexivity. }
  apply occ_unique in E' as [E1 E2].
  apply ws_tail_eq in E1 as (-> & -> & ->); try assumption.
  apply ws_run_eq in E2 as (-> & -> & ->); auto.
Qed.

Lemma no_match_before bol a1 a2 :
  pre = a1 ++ a2 -> a2 <> [] ->
  match_here (bracketed o' name cl) bol (a2 ++ site o c name w1 w2 ++ post)
  = None.
Proof.
  intros E Ha2.
  destruct (match_here _ bol (a2 ++ site o c name w1 w2 ++ post))
    as [[[m rest] caps]|] eqn:H;
    [|reflexivity].
  exfalso. apply (match_at_site a1) in H as (H & _).
  - rewrite E in H. apply (f_equal length) in H. rewrite length_app in H.
    destruct a2; [congruence|]. simpl in H. lia.
  - rewrite E, <- app_assoc. reflexivity.
Qed.

Lemma no_match_after bol a s :
  post = a ++ s -> match_here (bracketed o' name cl) bol s = None.
Proof.
  intros E. apply (needs_no_match name); [exact (bracketed_needs _ _ _ _ Hcl)|].
  rewrite E in Hpost. exact (contains_false_app_r _ _ _ Hpost).
Qed.

(** At the site the pattern matches the site. *)
Lemma match_site bol :
  o' = o -> p c = true ->
  match_here (bracketed o' name cl) bol (site o c name w1 w2 ++ post)
  = Some (site o c name w1 w2, post, []).
Proof.
  intros -> Hpc. unfold match_here, bracketed, site. cbn [cat rmatch app lit_k].
  rewrite char_eqb_refl. rewrite <- !app_assoc.
  destruct name_head as (x & t & En & Hx & _).
  erewrite (star_k_greedy ws w1); [reflexivity|exact Hw1| |].
  { rewrite En. exact Hx. }
  cbv beta. rewrite lit_k_app. cbn [app].
  erewrite (star_k_greedy ws w2); [reflexivity|exact Hw2|exact Hc|].
  cbv beta. rewrite (closer_match _ _ Hcl) by exact Hpc.
  reflexivity.
Qed.

(** The substitution replaces the site. *)
Lemma sub_site (t : str) :
  o' = o -> p c = true ->
  sub (bracketed o' name cl) [RText t] (pre ++ site o c name w1 w2 ++ post)
  = pre ++ t ++ post.
Proof.
  intros Eo Hpc. unfold sub. rewrite sub_from_prefix.
  2:{ intros b a1 a2. apply no_match_before. }
  rewrite (sub_from_hit _ _ _ _ (site o c name w1 w2) post []).
  - simpl expand. rewrite app_nil_r. do 2 f_equal.
    apply sub_from_id. intros b a s. apply no_match_after.
  - apply match_site; assumption.
  - discriminate.
Qed.

(** A pattern with another opening or closing character finds nothing. *)
Lemma sub_elsewhere (t : list ritem) :
  o' <> o \/ p c = false ->
  sub (bracketed o' name cl) t (pre ++ site o c name w1 w2 ++ post)
  = pre ++ site o c name w1 w2 ++ post.
Proof.
  intros Hne. unfold sub. apply sub_from_id. intros b a s E.
  destruct (match_here _ b s) as [[[m rest] caps]|] eqn:H; [|reflexivity].
  exfalso. apply (match_at_site a) in H as (_ & H1 & H2 & _); [|exact E].
  destruct Hne; congruence.
Qed.
End Match.
End Bracketed.

(** ** [remove_from_import] *)

Lemma name_like_spec seps name :
  name_like seps name = true ->
  name <> [] /\ Forall (fun x => ws x = false) name /\
  forall x, x ∈ seps -> x ∉ name.
Proof.
  unfold name_like. intros H. apply andb_true_iff in H as [H1 H2].
  split; [destruct name; [discriminate|congruence]|].
  rewrite forallb_forall in H2. split.
  - rewrite Forall_forall. intros x Hx. apply list_elem_of_In, H2 in Hx.
    apply andb_true_iff in Hx as [Hx _]. apply negb_true_iff in Hx. exact Hx.
  - intros x Hs Hx. apply list_elem_of_In, H2 in Hx.
    apply andb_true_iff in Hx as [_ Hx]. apply negb_true_iff in Hx.
    assert (existsb (char_eqb x) seps = true); [|congruence].
    apply existsb_exists. exists x. split; [apply list_elem_of_In, Hs|].
    apply char_eqb_refl.
Qed.

Lemma empty_braces_intro (a u b : str) :
  forallb ws u = true -> empty_braces (a ++ 123 :: u ++ 125 :: b) = true.
Proof.
  intros Hu. induction a as [|x a IH]; cbn [app empty_braces].
  - rewrite lstrip_ws by exact Hu. reflexivity.
  - rewrite IH. apply orb_true_r.
Qed.

Lemma empty_braces_app_r (a b : str) :
  empty_braces (a ++ b) = false -> empty_braces b = false.
Proof.
  induction a as [|x a IH]; cbn [app empty_braces]; [auto|].
  intros H. apply orb_false_iff in H as [_ H]. auto.
Qed.

Section EmptyImport.
Import AggressiveCleanup.

Lemma empty_import_lang bol m :
  lang empty_import bol m ->
  exists u1 u2 t,
    m = lit "import" ++ u1 ++ 123 :: u2 ++ 125 :: t /\
    forallb ws u1 = true /\ forallb ws u2 = true.
Proof.
  unfold empty_import. cbn [cat lang].
  intros (m1 & m2 & -> & -> & u1 & m3 & -> & [_ Hu1] & m4 & m5 & -> & -> & u2 & m6
          & -> & Hu2 & m7 & m8 & -> & -> & _).
  exists u1, u2, m8. auto.
Qed.

Lemma empty_import_no_match bol s :
  empty_braces s = false -> match_here empty_import bol s = None.
Proof.
  intros H. destruct (match_here empty_import bol s) as [[[m rest] caps]|] eqn:E;
    [|reflexivity].
  exfalso. apply match_here_sound in E as [-> E].
  apply empty_import_lang in E as (u1 & u2 & t & -> & _ & Hu2).
  assert (empty_braces ((lit "import" ++ u1 ++ 123 :: u2 ++ 125 :: t) ++ rest)
          = true); [|congruence].
  replace ((lit "import" ++ u1 ++ 123 :: u2 ++ 125 :: t) ++ rest)
    with ((lit "import" ++ u1) ++ 123 :: u2 ++ 125 :: t ++ rest)
    by (rewrite <- !app_assoc; cbn [app]; rewrite <- !app_assoc; reflexivity).
  apply empty_braces_intro, Hu2.
Qed.

Lemma sub_empty_import_id s :
  empty_braces s = false -> sub empty_import [] s = s.
Proof.
  intros H. unfold sub. apply sub_from_id. intros b a s' E.
  apply empty_import_no_match. rewrite E in H.
  exact (empty_braces_app_r _ _ H).
Qed.
End EmptyImport.

Section RemoveFromImport.
Import AggressiveCleanup.

Lemma comma_or_rbrace_plain x : comma_or_rbrace x = true -> ws x = false.
Proof.
  unfold comma_or_rbrace. intros H. apply orb_true_iff in H as [H|H];
    apply char_eqb_eq in H as ->; reflexivity.
Qed.

Lemma char_eqb_plain (c0 : char) :
  ws c0 = false -> forall x, char_eqb c0 x = true -> ws x = false.
Proof. intros H x E. apply char_eqb_eq in E as <-. exact H. Qed.

(** X8: a name that follows a comma is taken out together with the comma
    or the closing brace behind it, and a single comma is left: for the last
    name of a list the closing brace is lost. *)
Theorem remove_from_import_after_comma (symbol pre w1 w2 post : str) (c : char) :
  name_like (lit "{},") symbol = true ->
  forallb ws w1 = true -> forallb ws w2 = true ->
  c = 44 \/ c = 125 ->
  contains symbol pre = false -> contains symbol post = false ->
  empty_braces (pre ++ lit "," ++ post) = false ->
  remove_from_import (pre ++ lit "," ++ w1 ++ symbol ++ w2 ++ c :: post) symbol
  = pre ++ lit "," ++ post.
Proof.
  intros Hn Hw1 Hw2 Hc Hpre Hpost Hb.
  destruct (name_like_spec _ _ Hn) as (Hne & Hplain & Hseps).
  assert (H44 : 44 ∉ symbol) by (apply Hseps; apply list_elem_of_In; vm_compute; tauto).
  assert (H125 : 125 ∉ symbol) by (apply Hseps; apply list_elem_of_In; vm_compute; tauto).
  assert (Hcn : c ∉ symbol) by (destruct Hc as [->| ->]; assumption).
  assert (Hcw : ws c = false) by (destruct Hc as [->| ->]; reflexivity).
  replace (pre ++ lit "," ++ w1 ++ symbol ++ w2 ++ c :: post)
    with (pre ++ site 44 c symbol w1 w2 ++ post)
    by (unfold site; cbn [app]; rewrite <- !app_assoc; reflexivity).
  unfold remove_from_import.
  change (sym_in_braces symbol) with (bracketed 123 symbol (Lit [125])).
  change (sym_after_comma symbol) with (bracketed 44 symbol (Set_ comma_or_rbrace)).
  change (sym_after_brace symbol) with (bracketed 123 symbol (Lit [44])).
  rewrite (sub_elsewhere 44 c symbol pre w1 w2 post Hne Hplain H44 Hcn eq_refl Hcw
             Hw1 Hw2 Hpre Hpost 123 (Lit [125]) (char_eqb 125) (closer_lit 125)
             (char_eqb_plain 125 eq_refl) eq_refl);
    [|left; discriminate].
  rewrite (sub_site 44 c symbol pre w1 w2 post Hne Hplain H44 Hcn eq_refl Hcw
             Hw1 Hw2 Hpre Hpost 44 (Set_ comma_or_rbrace) comma_or_rbrace
             (closer_set _) comma_or_rbrace_plain eq_refl (lit ",") eq_refl);
    [|destruct Hc as [->| ->]; reflexivity].
  rewrite (sub_needs symbol (bracketed 123 symbol (Lit [44])));
    [|exact (bracketed_needs _ _ _ _ (closer_lit 44))
     |apply contains_sep; assumption].
  apply sub_empty_import_id, Hb.
Qed.
End RemoveFromImport.

Lemma remove_from_import_after_comma_witness :
  AggressiveCleanup.remove_from_import
    (lit "import { bar" ++ lit "," ++ lit " " ++ lit "foo" ++ lit " "
        ++ 125 :: lit " from './m.js';") (lit "foo")
  = lit "import { bar" ++ lit "," ++ lit " from './m.js';".
Proof.
  apply (remove_from_import_after_comma (lit "foo") (lit "import { bar")
           (lit " ") (lit " ") (lit " from './m.js';") 125);
    try reflexivity.
  right. reflexivity.
Defined.

Lemma star_k_last {A} p (m rest : str) c (k : @cont A) a :
  forallb p m = true -> k m rest c = Some a ->
  (forall m' rest', m ++ rest = m' ++ rest' -> forallb p m' = true ->
                    (length m < length m')%nat -> k m' rest' c = None) ->
  star_k p (m ++ rest) c k = Some a.
Proof.
  intros Hm Hk Hmax.
  destruct (star_k_complete p m rest c k Hm) as [a' Ha']; [rewrite Hk; eauto|].
  pose proof Ha' as H.
  apply star_k_spec in H as (m0 & rest0 & E & Hm0 & Hk0 & Hmax0).
  destruct (lt_eq_lt_dec (length m0) (length m)) as [[Hlt|Heq]|Hgt].
  - rewrite (Hmax0 m rest eq_refl Hm Hlt) in Hk. discriminate.
  - apply app_inj_1 in E as [<- <-]; [|congruence]. congruence.
  - rewrite (Hmax m0 rest0 E Hm0 Hgt) in Hk0. discriminate.
Qed.

Section EmptyImportStatement.
Import AggressiveCleanup.
Variables (q1 q2 : char) (module w pre ind rest : str).
Hypothesis Hq1 : quote q1 = true.
Hypothesis Hq2 : quote q2 = true.
Hypothesis Hmodule : module <> [].
Hypothesis Hpath : forallb not_quote module = true.
Hypothesis Hw : forallb ws w = true.
Hypothesis Hind : forallb ws ind = true.
Hypothesis Hnl : NL ∉ ind.
Hypothesis Hrest : match rest with [] => True | x :: _ => ws x = false end.
Hypothesis Hpre : empty_braces pre = false.
Hypothesis Hpost : empty_braces (ind ++ rest) = false.

Lemma after_newline m' rest' :
  w ++ NL :: ind ++ rest = m' ++ rest' -> forallb ws m' = true ->
  (length w < length m')%nat -> lit_k [NL] rest' = None.
Proof.
  intros E Hm' Hlen.
  apply app_eq_app in E as [l [[E1 E2]|[E1 E2]]].
  { apply (f_equal length) in E1. rewrite length_app in E1. lia. }
  destruct l as [|l0 l].
  { apply (f_equal length) in E1. rewrite length_app in E1. simpl in E1. lia. }
  injection E2 as <- E2.
  assert (Hl : forallb ws l = true).
  { rewrite E1 in Hm'. rewrite forallb_app in Hm'.
    apply andb_true_iff in Hm' as [_ Hm']. cbn [forallb] in Hm'.
    apply andb_true_iff in Hm' as [_ Hm']. exact Hm'. }
  assert (Hhead : forall h t, rest' = h :: t -> h <> NL).
  { intros h t ->. apply app_eq_app in E2 as [l2 [[H1 H2]|[H1 H2]]].
    - destruct l2 as [|x l2].
      + simpl in H2. rewrite <- H2 in Hrest. intros ->. discriminate.
      + injection H2 as <- _. intros ->. apply Hnl. rewrite H1.
        apply elem_of_app. right. left.
    - destruct l2 as [|x l2].
      + simpl in H2. rewrite H2 in Hrest. intros ->. discriminate.
      + rewrite H2 in Hrest. simpl in Hrest.
        rewrite H1, forallb_app in Hl. apply andb_true_iff in Hl as [_ Hl].
        cbn [forallb] in Hl. apply andb_true_iff in Hl as [Hx _]. congruence. }
  destruct rest' as [|h t]; [reflexivity|].
  cbn [lit_k]. pose proof (Hhead h t eq_refl) as Hne.
  replace (char_eqb NL h) with false; [reflexivity|].
  symmetry. apply N.eqb_neq. congruence.
Qed.

Lemma star_k_stop {A} p (x : char) (s : str) c (k : @cont A) :
  p x = false -> star_k p (x :: s) c k = k [] (x :: s) c.
Proof. intros H. simpl. rewrite H. reflexivity. Qed.

Lemma star_k_stop_app {A} p (l s : str) c (k : @cont A) :
  match l with x :: _ => p x = false | [] => False end ->
  star_k p (l ++ s) c k = k [] (l ++ s) c.
Proof. destruct l as [|x l]; [tauto|]. apply star_k_stop. Qed.

Lemma tail_elem (x : char) (t : str) (h : char) (a : str) (y : char) (l : str) :
  x :: t = (h :: a) ++ y :: l -> y ∈ t.
Proof. intros E. injection E as _ ->. apply elem_of_app. right. left. Qed.

Lemma lit_k_head (x : char) (s : str) : lit_k [x] (x :: s) = Some s.
Proof. simpl. rewrite char_eqb_refl. reflexivity. Qed.

Lemma empty_import_matches bol :
  match_here empty_import bol
    (empty_import_statement q1 module q2 w ++ ind ++ rest)
  = Some (empty_import_statement q1 module q2 w, ind ++ rest, []).
Proof.
  unfold match_here, empty_import_statement.
  replace ((lit "import {} from " ++ q1 :: module ++ q2 :: lit ";" ++ w ++ [NL])
           ++ ind ++ rest)
    with (lit "import" ++ 32 :: 123 :: 125 :: 32 :: lit "from" ++ 32
            :: q1 :: module ++ q2 :: 59 :: w ++ NL :: ind ++ rest)
    by (change (lit "import {} from ")
          with (lit "import" ++ 32 :: 123 :: 125 :: 32 :: lit "from" ++ [32]);
        change (lit ";") with [59];
        repeat (rewrite <- app_assoc; cbn [app]); reflexivity).
  unfold empty_import. cbn [cat rmatch].
  change (lit "{") with [123]. change (lit "}") with [125].
  change (lit ";") with [59].
  rewrite lit_k_app. change (ws 32) with true. cbv iota.
  rewrite star_k_stop by reflexivity. cbv beta.
  rewrite lit_k_head.
  rewrite star_k_stop by reflexivity. cbv beta.
  rewrite lit_k_head. change (ws 32) with true. cbv iota.
  rewrite star_k_stop_app by reflexivity. cbv beta.
  rewrite lit_k_app. change (ws 32) with true. cbv iota.
  assert (Hq1w : ws q1 = false).
  { apply quote_cases in Hq1 as [->| ->]; reflexivity. }
  rewrite star_k_stop by exact Hq1w. cbv beta. rewrite Hq1.
  destruct module as [|x m] eqn:Em; [congruence|].
  cbn [app forallb] in *. apply andb_true_iff in Hpath as [Hx Hm].
  rewrite Hx.
  erewrite (star_k_greedy not_quote m); [reflexivity|exact Hm| |].
  { unfold not_quote. rewrite Hq2. reflexivity. }
  cbv beta. rewrite Hq2. rewrite lit_k_head.
  erewrite (star_k_last ws w); [reflexivity|exact Hw| |].
  - cbv beta. cbn [lit_k]. rewrite char_eqb_refl. reflexivity.
  - intros m' rest' E Hm' Hlen. cbv beta.
    rewrite (after_newline m' rest' E Hm' Hlen). reflexivity.
Qed.

Lemma i_not_later (u1 u2 t : str) :
  forallb ws u1 = true -> forallb ws u2 = true ->
  105 ∉ lit "mport" ++ u1 ++ 123 :: u2 ++ [125].
Proof.
  intros H1 H2 H. rewrite forallb_forall in H1, H2.
  apply elem_of_app in H as [H|H]; [not_in_text H|].
  apply elem_of_app in H as [H|H].
  { apply list_elem_of_In, H1 in H. discriminate. }
  apply elem_of_cons in H as [H|H]; [discriminate|].
  apply elem_of_app in H as [H|H].
  { apply list_elem_of_In, H2 in H. discriminate. }
  apply list_elem_of_singleton in H. discriminate.
Qed.

Lemma empty_import_not_before bol a1 a2 :
  pre = a1 ++ a2 -> a2 <> [] ->
  match_here empty_import bol
    (a2 ++ empty_import_statement q1 module q2 w ++ ind ++ rest) = None.
Proof.
  intros E Ha2.
  destruct (match_here empty_import bol _) as [[[m r] caps]|] eqn:H;
    [|reflexivity].
  exfalso. apply match_here_sound in H as [H L].
  apply empty_import_lang in L as (u1 & u2 & t & -> & Hu1 & Hu2).
  set (P := lit "import" ++ u1 ++ 123 :: u2 ++ [125]).
  assert (EP : a2 ++ empty_import_statement q1 module q2 w ++ ind ++ rest
               = P ++ t ++ r).
  { rewrite H. subst P. repeat (rewrite <- app_assoc; cbn [app]). reflexivity. }
  assert (Hin : forall a b, pre = a ++ P ++ b -> False).
  { intros a b Eab. assert (empty_braces pre = true); [|congruence].
    rewrite Eab. subst P.
    replace (a ++ (lit "import" ++ u1 ++ 123 :: u2 ++ [125]) ++ b)
      with ((a ++ lit "import" ++ u1) ++ 123 :: u2 ++ 125 :: b)
      by (repeat (rewrite <- app_assoc; cbn [app]); reflexivity).
    apply empty_braces_intro, Hu2. }
  apply app_eq_app in EP as [l [[E1 E2]|[E1 E2]]].
  - (* a2 = P ++ l *)
    apply (Hin a1 l). rewrite E, E1. reflexivity.
  - (* P = a2 ++ l *)
    destruct l as [|l0 l].
    + apply (Hin a1 []). rewrite E, E1, !app_nil_r. reflexivity.
    + unfold empty_import_statement in E2.
      change (lit "import {} from ") with (105 :: lit "mport {} from ") in E2.
      injection E2 as <- _.
      destruct a2 as [|h a2]; [congruence|].
      subst P. apply (i_not_later u1 u2 t Hu1 Hu2).
      apply (tail_elem 105 _ h a2 105 l). rewrite <- E1. reflexivity.
Qed.

(** The fourth substitution removes the statement. *)
Lemma sub_empty_import_statement :
  sub empty_import []
    (pre ++ empty_import_statement q1 module q2 w ++ ind ++ rest)
  = pre ++ ind ++ rest.
Proof.
  unfold sub. rewrite sub_from_prefix.
  2:{ intros b a1 a2. apply empty_import_not_before. }
  rewrite (sub_from_hit _ _ _ _ _ _ _ (empty_import_matches _)).
  - simpl expand. cbn [app]. f_equal.
    apply sub_from_id. intros b a s' E. apply empty_import_no_match.
    rewrite E in Hpost. exact (empty_braces_app_r _ _ Hpost).
  - discriminate.
Qed.
End EmptyImportStatement.

Section RemoveFromImport2.
Import AggressiveCleanup.

Lemma contains_nil_false (w : str) : w <> [] -> contains w [] = false.
Proof. destruct w; [congruence|reflexivity]. Qed.

(** X9: the first name of a list is taken out with the comma behind it. *)
Theorem remove_from_import_first_name (symbol pre w1 w2 post : str) :
  name_like (lit "{},") symbol = true ->
  forallb ws w1 = true -> forallb ws w2 = true ->
  contains symbol pre = false -> contains symbol post = false ->
  empty_braces (pre ++ lit "{" ++ post) = false ->
  remove_from_import (pre ++ lit "{" ++ w1 ++ symbol ++ w2 ++ lit "," ++ post)
    symbol
  = pre ++ lit "{" ++ post.
Proof.
  intros Hn Hw1 Hw2 Hpre Hpost Hb.
  destruct (name_like_spec _ _ Hn) as (Hne & Hplain & Hseps).
  assert (H123 : 123 ∉ symbol) by (apply Hseps; apply list_elem_of_In; vm_compute; tauto).
  assert (H44 : 44 ∉ symbol) by (apply Hseps; apply list_elem_of_In; vm_compute; tauto).
  replace (pre ++ lit "{" ++ w1 ++ symbol ++ w2 ++ lit "," ++ post)
    with (pre ++ site 123 44 symbol w1 w2 ++ post)
    by (unfold site; cbn [app]; rewrite <- !app_assoc; reflexivity).
  unfold remove_from_import.
  change (sym_in_braces symbol) with (bracketed 123 symbol (Lit [125])).
  change (sym_after_comma symbol) with (bracketed 44 symbol (Set_ comma_or_rbrace)).
  change (sym_after_brace symbol) with (bracketed 123 symbol (Lit [44])).
  rewrite (sub_elsewhere 123 44 symbol pre w1 w2 post Hne Hplain H123 H44 eq_refl
             eq_refl Hw1 Hw2 Hpre Hpost 123 (Lit [125]) (char_eqb 125)
             (closer_lit 125) (char_eqb_plain 125 eq_refl) eq_refl);
    [|right; reflexivity].
  rewrite (sub_elsewhere 123 44 symbol pre w1 w2 post Hne Hplain H123 H44 eq_refl
             eq_refl Hw1 Hw2 Hpre Hpost 44 (Set_ comma_or_rbrace) comma_or_rbrace
             (closer_set _) comma_or_rbrace_plain eq_refl);
    [|left; discriminate].
  rewrite (sub_site 123 44 symbol pre w1 w2 post Hne Hplain H123 H44 eq_refl
             eq_refl Hw1 Hw2 Hpre Hpost 123 (Lit [44]) (char_eqb 44)
             (closer_lit 44) (char_eqb_plain 44 eq_refl) eq_refl (lit "{") eq_refl
             eq_refl).
  apply sub_empty_import_id, Hb.
Qed.

(** The three substitutions for the name leave the empty list of an import
    statement that held the name alone. *)
Lemma sole_name_emptied
  (symbol pre module w post : str) (q1 q2 : char) :
  name_like (lit "{},") symbol = true ->
  contains symbol (pre ++ lit "import ") = false ->
  contains symbol
    (lit " from " ++ q1 :: module ++ q2 :: lit ";" ++ w ++ NL :: post)
  = false ->
  let content :=
    sub (sym_in_braces symbol) [RText (lit "{}")]
      (pre ++ lit "import { " ++ symbol ++ lit " } from " ++ q1 :: module
           ++ q2 :: lit ";" ++ w ++ NL :: post) in
  let content := sub (sym_after_comma symbol) [RText (lit ",")] content in
  sub (sym_after_brace symbol) [RText (lit "{")] content
  = pre ++ empty_import_statement q1 module q2 w ++ post.
Proof.
  intros Hn Hbefore Hafter.
  destruct (name_like_spec _ _ Hn) as (Hne & Hplain & Hseps).
  assert (H123 : 123 ∉ symbol)
    by (apply Hseps; apply list_elem_of_In; vm_compute; tauto).
  assert (H125 : 125 ∉ symbol)
    by (apply Hseps; apply list_elem_of_In; vm_compute; tauto).
  set (POST := lit " from " ++ q1 :: module ++ q2 :: lit ";" ++ w ++ NL :: post)
    in *.
  replace (pre ++ lit "import { " ++ symbol ++ lit " } from " ++ q1 :: module
               ++ q2 :: lit ";" ++ w ++ NL :: post)
    with ((pre ++ lit "import ") ++ site 123 125 symbol [32] [32] ++ POST).
  2:{ subst POST. unfold site.
      change (lit "import { ") with (lit "import " ++ [123; 32]).
      change (lit " } from ") with (32 :: 125 :: lit " from ").
      repeat (rewrite <- app_assoc; cbn [app]). reflexivity. }
  cbv zeta.
  change (sym_in_braces symbol) with (bracketed 123 symbol (Lit [125])).
  change (sym_after_comma symbol)
    with (bracketed 44 symbol (Set_ comma_or_rbrace)).
  change (sym_after_brace symbol) with (bracketed 123 symbol (Lit [44])).
  rewrite (sub_site 123 125 symbol (pre ++ lit "import ") [32] [32] POST Hne
             Hplain H123 H125 eq_refl eq_refl eq_refl eq_refl Hbefore Hafter 123
             (Lit [125]) (char_eqb 125) (closer_lit 125)
             (char_eqb_plain 125 eq_refl) eq_refl (lit "{}") eq_refl eq_refl).
  assert (Habsent : contains symbol ((pre ++ lit "import ") ++ lit "{}" ++ POST)
                    = false).
  { change (lit "{}" ++ POST) with (123 :: [] ++ 125 :: POST).
    apply contains_sep; [exact H123|exact Hbefore|].
    apply contains_sep; [exact H125|apply contains_nil_false, Hne|exact Hafter]. }
  rewrite (sub_needs symbol (bracketed 44 symbol (Set_ comma_or_rbrace)));
    [|exact (bracketed_needs _ _ _ _ (closer_set _))|exact Habsent].
  rewrite (sub_needs symbol (bracketed 123 symbol (Lit [44])));
    [|exact (bracketed_needs _ _ _ _ (closer_lit 44))|exact Habsent].
  subst POST. unfold empty_import_statement.
  change (lit "import {} from ")
    with (lit "import " ++ lit "{}" ++ lit " from ").
  repeat (rewrite <- app_assoc; cbn [app]). reflexivity.
Qed.

(** X10: an import statement that holds the name alone is taken out as a
    whole, with the white space and the blank lines that follow it; the next
    line that holds text keeps its indentation. *)
Theorem remove_from_import_sole_name
  (symbol pre module w ind rest : str) (q1 q2 : char) :
  name_like (lit "{},") symbol = true ->
  quote q1 = true -> quote q2 = true ->
  module <> [] -> forallb not_quote module = true ->
  forallb ws w = true -> forallb ws ind = true -> (NL ∉ ind) ->
  starts_blank rest = false ->
  contains symbol (pre ++ lit "import ") = false ->
  contains symbol
    (lit " from " ++ q1 :: module ++ q2 :: lit ";" ++ w ++ NL :: ind ++ rest)
  = false ->
  empty_braces pre = false -> empty_braces (ind ++ rest) = false ->
  remove_from_import
    (pre ++ lit "import { " ++ symbol ++ lit " } from " ++ q1 :: module
         ++ q2 :: lit ";" ++ w ++ NL :: ind ++ rest) symbol
  = pre ++ ind ++ rest.
Proof.
  intros Hn Hq1 Hq2 Hm Hpath Hw Hind Hnl Hrest Hbefore Hafter Hb1 Hb2.
  unfold remove_from_import.
  rewrite (sole_name_emptied symbol pre module w (ind ++ rest) q1 q2 Hn Hbefore
             Hafter).
  apply sub_empty_import_statement; try assumption.
  destruct rest as [|x rest']; [exact I|exact Hrest].
Qed.
(** X11: for a symbol that does not occur in the content the three
    substitutions for it change nothing, and the content is returned as it
    is when it holds no empty pair of braces; an empty import statement of
    the content is removed all the same. *)
Theorem remove_from_import_absent (content symbol : str) :
  contains symbol content = false ->
  remove_from_import content symbol = sub empty_import [] content /\
  (empty_braces content = false -> remove_from_import content symbol = content).
Proof.
  intros H.
  assert (E : remove_from_import content symbol = sub empty_import [] content);
    [|split; [exact E|intros Hb; rewrite E; apply sub_empty_import_id, Hb]].
  unfold remove_from_import.
  change (sym_in_braces symbol) with (bracketed 123 symbol (Lit [125])).
  change (sym_after_comma symbol) with (bracketed 44 symbol (Set_ comma_or_rbrace)).
  change (sym_after_brace symbol) with (bracketed 123 symbol (Lit [44])).
  rewrite (sub_needs symbol (bracketed 123 symbol (Lit [125])));
    [|exact (bracketed_needs _ _ _ _ (closer_lit 125))|exact H].
  rewrite (sub_needs symbol (bracketed 44 symbol (Set_ comma_or_rbrace)));
    [|exact (bracketed_needs _ _ _ _ (closer_set _))|exact H].
  rewrite (sub_needs symbol (bracketed 123 symbol (Lit [44])));
    [|exact (bracketed_needs _ _ _ _ (closer_lit 44))|exact H].
  reflexivity.
Qed.
End RemoveFromImport2.

Lemma remove_from_import_first_name_witness :
  AggressiveCleanup.remove_from_import
    (lit "import " ++ lit "{" ++ lit " " ++ lit "foo" ++ [] ++ lit ","
        ++ lit " bar } from './m.js';") (lit "foo")
  = lit "import " ++ lit "{" ++ lit " bar } from './m.js';".
Proof.
  apply (remove_from_import_first_name (lit "foo") (lit "import ") (lit " ") []
           (lit " bar } from './m.js';")); reflexivity.
Defined.

Lemma remove_from_import_sole_name_witness :
  AggressiveCleanup.remove_from_import
    (lit "// x" ++ [NL] ++ lit "import { " ++ lit "foo" ++ lit " } from "
        ++ SQ :: lit "./m.js" ++ SQ :: lit ";" ++ [NL] ++ NL
        :: lit "  " ++ lit "const a = 1;") (lit "foo")
  = lit "// x" ++ [NL] ++ lit "  " ++ lit "const a = 1;".
Proof.
  apply (remove_from_import_sole_name (lit "foo") (lit "// x" ++ [NL])
           (lit "./m.js") [NL] (lit "  ") (lit "const a = 1;") SQ SQ);
    try reflexivity.
  - discriminate.
  - intros H. not_in_text H.
Defined.

Lemma remove_from_import_absent_witness :
  AggressiveCleanup.remove_from_import Examples.source (lit "baz")
  = sub AggressiveCleanup.empty_import [] Examples.source /\
  (empty_braces Examples.source = false ->
   AggressiveCleanup.remove_from_import Examples.source (lit "baz")
   = Examples.source).
Proof.
  apply (remove_from_import_absent Examples.source (lit "baz")).
  vm_compute. reflexivity.
Defined.


(** ** [remove_parameter] *)

Section TypeAnnotation.
Import AggressiveCleanup.

Lemma type_annotation_lang bol m :
  lang type_annotation bol m ->
  exists u t v, m = 58 :: u ++ t ++ 44 :: v.
Proof.
  unfold type_annotation. cbn [cat lang].
  intros (m1 & m2 & -> & -> & u & m3 & -> & _ & t & m4 & -> & _ & m5 & v & -> & ->
          & _).
  exists u, t, v. reflexivity.
Qed.

Lemma type_annotation_needs : needs (lit ",") type_annotation.
Proof.
  intros bol m H. apply type_annotation_lang in H as (u & t & v & ->).
  apply contains_spec. exists (58 :: u ++ t), v.
  cbn [app]. rewrite <- !app_assoc. reflexivity.
Qed.

Lemma contains_char (x : char) (s : str) : x ∉ s -> contains [x] s = false.
Proof.
  intros H. destruct (contains [x] s) eqn:E; [|reflexivity].
  exfalso. apply contains_spec in E as (a & b & ->). apply H.
  apply elem_of_app. right. left.
Qed.

(** A text in which no comma follows a colon holds no type annotation
    followed by a comma. *)
Lemma type_annotation_no_match (a rest : str) bol x s :
  58 ∉ a -> 44 ∉ rest -> a ++ rest = x ++ s ->
  match_here type_annotation bol s = None.
Proof.
  intros Ha Hr E.
  destruct (match_here type_annotation bol s) as [[[m r] caps]|] eqn:H;
    [|reflexivity].
  exfalso. apply match_here_sound in H as [-> H].
  apply type_annotation_lang in H as (u & t & v & ->).
  apply app_eq_app in E as [l [[E1 E2]|[E1 E2]]].
  - (* a = x ++ l *)
    destruct l as [|l0 l].
    + simpl in E2. apply Hr. rewrite <- E2. cbn [app]. right.
      rewrite !elem_of_app. left. right. right. left.
    + cbn [app] in E2. injection E2 as <- _. apply Ha. rewrite E1.
      apply elem_of_app. right. left.
  - (* x = a ++ l *)
    apply Hr. rewrite E2. apply elem_of_app. right. cbn [app]. right.
    rewrite !elem_of_app. left. right. right. left.
Qed.

Lemma sub_type_annotation_id (a rest : str) t :
  58 ∉ a -> 44 ∉ rest -> sub type_annotation t (a ++ rest) = a ++ rest.
Proof.
  intros Ha Hr. unfold sub. apply sub_from_id. intros b x s E.
  exact (type_annotation_no_match a rest b x s Ha Hr E).
Qed.

Variables (head wt ta w3 rest : str).
Hypothesis Hhead : 58 ∉ head.
Hypothesis Hwt : forallb ws wt = true.
Hypothesis Hta : ta <> [].
Hypothesis Hclass : forallb not_comma_rparen ta = true.
Hypothesis Hta0 : starts_blank ta = false.
Hypothesis Hw3 : forallb ws w3 = true.
Hypothesis Hrest0 : starts_blank rest = false.
Hypothesis Hrest : 44 ∉ rest.

Lemma type_annotation_matches bol :
  match_here type_annotation bol (annotation wt ta w3 ++ rest)
  = Some (annotation wt ta w3, rest, []).
Proof.
  unfold match_here, annotation, type_annotation. cbn [cat rmatch].
  rewrite <- !app_assoc. rewrite lit_k_app.
  destruct ta as [|x ta'] eqn:Eta; [congruence|].
  cbn [forallb starts_blank] in *. apply andb_true_iff in Hclass as [Hx Hta'].
  erewrite (star_k_greedy ws wt); [reflexivity|exact Hwt|exact Hta0|].
  cbv beta. cbn [app]. rewrite Hx.
  erewrite (star_k_greedy not_comma_rparen ta'); [reflexivity|exact Hta'| |].
  { reflexivity. }
  cbv beta. rewrite lit_k_app.
  erewrite (star_k_greedy ws w3); [reflexivity|exact Hw3| |].
  { destruct rest; [exact I|exact Hrest0]. }
  cbv beta. reflexivity.
Qed.

Lemma type_annotation_not_before bol a1 a2 :
  head = a1 ++ a2 -> a2 <> [] ->
  match_here type_annotation bol (a2 ++ annotation wt ta w3 ++ rest) = None.
Proof.
  intros E Ha2. destruct a2 as [|h a2]; [congruence|].
  assert (Hh : h <> 58).
  { intros ->. apply Hhead. rewrite E. apply elem_of_app. right. left. }
  unfold match_here, type_annotation. cbn [cat rmatch app].
  change (lit ":") with [58]. cbn [lit_k].
  replace (char_eqb 58 h) with false; [reflexivity|].
  symmetry. apply N.eqb_neq. congruence.
Qed.

Lemma sub_type_annotation :
  sub type_annotation [RText (lit ": ")] (head ++ annotation wt ta w3 ++ rest)
  = head ++ lit ": " ++ rest.
Proof.
  unfold sub. rewrite sub_from_prefix.
  2:{ intros b a1 a2. apply type_annotation_not_before. }
  rewrite (sub_from_hit _ _ _ _ _ _ _ (type_annotation_matches _)).
  - cbn [expand]. rewrite app_nil_r. do 2 f_equal.
    apply sub_from_id. intros b a s E.
    apply (needs_no_match (lit ",")); [exact type_annotation_needs|].
    apply contains_char. intros H. apply Hrest. rewrite E.
    apply elem_of_app. right. exact H.
  - discriminate.
Qed.
End TypeAnnotation.

Section RemoveParameter.
Import AggressiveCleanup.

Lemma remove_parameter_at content param line_num line :
  (1 <= line_num)%Z ->
  split NL content !! Z.to_nat (line_num - 1) = Some line ->
  remove_parameter content param line_num
  = Some (join NL (<[Z.to_nat (line_num - 1) := strip_param param line]>
                     (split NL content))).
Proof.
  intros H1 Hl. pose proof (lookup_lt_Some _ _ _ Hl) as Hlt.
  unfold remove_parameter. cbv zeta.
  destruct (Z.leb_spec line_num (Z.of_nat (length (split NL content))));
    [|lia].
  rewrite py_index_line by lia. rewrite Hl. reflexivity.
Qed.

Lemma strip_param_absent param line :
  contains param line = false ->
  strip_param param line = sub type_annotation [RText (lit ": ")] line.
Proof.
  intros H. unfold strip_param.
  change (param_after_comma param) with (bracketed 44 param (Lit [58])).
  change (param_after_paren param) with (bracketed 40 param (Lit [58])).
  rewrite (sub_needs param (bracketed 44 param (Lit [58])));
    [|exact (bracketed_needs _ _ _ _ (closer_lit 58))|exact H].
  rewrite (sub_needs param (bracketed 40 param (Lit [58])));
    [|exact (bracketed_needs _ _ _ _ (closer_lit 58))|exact H].
  reflexivity.
Qed.

(** X12: whatever the parameter, the first type annotation of the line
    that is followed by a comma is taken out, with the comma: on a line that
    does not hold the parameter this is the only change. *)
Theorem remove_parameter_other_annotation
  (content param : str) (line_num : Z) (head wt ta w3 rest : str) :
  (1 <= line_num)%Z ->
  split NL content !! Z.to_nat (line_num - 1)
    = Some (head ++ lit ":" ++ wt ++ ta ++ lit "," ++ w3 ++ rest) ->
  contains param (head ++ lit ":" ++ wt ++ ta ++ lit "," ++ w3 ++ rest) = false ->
  (58 ∉ head) ->
  forallb ws wt = true ->
  ta <> [] -> forallb not_comma_rparen ta = true -> starts_blank ta = false ->
  forallb ws w3 = true -> starts_blank rest = false -> (44 ∉ rest) ->
  remove_parameter content param line_num
  = Some (join NL (<[Z.to_nat (line_num - 1) := head ++ lit ": " ++ rest]>
                     (split NL content))).
Proof.
  intros H1 Hl Hp Hh Hwt Hta Hc Hta0 Hw3 Hr0 Hr.
  rewrite (remove_parameter_at _ _ _ _ H1 Hl).
  rewrite (strip_param_absent _ _ Hp).
  replace (head ++ lit ":" ++ wt ++ ta ++ lit "," ++ w3 ++ rest)
    with (head ++ annotation wt ta w3 ++ rest)
    by (unfold annotation; rewrite <- !app_assoc; reflexivity).
  rewrite (sub_type_annotation head wt ta w3 rest Hh Hwt Hta Hc Hta0 Hw3 Hr0 Hr).
  reflexivity.
Qed.

Lemma strip_param_second
  (param head wt ta w1 w2 w3 rest : str) :
  name_like (lit "(,:") param = true ->
  contains param (head ++ lit ":" ++ wt ++ ta) = false ->
  contains param (w3 ++ rest) = false ->
  (58 ∉ head) ->
  forallb ws wt = true ->
  ta <> [] -> forallb not_comma_rparen ta = true -> starts_blank ta = false ->
  forallb ws w1 = true -> forallb ws w2 = true ->
  forallb ws w3 = true -> starts_blank rest = false -> (44 ∉ rest) ->
  strip_param param
    (head ++ lit ":" ++ wt ++ ta ++ lit "," ++ w1 ++ param ++ w2 ++ lit ":"
          ++ w3 ++ rest)
  = head ++ lit ": " ++ rest.
Proof.
  intros Hn Hpre Hpost Hh Hwt Hta Hc Hta0 Hw1 Hw2 Hw3 Hr0 Hr.
  destruct (name_like_spec _ _ Hn) as (Hne & Hplain & Hseps).
  assert (H44 : 44 ∉ param) by (apply Hseps; apply list_elem_of_In; vm_compute; tauto).
  assert (H58 : 58 ∉ param) by (apply Hseps; apply list_elem_of_In; vm_compute; tauto).
  replace (head ++ lit ":" ++ wt ++ ta ++ lit "," ++ w1 ++ param ++ w2 ++ lit ":"
                ++ w3 ++ rest)
    with ((head ++ lit ":" ++ wt ++ ta) ++ site 44 58 param w1 w2 ++ w3 ++ rest)
    by (unfold site; repeat (rewrite <- app_assoc; cbn [app]); reflexivity).
  unfold strip_param.
  change (param_after_comma param) with (bracketed 44 param (Lit [58])).
  change (param_after_paren param) with (bracketed 40 param (Lit [58])).
  rewrite (sub_site 44 58 param (head ++ lit ":" ++ wt ++ ta) w1 w2 (w3 ++ rest)
             Hne Hplain H44 H58 eq_refl eq_refl Hw1 Hw2 Hpre Hpost 44 (Lit [58])
             (char_eqb 58) (closer_lit 58) (char_eqb_plain 58 eq_refl) eq_refl
             (lit ",") eq_refl eq_refl).
  rewrite (sub_needs param (bracketed 40 param (Lit [58])));
    [|exact (bracketed_needs _ _ _ _ (closer_lit 58))
     |apply contains_sep; assumption].
  replace ((head ++ lit ":" ++ wt ++ ta) ++ lit "," ++ w3 ++ rest)
    with (head ++ annotation wt ta w3 ++ rest)
    by (unfold annotation; rewrite <- !app_assoc; reflexivity).
  apply sub_type_annotation; assumption.
Qed.

Lemma strip_param_first (param head w1 w2 t rest : str) :
  name_like (lit "(,:") param = true ->
  contains param head = false ->
  contains param (t ++ rest) = false ->
  (58 ∉ head) -> (58 ∉ t) -> (44 ∉ rest) ->
  forallb ws w1 = true -> forallb ws w2 = true ->
  strip_param param (head ++ lit "(" ++ w1 ++ param ++ w2 ++ lit ":" ++ t ++ rest)
  = head ++ lit "(" ++ t ++ rest.
Proof.
  intros Hn Hpre Hpost Hh Ht Hr Hw1 Hw2.
  destruct (name_like_spec _ _ Hn) as (Hne & Hplain & Hseps).
  assert (H40 : 40 ∉ param) by (apply Hseps; apply list_elem_of_In; vm_compute; tauto).
  assert (H58 : 58 ∉ param) by (apply Hseps; apply list_elem_of_In; vm_compute; tauto).
  replace (head ++ lit "(" ++ w1 ++ param ++ w2 ++ lit ":" ++ t ++ rest)
    with (head ++ site 40 58 param w1 w2 ++ t ++ rest)
    by (unfold site; cbn [app]; repeat (rewrite <- app_assoc; cbn [app]);
        reflexivity).
  unfold strip_param.
  change (param_after_comma param) with (bracketed 44 param (Lit [58])).
  change (param_after_paren param) with (bracketed 40 param (Lit [58])).
  rewrite (sub_elsewhere 40 58 param head w1 w2 (t ++ rest) Hne Hplain H40 H58
             eq_refl eq_refl Hw1 Hw2 Hpre Hpost 44 (Lit [58]) (char_eqb 58)
             (closer_lit 58) (char_eqb_plain 58 eq_refl) eq_refl);
    [|left; discriminate].
  rewrite (sub_site 40 58 param head w1 w2 (t ++ rest) Hne Hplain H40 H58
             eq_refl eq_refl Hw1 Hw2 Hpre Hpost 40 (Lit [58]) (char_eqb 58)
             (closer_lit 58) (char_eqb_plain 58 eq_refl) eq_refl (lit "(")
             eq_refl eq_refl).
  replace (head ++ lit "(" ++ t ++ rest) with ((head ++ lit "(" ++ t) ++ rest)
    by (rewrite <- !app_assoc; reflexivity).
  apply sub_type_annotation_id; [|exact Hr].
  rewrite !elem_of_app. intros [H|[H|H]]; [auto|not_in_text H|auto].
Qed.

(** X13: for a parameter that follows a comma, the name and its colon are
    taken out, and then the type of the parameter before it: the type of the
    removed parameter stays. *)
Theorem remove_parameter_second
  (content param : str) (line_num : Z) (head wt ta w1 w2 w3 rest : str) :
  (1 <= line_num)%Z ->
  split NL content !! Z.to_nat (line_num - 1)
    = Some (head ++ lit ":" ++ wt ++ ta ++ lit "," ++ w1 ++ param ++ w2
                 ++ lit ":" ++ w3 ++ rest) ->
  name_like (lit "(,:") param = true ->
  contains param (head ++ lit ":" ++ wt ++ ta) = false ->
  contains param (w3 ++ rest) = false ->
  (58 ∉ head) ->
  forallb ws wt = true ->
  ta <> [] -> forallb not_comma_rparen ta = true -> starts_blank ta = false ->
  forallb ws w1 = true -> forallb ws w2 = true ->
  forallb ws w3 = true -> starts_blank rest = false -> (44 ∉ rest) ->
  remove_parameter content param line_num
  = Some (join NL (<[Z.to_nat (line_num - 1) := head ++ lit ": " ++ rest]>
                     (split NL content))).
Proof.
  intros H1 Hl Hn Hpre Hpost Hh Hwt Hta Hc Hta0 Hw1 Hw2 Hw3 Hr0 Hr.
  rewrite (remove_parameter_at _ _ _ _ H1 Hl).
  rewrite strip_param_second by assumption. reflexivity.
Qed.

(** X14: for a parameter that follows the opening parenthesis, the name
    and its colon are taken out and its type stays, when no comma follows the
    next colon of the line. *)
Theorem remove_parameter_first
  (content param : str) (line_num : Z) (head w1 w2 t rest : str) :
  (1 <= line_num)%Z ->
  split NL content !! Z.to_nat (line_num - 1)
    = Some (head ++ lit "(" ++ w1 ++ param ++ w2 ++ lit ":" ++ t ++ rest) ->
  name_like (lit "(,:") param = true ->
  contains param head = false ->
  contains param (t ++ rest) = false ->
  (58 ∉ head) -> (58 ∉ t) -> (44 ∉ rest) ->
  forallb ws w1 = true -> forallb ws w2 = true ->
  remove_parameter content param line_num
  = Some (join NL (<[Z.to_nat (line_num - 1) := head ++ lit "(" ++ t ++ rest]>
                     (split NL content))).
Proof.
  intros H1 Hl Hn Hpre Hpost Hh Ht Hr Hw1 Hw2.
  rewrite (remove_parameter_at _ _ _ _ H1 Hl).
  rewrite strip_param_first by assumption. reflexivity.
Qed.
End RemoveParameter.

Section RemoveParameterEdges.
Import AggressiveCleanup.

Lemma param_pattern_needs_colon o param :
  needs (lit ":") (bracketed o param (Lit [58])).
Proof.
  intros bol m H.
  destruct (bracketed_lang _ _ _ _ _ _ (closer_lit 58) H)
    as (u & v & c & -> & _ & _ & Hc).
  apply char_eqb_eq in Hc as <-. apply contains_spec.
  exists (o :: u ++ param ++ v), []. cbn [app]. rewrite <- !app_assoc.
  reflexivity.
Qed.

Lemma type_annotation_needs_colon : needs (lit ":") type_annotation.
Proof.
  intros bol m H. apply type_annotation_lang in H as (u & t & v & ->).
  apply contains_spec. exists [], (u ++ t ++ 44 :: v). reflexivity.
Qed.

Lemma strip_param_no_colon param line :
  58 ∉ line -> strip_param param line = line.
Proof.
  intros H. apply contains_char in H. unfold strip_param.
  change (param_after_comma param) with (bracketed 44 param (Lit [58])).
  change (param_after_paren param) with (bracketed 40 param (Lit [58])).
  rewrite (sub_needs (lit ":") (bracketed 44 param (Lit [58])));
    [|apply param_pattern_needs_colon|exact H].
  rewrite (sub_needs (lit ":") (bracketed 40 param (Lit [58])));
    [|apply param_pattern_needs_colon|exact H].
  apply (sub_needs (lit ":")); [apply type_annotation_needs_colon|exact H].
Qed.

(** X15: a line without a colon is left as it is, and so is the content. *)
Theorem remove_parameter_no_colon (content param : str) (line_num : Z) (line : str) :
  (1 <= line_num)%Z ->
  split NL content !! Z.to_nat (line_num - 1) = Some line ->
  (58 ∉ line) ->
  remove_parameter content param line_num = Some content.
Proof.
  intros H1 Hl Hc. rewrite (remove_parameter_at _ _ _ _ H1 Hl).
  rewrite strip_param_no_colon by exact Hc.
  rewrite list_insert_id by exact Hl. rewrite join_split. reflexivity.
Qed.

(** X16: a line number that is not positive counts from the end, as a
    Python index does: [0] names the last line, [- k] the line [k] places
    before it, and [IndexError] is raised when there is none. *)
Theorem remove_parameter_from_end (content param : str) (k : nat) :
  remove_parameter content param (- Z.of_nat k) =
    let lines := split NL content in
    let i := (length lines - 1 - k)%nat in
    if (k <? length lines)%nat
    then Some (join NL (<[i := strip_param param (default [] (lines !! i))]>
                          lines))
    else None.
Proof.
  cbv zeta. unfold remove_parameter. cbv zeta.
  set (lines := split NL content).
  destruct (Z.leb_spec (- Z.of_nat k) (Z.of_nat (length lines))); [|lia].
  unfold py_index.
  destruct (Z.leb_spec 0 (- Z.of_nat k - 1)); [lia|].
  destruct (Nat.ltb_spec k (length lines)).
  - destruct (Z.leb_spec 0 (- Z.of_nat k - 1 + Z.of_nat (length lines)));
      [|lia].
    replace (Z.to_nat (- Z.of_nat k - 1 + Z.of_nat (length lines)))
      with (length lines - 1 - k)%nat by lia.
    reflexivity.
  - destruct (Z.leb_spec 0 (- Z.of_nat k - 1 + Z.of_nat (length lines)));
      [lia|reflexivity].
Qed.
End RemoveParameterEdges.

(** ** The loop body on an import statement *)

(** The lines of a text around one of its lines: [pre] is empty or ends
    with a newline. *)
Lemma lines_around (pre tail : str) :
  pre = [] \/ (exists p, pre = p ++ [NL]) ->
  exists A B,
    length A = (length (split NL pre) - 1)%nat /\
    forall l, NL ∉ l -> split NL (pre ++ l ++ NL :: tail) = A ++ l :: B.
Proof.
  intros [->|[p ->]].
  - exists [], (split NL tail). split; [reflexivity|]. intros l Hl.
    cbn [app]. rewrite split_app_sep, (split_one NL l Hl). reflexivity.
  - exists (split NL p), (split NL tail). split.
    + rewrite split_app_sep, length_app. simpl. lia.
    + intros l Hl. rewrite <- app_assoc. cbn [app].
      rewrite split_app_sep, split_app_sep, (split_one NL l Hl). reflexivity.
Qed.

Lemma starts_blank_app (l x : str) :
  l <> [] -> starts_blank (l ++ x) = starts_blank l.
Proof. destruct l; [congruence|reflexivity]. Qed.

Section Shift.
Import AggressiveCleanup CleanupDefs.

(** X17: for an import statement that holds the reported name alone, in a
    file with one of the keywords, the loop body first takes the statement
    out and then edits the line that has moved up to its line number: the
    first type annotation of the line that followed the statement is lost. *)
Theorem edit_item_hits_next_line
  (symbol pre module tail head wt ta w3 rest : str) (q1 q2 : char) :
  let line := head ++ annotation wt ta w3 ++ rest in
  let statement := import_of symbol q1 module q2 in
  pre = [] \/ (exists p, pre = p ++ [NL]) ->
  name_like (lit "{},") symbol = true ->
  quote q1 = true -> quote q2 = true ->
  module <> [] -> forallb not_quote module = true ->
  contains symbol (pre ++ lit "import ") = false ->
  contains symbol
    (lit " from " ++ q1 :: module ++ q2 :: lit ";" ++ NL :: line ++ NL :: tail)
  = false ->
  empty_braces pre = false -> empty_braces (line ++ NL :: tail) = false ->
  existsb (fun keyword => contains keyword (pre ++ line ++ NL :: tail)) keywords
  = true ->
  starts_blank line = false -> (NL ∉ line) ->
  (58 ∉ head) -> forallb ws wt = true ->
  ta <> [] -> forallb not_comma_rparen ta = true -> starts_blank ta = false ->
  forallb ws w3 = true -> starts_blank rest = false -> (44 ∉ rest) ->
  edit_item (pre ++ statement ++ line ++ NL :: tail)
            (Z.of_nat (length (split NL pre)), symbol)
  = Some (pre ++ (head ++ lit ": " ++ rest) ++ NL :: tail).
Proof.
  intros line statement Hpre Hn Hq1 Hq2 Hm Hpath Hbefore Hafter Hb1 Hb2 Hkw Hl0
    Hnl Hh Hwt Hta Hclass Hta0 Hw3 Hr0 Hr.
  unfold edit_item. cbn [fst snd].
  assert (E1 : remove_from_import (pre ++ statement ++ line ++ NL :: tail) symbol
               = pre ++ line ++ NL :: tail).
  { subst statement. unfold import_of.
    replace (pre ++ (lit "import { " ++ symbol ++ lit " } from " ++ q1 :: module
                       ++ q2 :: lit ";" ++ [NL]) ++ line ++ NL :: tail)
      with (pre ++ lit "import { " ++ symbol ++ lit " } from " ++ q1 :: module
                ++ q2 :: lit ";" ++ [] ++ NL :: line ++ NL :: tail)
      by (cbn [app]; repeat (rewrite <- app_assoc; cbn [app]); reflexivity).
    unfold remove_from_import.
    rewrite (sole_name_emptied symbol pre module [] (line ++ NL :: tail) q1 q2
               Hn Hbefore Hafter).
    apply (sub_empty_import_statement q1 q2 module [] pre []
             (line ++ NL :: tail)); try assumption; try reflexivity.
    - apply not_elem_of_nil.
    - rewrite <- (starts_blank_app line (NL :: tail)) in Hl0.
      + destruct (line ++ NL :: tail); [exact I|exact Hl0].
      + subst line. unfold annotation. destruct head; discriminate. }
  rewrite E1, Hkw.
  destruct (lines_around pre tail Hpre) as (A & B & HA & Hsplit).
  pose proof (split_length NL pre) as Hlen.
  assert (Hline : split NL (pre ++ line ++ NL :: tail)
                    !! Z.to_nat (Z.of_nat (length (split NL pre)) - 1)
                  = Some line).
  { rewrite (Hsplit line Hnl).
    replace (Z.to_nat (Z.of_nat (length (split NL pre)) - 1)) with (length A)
      by lia.
    rewrite lookup_app_r by lia. rewrite Nat.sub_diag. reflexivity. }
  assert (Hsym : contains symbol line = false).
  { apply contains_false_app_r in Hafter.
    change (q1 :: module ++ q2 :: lit ";" ++ NL :: line ++ NL :: tail)
      with ([q1] ++ module ++ [q2] ++ lit ";" ++ [NL] ++ line ++ NL :: tail)
      in Hafter.
    do 5 apply contains_false_app_r in Hafter.
    exact (contains_false_app_l _ _ _ Hafter). }
  assert (H1 : (1 <= Z.of_nat (length (split NL pre)))%Z) by lia.
  rewrite (remove_parameter_at _ _ _ _ H1 Hline).
  rewrite (strip_param_absent _ _ Hsym).
  subst line.
  rewrite (sub_type_annotation head wt ta w3 rest Hh Hwt Hta Hclass Hta0 Hw3 Hr0 Hr).
  f_equal.
  assert (Hnl' : NL ∉ head ++ lit ": " ++ rest).
  { intros H. apply Hnl. rewrite !elem_of_app in *.
    destruct H as [H|[H|H]]; [auto|not_in_text H|auto 10]. }
  replace (Z.to_nat (Z.of_nat (length (split NL pre)) - 1)) with (length A)
    by lia.
  rewrite Hsplit.
  2:{ exact Hnl. }
  replace (length A) with (length A + 0)%nat by lia.
  rewrite insert_app_r. unfold insert. cbn [list_insert].
  rewrite <- (Hsplit _ Hnl'). apply join_split.
Qed.
End Shift.

Lemma remove_parameter_other_annotation_witness :
  AggressiveCleanup.remove_parameter MoreExamples.declaration (lit "unused") 1
  = Some (join NL (<[Z.to_nat (1 - 1) :=
                      lit "const m" ++ lit ": " ++ lit "number> = x;"]>
                     (split NL MoreExamples.declaration))).
Proof.
  apply (remove_parameter_other_annotation MoreExamples.declaration
           (lit "unused") 1 (lit "const m") (lit " ") (lit "Map<string")
           (lit " ") (lit "number> = x;")); evaluated.
Defined.

Lemma remove_parameter_second_witness :
  AggressiveCleanup.remove_parameter Examples.signature (lit "foo") 2
  = Some (join NL (<[Z.to_nat (2 - 1) :=
                      lit "function f(x" ++ lit ": " ++ lit "string) {"]>
                     (split NL Examples.signature))).
Proof.
  apply (remove_parameter_second Examples.signature (lit "foo") 2
           (lit "function f(x") (lit " ") (lit "number") (lit " ") []
           (lit " ") (lit "string) {")); evaluated.
Defined.

Lemma remove_parameter_first_witness :
  AggressiveCleanup.remove_parameter MoreExamples.signature_first (lit "foo") 1
  = Some (join NL (<[Z.to_nat (1 - 1) :=
                      lit "function f" ++ lit "(" ++ lit " string, b"
                        ++ lit ": number) {"]>
                     (split NL MoreExamples.signature_first))).
Proof.
  apply (remove_parameter_first MoreExamples.signature_first (lit "foo") 1
           (lit "function f") [] [] (lit " string, b") (lit ": number) {"));
    evaluated.
Defined.

Lemma remove_parameter_no_colon_witness :
  AggressiveCleanup.remove_parameter Examples.signature (lit "foo") 1
  = Some Examples.signature.
Proof.
  apply (remove_parameter_no_colon Examples.signature (lit "foo") 1
           (lit "// a")); evaluated.
Defined.

Lemma edit_item_hits_next_line_witness :
  CleanupDefs.edit_item
    ([] ++ import_of (lit "foo") SQ (lit "./m.js") SQ
        ++ (lit "const f = (a" ++ annotation (lit " ") (lit "string") (lit " ")
              ++ lit "b: number) => 1;") ++ NL :: [])
    (Z.of_nat (length (split NL [])), lit "foo")
  = Some ([] ++ (lit "const f = (a" ++ lit ": " ++ lit "b: number) => 1;")
             ++ NL :: []).
Proof.
  apply (edit_item_hits_next_line (lit "foo") [] (lit "./m.js") []
           (lit "const f = (a") (lit " ") (lit "string") (lit " ")
           (lit "b: number) => 1;") SQ SQ); try evaluated.
  left. reflexivity.
Defined.

(** ** The import fixers: what a run changes *)

Lemma deletes_app (w a s t : str) : deletes w s t -> deletes w (a ++ s) (a ++ t).
Proof. intros H. induction a as [|x a IH]; [exact H|]. simpl. constructor. exact IH. Qed.

Lemma deletes_length (w s t : str) :
  deletes w s t ->
  exists n, length s = (length t + n * length w)%nat.
Proof.
  induction 1 as [|x s t _ [n IH]|s t _ [n IH]].
  - exists 0%nat. reflexivity.
  - exists n. simpl. lia.
  - exists (S n). rewrite length_app. lia.
Qed.

Section OnlyDeletes.
Import FixerDefs FixUnusedImports.

Lemma sub_from_import_deletes n :
  forall s bol, (length s <= n)%nat ->
    deletes removed_text s (sub_from import_pattern [RRef 1; RRef 2] 0 bol s).
Proof.
  induction n as [|n IH]; intros s bol Hlen.
  - destruct s; [|simpl in Hlen; lia].
    rewrite sub_from_nil.
    destruct (match_here import_pattern bol []) as [[[m rest] c]|] eqn:E;
      [|constructor].
    exfalso. pose proof (import_pattern_nonempty _ _ _ _ _ E) as Hm.
    apply match_here_sound in E as [E _]. destruct m; [congruence|discriminate].
  - destruct (match_here import_pattern bol s) as [[[m rest] c]|] eqn:E.
    + pose proof (import_pattern_nonempty _ _ _ _ _ E) as Hm.
      rewrite (sub_from_hit _ _ _ _ _ _ _ E Hm).
      apply import_pattern_spec in E
        as (h & x & g2 & _ & _ & _ & -> & -> & -> & _).
      cbn [expand group Nat.eqb]. rewrite app_nil_r, <- !app_assoc.
      apply deletes_app, deletes_app. constructor. apply deletes_app.
      apply IH. rewrite !length_app in Hlen.
      assert (0 < length removed_text)%nat by (vm_compute; lia). lia.
    + destruct s as [|x s].
      * rewrite sub_from_nil, E. constructor.
      * rewrite (sub_from_miss _ _ _ _ _ E). constructor. apply IH.
        simpl in Hlen. lia.
Qed.

(** X18: what [fix-unused-imports.py] makes of a content is the content
    with some occurrences of [, WorkflowStepConfig] left out, and nothing
    else: the length goes down by a multiple of 20. *)
Theorem fix_content_only_deletes (content : str) :
  deletes removed_text content (fix_content content) /\
  exists n, length content = (length (fix_content content) + n * 20)%nat.
Proof.
  assert (H : deletes removed_text content (fix_content content))
    by (apply (sub_from_import_deletes (length content)); lia).
  split; [exact H|]. exact (deletes_length _ _ _ H).
Qed.

Lemma import_pattern_needs_module :
  needs ImportDefs.module_path import_pattern.
Proof.
  intros bol m H. unfold import_pattern in H. cbn [cat lang] in H.
  destruct H as (m1 & m2 & -> & _ & m3 & m4 & -> & _ & m5 & m6 & -> & _ & m7 & m8
                 & -> & _ & m9 & m10 & -> & _ & m11 & m12 & -> & _ & m13 & m14 & ->
                 & _ & m15 & m16 & -> & _ & m17 & m18 & -> & -> & _).
  apply contains_spec.
  exists (m1 ++ m3 ++ m5 ++ m7 ++ m9 ++ m11 ++ m13 ++ m15), m18.
  rewrite <- !app_assoc. reflexivity.
Qed.

(** X19: a content without the module path [../engine/WorkflowStep.js] is
    left as it is. *)
Theorem fix_content_other_module (content : str) :
  contains ImportDefs.module_path content = false ->
  fix_content content = content.
Proof. apply sub_needs, import_pattern_needs_module. Qed.
End OnlyDeletes.


Lemma fix_content_other_module_witness :
  FixUnusedImports.fix_content Examples.source = Examples.source.
Proof.
  apply (fix_content_other_module Examples.source). vm_compute. reflexivity.
Defined.








Section CoordinatorOnly.
Import FixWorkflowCoordinatorImports CoordinatorDefs.





End CoordinatorOnly.


Section Runs.
Context {msg : Type}.
Variable cwd : list str.
Variable step : files * list (event msg) -> str -> files * list (event msg).
Variable new : str -> str.

(** A step rewrites the file it names, when that file exists. *)
Hypothesis step_fs : forall f out filepath,
  (step (f, out) filepath).1 =
    match f !! resolve cwd (Path filepath) with
    | Some content =>
        if str_eqb (new content) content then f
        else <[resolve cwd (Path filepath) := new content]> f
    | None => f
    end.


End Runs.



Section FixerRunTheorems.
Import CoordinatorDefs.






End FixerRunTheorems.
